(** * Role ancestry closure of awx/main/models/rbac.py

    A shallow embedding of the role graph tables, of the layered
    ancestry rebuild ([Role._simultaneous_ancestry_rebuild]), of the
    batching context manager ([batch_role_ancestor_rebuilding]) and of
    [get_roles_on_resource], followed by the properties established
    about them. *)

From Stdlib Require Import ZArith List Bool String Lia Permutation.
Import ListNotations.
Local Open Scope Z_scope.

(** ** Schema *)

(** Row of [main_rbac_roles]: the columns that the closure engine reads. *)
Record Role := mkRole {
  id : Z;
  role_field : string;
  content_type : option Z;
  object_id : option Z
}.

(** Row of the [Role.parents] through table: [from_role_id] inherits
    from [to_role_id]. *)
Record ParentEdge := mkEdge {
  from_role_id : Z;
  to_role_id : Z
}.

(** Row of [main_rbac_role_ancestors] ([RoleAncestorEntry]). *)
Record RoleAncestorEntry := mkEntry {
  entry_id : Z;
  descendent : Z;
  ancestor : Z;
  entry_role_field : string;
  content_type_id : Z;
  entry_object_id : Z
}.

(** Row of the [Role.members] through table. *)
Record Membership := mkMember {
  member_role_id : Z;
  member_user_id : Z
}.

(** The statements that reach the store, in the order they are issued. *)
Inductive Statement :=
| SeedPurge (ids : list Z)       (* DELETE ... WHERE ancestor_id IN (ids) *)
| LayerDelete (ids : list Z)     (* DELETE ... WHERE descendent_id IN (ids) AND id NOT IN (...) *)
| LayerInsert (ids : list Z)     (* INSERT INTO ... SELECT ... WHERE id IS NULL *)
| SelectChildren (ids : list Z)  (* Role.objects.distinct().filter(...).values_list('children__id') *)
| Begin
| Commit
| Rollback.

Record Database := mkDb {
  roles : list Role;
  parents : list ParentEdge;
  members : list Membership;
  ancestors : list RoleAncestorEntry;
  next_id : Z;                       (* sequence behind the surrogate key *)
  statements : list Statement
}.

Definition set_ancestors (db : Database) (rows : list RoleAncestorEntry) (next : Z) : Database :=
  mkDb (roles db) (parents db) (members db) rows next (statements db).

Definition log_statement (s : Statement) (db : Database) : Database :=
  mkDb (roles db) (parents db) (members db) (ancestors db) (next_id db)
       (statements db ++ [s]).

(** ** SQL fragments *)

(** [x IN (ids)] *)
Definition id_in (x : Z) (ids : list Z) : bool := existsb (Z.eqb x) ids.

Definition coalesce (v : option Z) (d : Z) : Z :=
  match v with Some x => x | None => d end.

Definition pair_eq_dec (x y : Z * Z) : {x = y} + {x <> y}.
Proof. decide equality; apply Z.eq_dec. Defined.

(** The inner query of the DELETE statement (lines 292-300): the union
    of the parents' ancestors and of the self entries, as
    [(from_id, to_id)]. *)
Definition new_ancestry_pairs (db : Database) (ids : list Z) : list (Z * Z) :=
  nodup pair_eq_dec
    (flat_map (fun p =>
         if id_in (from_role_id p) ids
         then map (fun a => (from_role_id p, ancestor a))
                  (filter (fun a => to_role_id p =? descendent a) (ancestors db))
         else [])
       (parents db)
     ++ map (fun r => (id r, id r))
            (filter (fun r => id_in (id r) ids) (roles db))).

(** Row of [new_ancestry_list] in the INSERT statement (lines 312-330). *)
Record NewAncestry := mkNew {
  from_id : Z;
  to_id : Z;
  new_role_field : string;
  new_content_type_id : Z;
  new_object_id : Z
}.

Definition NewAncestry_eq_dec (x y : NewAncestry) : {x = y} + {x <> y}.
Proof. decide equality; solve [apply Z.eq_dec | apply string_dec]. Defined.

Definition new_ancestry_list (db : Database) (ids : list Z) : list NewAncestry :=
  nodup NewAncestry_eq_dec
    (flat_map (fun p =>
         if id_in (from_role_id p) ids
         then flat_map (fun r =>
                map (fun a => mkNew (from_role_id p) (ancestor a) (role_field r)
                                    (coalesce (content_type r) 0)
                                    (coalesce (object_id r) 0))
                    (filter (fun a => to_role_id p =? descendent a) (ancestors db)))
              (filter (fun r => from_role_id p =? id r) (roles db))
         else [])
       (parents db)
     ++ map (fun r => mkNew (id r) (id r) (role_field r)
                            (coalesce (content_type r) 0)
                            (coalesce (object_id r) 0))
            (filter (fun r => id_in (id r) ids) (roles db))).

(** [new_ancestry_list LEFT JOIN ancestors ON (from_id = descendent_id
    AND to_id = ancestor_id)]: does a candidate have a stored row? *)
Definition stored (rows : list RoleAncestorEntry) (d a : Z) : bool :=
  existsb (fun e => (d =? descendent e) && (a =? ancestor e)) rows.

(** The ids selected by the [id NOT IN] subquery of the DELETE (lines
    291-304). *)
Definition matched_ids (db : Database) (ids : list Z) : list Z :=
  flat_map (fun c =>
      map entry_id
          (filter (fun e => (fst c =? descendent e) && (snd c =? ancestor e))
                  (ancestors db)))
    (new_ancestry_pairs db ids).

(** Fresh surrogate keys for inserted rows. *)
Fixpoint insert_rows (next : Z) (cs : list NewAncestry) : list RoleAncestorEntry :=
  match cs with
  | [] => []
  | c :: cs' =>
      mkEntry next (from_id c) (to_id c) (new_role_field c)
              (new_content_type_id c) (new_object_id c)
      :: insert_rows (next + 1) cs'
  end.

Definition rowcount {A} (before after : list A) : Z :=
  Z.of_nat (List.length before) - Z.of_nat (List.length after).

(** Rows that survive the DELETE of lines 266-269. *)
Definition purge_kept (db : Database) (ids : list Z) : list RoleAncestorEntry :=
  filter (fun e => negb (id_in (ancestor e) ids)) (ancestors db).

(** Rows that survive the DELETE of lines 286-306. *)
Definition delete_kept (db : Database) (ids : list Z) : list RoleAncestorEntry :=
  filter (fun e => negb (id_in (descendent e) ids
                         && negb (id_in (entry_id e) (matched_ids db ids))))
         (ancestors db).

(** Rows selected by the INSERT of lines 309-335. *)
Definition insert_missing (db : Database) (ids : list Z) : list NewAncestry :=
  filter (fun c => negb (stored (ancestors db) (from_id c) (to_id c)))
         (new_ancestry_list db ids).

(** [cursor.execute]: runs one statement and reports [cursor.rowcount]. *)
Definition cursor_execute (s : Statement) (db : Database) : Database * Z :=
  match s with
  | SeedPurge ids =>
      let kept := purge_kept db ids in
      (log_statement s (set_ancestors db kept (next_id db)),
       rowcount (ancestors db) kept)
  | LayerDelete ids =>
      let kept := delete_kept db ids in
      (log_statement s (set_ancestors db kept (next_id db)),
       rowcount (ancestors db) kept)
  | LayerInsert ids =>
      let missing := insert_missing db ids in
      let n := Z.of_nat (List.length missing) in
      (log_statement s
         (set_ancestors db (ancestors db ++ insert_rows (next_id db) missing)
                        (next_id db + n)), n)
  | _ => (log_statement s db, 0)
  end.

(** The ORM query of lines 341-343. *)
Definition children_ids (db : Database) (ids : list Z) : list Z :=
  nodup Z.eq_dec
    (flat_map (fun r =>
         if id_in (id r) ids
         then map from_role_id (filter (fun p => to_role_id p =? id r) (parents db))
         else [])
       (roles db)).

(** The query, run by the store on the rows [ids] of its [id__in]
    operand. *)
Definition select_children (ids : list Z) (db : Database) : Database * list Z :=
  (log_statement (SelectChildren ids) db, children_ids db ids).

(** ** Role._simultaneous_ancestry_rebuild *)

Inductive Exception :=
| InfiniteLoopDetected   (* 'Ancestry role rebuilding error: infinite loop detected' *)
| AttributeError         (* getattr on a thread-local attribute that is not set *)
| BodyError.             (* an exception raised by the body of a with block *)

(** How a call left the function. *)
Inductive Exit :=
| EmptySeed    (* line 238: return *)
| WhileFalse   (* line 272: the id set of the next layer is empty *)
| Break.       (* line 339: a layer deleted and inserted nothing *)

Inductive Completion :=
| Returned (how : Exit) (loop_ct : nat)
| Raised (e : Exception) (loop_ct : nat).

(** The while loop of lines 272-343, on a store that runs every query
    it is sent: the children are then a list of ids.  [rebuild_loop_on]
    below has the query as the code builds it, and a store that may
    refuse it.  [fuel] only makes the recursion structural;
    [rebuild_loop_fuel] shows that 1001 is always enough. *)
Fixpoint rebuild_loop (fuel : nat) (loop_ct : nat) (db : Database)
         (role_ids_to_rebuild : list Z) : Database * Completion :=
  match role_ids_to_rebuild with
  | [] => (db, Returned WhileFalse loop_ct)
  | _ :: _ =>
      if (1000 <? loop_ct)%nat then (db, Raised InfiniteLoopDetected loop_ct)
      else
        match fuel with
        | O => (db, Raised InfiniteLoopDetected loop_ct)
        | S fuel' =>
            let loop_ct := S loop_ct in
            let '(db, delete_ct) := cursor_execute (LayerDelete role_ids_to_rebuild) db in
            let '(db, insert_ct) := cursor_execute (LayerInsert role_ids_to_rebuild) db in
            if (insert_ct =? 0) && (delete_ct =? 0) then (db, Returned Break loop_ct)
            else
              let '(db, next_ids) := select_children role_ids_to_rebuild db in
              rebuild_loop fuel' loop_ct db next_ids
        end
  end.

Definition _simultaneous_ancestry_rebuild (role_ids_to_rebuild : list Z)
           (db : Database) : Database * Completion :=
  match role_ids_to_rebuild with
  | [] => (db, Returned EmptySeed 0)
  | _ :: _ =>
      let '(db, _) := cursor_execute (SeedPurge role_ids_to_rebuild) db in
      rebuild_loop 1001 0 db role_ids_to_rebuild
  end.

(** ** The children query as the code builds it *)

(** What [role_ids_to_rebuild] is bound to: the ids handed to the
    function, or, from lines 341-343 on, a QuerySet.  The QuerySet is
    lazy and has the previous binding as the operand of [id__in]: once
    that binding is a QuerySet too, the ORM writes it into the query as
    a subquery, so the query of each layer nests the queries of all the
    layers before it. *)
Inductive RoleIds :=
| Listed (ids : list Z)
| ChildrenOf (role_ids_to_rebuild : RoleIds).

(** Number of SELECTs nested in the query: one per layer run so far. *)
Fixpoint query_depth (q : RoleIds) : nat :=
  match q with
  | Listed _ => 0
  | ChildrenOf q' => S (query_depth q')
  end.

(** The rows of the query: the subqueries are computed by the store, on
    the tables as they are when the query runs. *)
Fixpoint query_rows (db : Database) (q : RoleIds) : list Z :=
  match q with
  | Listed ids => ids
  | ChildrenOf q' => children_ids db (query_rows db q')
  end.

(** How a call left the function, on a store that may refuse a query:
    the refusal reaches the caller as [OperationalError]. *)
Inductive StoreCompletion :=
| Completed (c : Completion)
| OperationalError (loop_ct : nat).

(** Line 272, [while role_ids_to_rebuild:].  The truth test of a list
    reads the list; the truth test of a QuerySet sends its query to the
    store and keeps the rows for line 284.  What a store refuses is its
    own matter (parser stack, expression depth): [accepts n] tells
    whether it runs a children query of [n] nested SELECTs. *)
Definition fetch (accepts : nat -> bool) (role_ids_to_rebuild : RoleIds)
           (db : Database) : Database * option (list Z) :=
  match role_ids_to_rebuild with
  | Listed ids => (db, Some ids)
  | ChildrenOf operand =>
      let '(db, rows) := select_children (query_rows db operand) db in
      (db, if accepts (query_depth role_ids_to_rebuild) then Some rows else None)
  end.

(** The while loop of lines 272-343 on such a store. *)
Fixpoint rebuild_loop_on (accepts : nat -> bool) (fuel : nat) (loop_ct : nat)
         (db : Database) (role_ids_to_rebuild : RoleIds)
  : Database * StoreCompletion :=
  let '(db, fetched) := fetch accepts role_ids_to_rebuild db in
  match fetched with
  | None => (db, OperationalError loop_ct)
  | Some [] => (db, Completed (Returned WhileFalse loop_ct))
  | Some ((_ :: _) as ids) =>
      if (1000 <? loop_ct)%nat
      then (db, Completed (Raised InfiniteLoopDetected loop_ct))
      else
        match fuel with
        | O => (db, Completed (Raised InfiniteLoopDetected loop_ct))
        | S fuel' =>
            let loop_ct := S loop_ct in
            let '(db, delete_ct) := cursor_execute (LayerDelete ids) db in
            let '(db, insert_ct) := cursor_execute (LayerInsert ids) db in
            if (insert_ct =? 0) && (delete_ct =? 0)
            then (db, Completed (Returned Break loop_ct))
            else rebuild_loop_on accepts fuel' loop_ct db
                                 (ChildrenOf role_ids_to_rebuild)
        end
  end.

Definition _simultaneous_ancestry_rebuild_on (accepts : nat -> bool)
           (role_ids_to_rebuild : list Z) (db : Database)
  : Database * StoreCompletion :=
  match role_ids_to_rebuild with
  | [] => (db, Completed (Returned EmptySeed 0))
  | _ :: _ =>
      let '(db, _) := cursor_execute (SeedPurge role_ids_to_rebuild) db in
      rebuild_loop_on accepts 1001 0 db (Listed role_ids_to_rebuild)
  end.

(** ** Thread-local state and the single-role entry point *)

(** [tls = threading.local()]: an attribute is [None] until it is set. *)
Record ThreadLocal := mkTls {
  batch_role_rebuilding : option bool;
  roles_needing_rebuilding : option (list Z)
}.

Record World := mkWorld {
  db : Database;
  tls : ThreadLocal
}.

(** [getattr(tls, 'batch_role_rebuilding', False)] *)
Definition batching (t : ThreadLocal) : bool :=
  match batch_role_rebuilding t with Some b => b | None => false end.

(** [set.add]; the set is kept as a duplicate-free list. *)
Definition set_add (x : Z) (s : list Z) : list Z :=
  if id_in x s then s else s ++ [x].

Inductive Result :=
| Done
| Failed (e : Exception).

Definition result_of (c : Completion) : Result :=
  match c with
  | Returned _ _ => Done
  | Raised e _ => Failed e
  end.

(** Lines 114-153. *)
Definition rebuild_role_ancestor_list (self_id : Z) (w : World) : World * Result :=
  if batching (tls w) then
    match roles_needing_rebuilding (tls w) with
    | None => (w, Failed AttributeError)
    | Some roles_needing =>
        (mkWorld (db w)
                 (mkTls (batch_role_rebuilding (tls w))
                        (Some (set_add self_id roles_needing))),
         Done)
    end
  else
    let '(db', c) := _simultaneous_ancestry_rebuild [self_id] (db w) in
    (mkWorld db' (tls w), result_of c).

(** ** batch_role_ancestor_rebuilding *)

(** [with transaction.atomic()]: the tables are restored when the block
    raises (the sequence behind the surrogate key is not). *)
Definition atomic (block : Database -> Database * Completion) (d : Database)
  : Database * Completion :=
  let start := log_statement Begin d in
  let '(d', c) := block start in
  match c with
  | Returned _ _ => (log_statement Commit d', c)
  | Raised _ _ =>
      (log_statement Rollback
         (mkDb (roles start) (parents start) (members start) (ancestors start)
               (next_id d') (statements d')), c)
  end.

(** Lines 48-53, up to the [yield]; returns the saved local
    [batch_role_rebuilding].  [allow_nesting] is accepted and not read. *)
Definition batch_enter (allow_nesting : bool) (w : World) : World * bool :=
  let saved := batching (tls w) in
  let t := mkTls (Some true) (roles_needing_rebuilding (tls w)) in
  let t := if negb saved then mkTls (batch_role_rebuilding t) (Some []) else t in
  (mkWorld (db w) t, saved).

(** The [finally] block, lines 56-66. *)
Definition batch_exit (saved : bool) (w : World) : World * Result :=
  let t := mkTls (Some saved) (roles_needing_rebuilding (tls w)) in
  if negb saved then
    match roles_needing_rebuilding t with
    | None => (mkWorld (db w) t, Failed AttributeError)
    | Some rebuild_set =>
        let '(d, c) := atomic (_simultaneous_ancestry_rebuild rebuild_set) (db w) in
        match c with
        | Returned _ _ => (mkWorld d (mkTls (batch_role_rebuilding t) None), Done)
        | Raised e _ => (mkWorld d t, Failed e)
        end
    end
  else (mkWorld (db w) t, Done).

(** ** Callers *)

(** [super(Role, self).save()]: insert the row, or update it in place. *)
Definition save_row (r : Role) (rows : list Role) : list Role :=
  if existsb (fun x => id x =? id r) rows
  then map (fun x => if id x =? id r then r else x) rows
  else rows ++ [r].

Definition has_edge (e : ParentEdge) (rows : list ParentEdge) : bool :=
  existsb (fun x => (from_role_id x =? from_role_id e) && (to_role_id x =? to_role_id e)) rows.

Definition with_roles (rows : list Role) (w : World) : World :=
  mkWorld (mkDb rows (parents (db w)) (members (db w)) (ancestors (db w))
                (next_id (db w)) (statements (db w))) (tls w).

Definition with_parents (rows : list ParentEdge) (w : World) : World :=
  mkWorld (mkDb (roles (db w)) rows (members (db w)) (ancestors (db w))
                (next_id (db w)) (statements (db w))) (tls w).

(** What a caller of this module does inside or outside a with block. *)
#[local] Unset Elimination Schemes.
Inductive Command :=
| Save (r : Role)                      (* Role.save(), lines 94-96 *)
| AddParent (child parent : Z)         (* child.parents.add(parent) *)
| RemoveParent (child parent : Z)      (* child.parents.remove(parent) *)
| Fail                                 (* the caller's code raises *)
| WithBatch (allow_nesting : bool) (body : list Command).
#[local] Set Elimination Schemes.

(** Modelled from the spec: the signal handler that reacts to a change
    of [Role.parents] is not part of rbac.py; by section 4.3.1 the role
    whose parent set changed is handed to the rebuild entry point after
    the edge is written (the pair is unique in the through table). *)
Definition parents_add (child parent : Z) (w : World) : World * Result :=
  let e := mkEdge child parent in
  let rows := if has_edge e (parents (db w)) then parents (db w)
              else parents (db w) ++ [e] in
  rebuild_role_ancestor_list child (with_parents rows w).

(** Modelled from the spec: as for [parents_add], after the edge is
    removed. *)
Definition parents_remove (child parent : Z) (w : World) : World * Result :=
  let rows := filter (fun x => negb ((from_role_id x =? child) && (to_role_id x =? parent)))
                     (parents (db w)) in
  rebuild_role_ancestor_list child (with_parents rows w).

(** Lines 94-96. *)
Definition save (r : Role) (w : World) : World * Result :=
  rebuild_role_ancestor_list (id r) (with_roles (save_row r (roles (db w))) w).

(** A [finally] block that completes lets the exception of the body
    through; one that raises replaces it. *)
Definition finally (body_result exit_result : Result) : Result :=
  match exit_result with
  | Failed e => Failed e
  | Done => body_result
  end.

Fixpoint run_command (c : Command) (w : World) {struct c} : World * Result :=
  match c with
  | Save r => save r w
  | AddParent child parent => parents_add child parent w
  | RemoveParent child parent => parents_remove child parent w
  | Fail => (w, Failed BodyError)
  | WithBatch allow_nesting body =>
      let '(w, saved) := batch_enter allow_nesting w in
      let '(w, body_result) :=
        (fix run (cs : list Command) (w : World) {struct cs} : World * Result :=
           match cs with
           | [] => (w, Done)
           | c :: cs' =>
               let '(w', r) := run_command c w in
               match r with
               | Done => run cs' w'
               | Failed e => (w', Failed e)
               end
           end) body w in
      let '(w, exit_result) := batch_exit saved w in
      (w, finally body_result exit_result)
  end.

Fixpoint run_body (cs : list Command) (w : World) : World * Result :=
  match cs with
  | [] => (w, Done)
  | c :: cs' =>
      let '(w', r) := run_command c w in
      match r with
      | Done => run_body cs' w'
      | Failed e => (w', Failed e)
      end
  end.

Definition empty_db : Database := mkDb [] [] [] [] 1 [].
Definition fresh_world : World := mkWorld empty_db (mkTls None None).

Definition pairs_of (d : Database) : list (Z * Z) :=
  map (fun e => (descendent e, ancestor e)) (ancestors d).

(** ** get_roles_on_resource *)

Inductive Accessor :=
| AUser (user_id : Z)                       (* type(accessor) == User *)
| ARole (r : Role)                          (* type(accessor) == Role *)
| AObject (accessor_type_id : Z) (pk : Z).  (* anything else *)

(** A resource, with [ContentType.objects.get_for_model(resource).id]. *)
Record Resource := mkResource {
  resource_type_id : Z;
  resource_id : Z
}.

Definition option_is (v : option Z) (x : Z) : bool :=
  match v with Some y => y =? x | None => false end.

(** Lines 386-393: the primary keys behind [roles]. *)
Definition accessor_roles (d : Database) (accessor : Accessor) : list Z :=
  match accessor with
  | AUser u =>
      flat_map (fun m =>
          if member_user_id m =? u
          then map id (filter (fun r => id r =? member_role_id m) (roles d))
          else [])
        (members d)
  | ARole r => [id r]
  | AObject accessor_type_id pk =>
      map id (filter (fun r => option_is (content_type r) accessor_type_id
                               && option_is (object_id r) pk)
                     (roles d))
  end.

(** [d[key] = value] on a dict kept in insertion order. *)
Fixpoint dict_set (key : string) (value : bool) (d : list (string * bool))
  : list (string * bool) :=
  match d with
  | [] => [(key, value)]
  | (k, v) :: d' =>
      if String.eqb k key then (k, value) :: d'
      else (k, v) :: dict_set key value d'
  end.

(** Lines 379-402. *)
Definition get_roles_on_resource (d : Database) (resource : Resource)
           (accessor : Accessor) : list (string * bool) :=
  let roles := accessor_roles d accessor in
  fold_left (fun acc role_field => dict_set role_field true acc)
    (map entry_role_field
         (filter (fun e => id_in (ancestor e) roles
                           && (content_type_id e =? resource_type_id resource)
                           && (entry_object_id e =? resource_id resource))
                 (ancestors d)))
    [].

(** ** Role.__contains__, Role.is_ancestor_of, Role.visible_roles *)

(** [self.ancestors]: the roles joined to the closure rows whose
    descendent is [self_id] (through_fields = (descendent, ancestor)). *)
Definition role_ancestors (d : Database) (self_id : Z) : list Role :=
  flat_map (fun r =>
      map (fun _ => r)
          (filter (fun e => (descendent e =? self_id) && (ancestor e =? id r))
                  (ancestors d)))
    (roles d).

(** [QuerySet.exists()] *)
Definition queryset_exists {A} (rows : list A) : bool :=
  match rows with
  | [] => false
  | _ :: _ => true
  end.

(** What [__contains__] is asked about: a Team (with the id of its
    [member_role]) or one of the accessors of [get_roles_on_resource]. *)
Inductive ContainsAccessor :=
| CTeam (member_role : Z)
| COther (accessor : Accessor).

(** What [accessor in self] comes to: the answer of [exists()], or the
    TypeError of the ORM, whose [pk] lookup does not take a model
    instance for its value. *)
Inductive Containment :=
| Answer (b : bool)
| TypeError.

(** Lines 101-112: [accessor in self]. *)
Definition Role_contains (d : Database) (self : Role)
           (accessor : ContainsAccessor) : Containment :=
  match accessor with
  | COther (AUser u) =>
      Answer (queryset_exists
        (flat_map (fun r =>
             filter (fun m => (member_role_id m =? id r) && (member_user_id m =? u))
                    (members d))
           (role_ancestors d (id self))))
  | CTeam member_role =>
      Answer (queryset_exists
        (filter (fun r => id r =? member_role) (role_ancestors d (id self))))
  | COther (ARole a) =>
      (* line 107: filter(pk=accessor), the Role itself and not its id *)
      TypeError
  | COther (AObject accessor_type_id pk) =>
      Answer (queryset_exists
        (filter (fun r => id_in (id r)
                            (accessor_roles d (AObject accessor_type_id pk)))
                (role_ancestors d (id self))))
  end.

(** Lines 356-357. *)
Definition is_ancestor_of (d : Database) (self role : Role) : bool :=
  queryset_exists
    (filter (fun r => id r =? id self) (role_ancestors d (id role))).

(** [LEFT OUTER JOIN]: the matching rows, or one NULL row. *)
Definition left_join {A} (on : A -> bool) (rows : list A) : list (option A) :=
  match filter on rows with
  | [] => [None]
  | matches => map Some matches
  end.

(** Lines 347-349: the roles with a descendent or an ancestor among the
    roles of the user; the two conditions of the [Q(...) | Q(...)] are
    on two outer joins of the closure, and a role comes once per joined
    row that meets one of them. *)
Definition visible_roles (d : Database) (user : Z) : list Role :=
  let held := accessor_roles d (AUser user) in
  flat_map (fun r =>
      flat_map (fun t1 =>
          flat_map (fun t2 =>
              if match t1 with
                 | Some e => id_in (descendent e) held
                 | None => false
                 end
                 || match t2 with
                    | Some e => id_in (ancestor e) held
                    | None => false
                    end
              then [r] else [])
            (left_join (fun e => id r =? descendent e) (ancestors d)))
        (left_join (fun e => id r =? ancestor e) (ancestors d)))
    (roles d).

(** ** Vocabulary of the properties *)

(** [a] is reachable from [d] by zero or more parent edges. *)
Inductive reachable (edges : list ParentEdge) : Z -> Z -> Prop :=
| reach_self : forall d, reachable edges d d
| reach_step : forall d p a,
    In (mkEdge d p) edges -> reachable edges p a -> reachable edges d a.

(** Number of closure rows for the pair [(d, a)]. *)
Definition row_count (rows : list RoleAncestorEntry) (d a : Z) : nat :=
  List.length (filter (fun e => (d =? descendent e) && (a =? ancestor e)) rows).

(** A closure row without its surrogate key. *)
Definition row_of (e : RoleAncestorEntry) : NewAncestry :=
  mkNew (descendent e) (ancestor e) (entry_role_field e)
        (content_type_id e) (entry_object_id e).

Definition is_purge (s : Statement) : Prop :=
  match s with SeedPurge _ => True | _ => False end.

(** One layer of the loop: the DELETE, then the INSERT. *)
Definition layer (ids : list Z) (d : Database) : Database * Z * Z :=
  let '(d1, delete_ct) := cursor_execute (LayerDelete ids) d in
  let '(d2, insert_ct) := cursor_execute (LayerInsert ids) d1 in
  (d2, delete_ct, insert_ct).

(** [n] consecutive layers, each of which changed some row and was
    followed by the selection of the children. *)
Inductive working_layers : nat -> Database -> list Z -> Database -> list Z -> Prop :=
| wl_zero : forall d ids, working_layers 0 d ids d ids
| wl_more : forall n d ids d1 delete_ct insert_ct d2 ids2 d3 ids3,
    ids <> [] ->
    layer ids d = (d1, delete_ct, insert_ct) ->
    (insert_ct =? 0) && (delete_ct =? 0) = false ->
    select_children ids d1 = (d2, ids2) ->
    working_layers n d2 ids2 d3 ids3 ->
    working_layers (S n) d ids d3 ids3.

(** The role ids that the commands of a body hand to the rebuild entry
    point, nested blocks included. *)
Fixpoint mutated (c : Command) : list Z :=
  match c with
  | Save r => [id r]
  | AddParent child _ => [child]
  | RemoveParent child _ => [child]
  | Fail => []
  | WithBatch _ body => flat_map mutated body
  end.

(** Schema constraints: primary keys and foreign keys. *)
Definition roles_pk (d : Database) : Prop := NoDup (map id (roles d)).

Definition is_role (d : Database) (x : Z) : Prop := In x (map id (roles d)).

Definition parents_fk (d : Database) : Prop :=
  forall p, In p (parents d) ->
    is_role d (from_role_id p) /\ is_role d (to_role_id p).

Definition ancestors_pk (d : Database) : Prop :=
  NoDup (map entry_id (ancestors d)) /\
  forall e, In e (ancestors d) -> entry_id e < next_id d.

(** The roles an accessor holds, in the words of the specification:
    a user holds the roles it is a member of, a role holds itself, any
    other object holds the roles bound to it by content type and
    object id. *)
Definition holds_role (d : Database) (accessor : Accessor) (x : Z) : Prop :=
  match accessor with
  | AUser u =>
      exists r, In r (roles d) /\ id r = x /\ In (mkMember x u) (members d)
  | ARole r => x = id r
  | AObject accessor_type_id pk =>
      exists r, In r (roles d) /\ id r = x /\
                content_type r = Some accessor_type_id /\ object_id r = Some pk
  end.

(** What the inner query of a layer asks for: [a] should be an
    ancestor of [x] when [x] is a role and [a] is [x], or when a parent
    of [x] has a stored row for [a]. *)
Definition want (d : Database) (x a : Z) : Prop :=
  (x = a /\ is_role d x) \/
  exists p, In p (parents d) /\ from_role_id p = x /\
            stored (ancestors d) (to_role_id p) a = true.

(** The row that the INSERT builds for descendent [r] and ancestor [a]. *)
Definition canonical (r : Role) (a : Z) : NewAncestry :=
  mkNew (id r) a (role_field r)
        (coalesce (content_type r) 0) (coalesce (object_id r) 0).

Definition after_delete (ids : list Z) (d : Database) : Database :=
  fst (cursor_execute (LayerDelete ids) d).

Definition after_layer (ids : list Z) (d : Database) : Database :=
  fst (fst (layer ids d)).

(** The JOIN condition on a pair. *)
Definition on_pair (x a : Z) (e : RoleAncestorEntry) : bool :=
  (x =? descendent e) && (a =? ancestor e).

(** Nothing reached the closure between [w] and [w']. *)
Definition same_closure (w w' : World) : Prop :=
  ancestors (db w') = ancestors (db w) /\
  next_id (db w') = next_id (db w) /\
  statements (db w') = statements (db w) /\
  members (db w') = members (db w).

(** Every role has exactly one self row. *)
Definition self_invariant (d : Database) : Prop :=
  forall x, is_role d x -> row_count (ancestors d) x x = 1%nat.

(** A step taken while the flag is set: the closure and the statement
    log stay as they are, the flag stays, the set only grows, by ids
    among [ids], and every role that the step creates is in the set. *)
Definition batch_step (w w' : World) (ids : list Z) (r : Result) : Prop :=
  same_closure w w' /\ batch_role_rebuilding (tls w') = Some true /\
  forall s, roles_needing_rebuilding (tls w) = Some s ->
    exists s', roles_needing_rebuilding (tls w') = Some s' /\
               incl s s' /\
               (forall x, In x s' -> In x s \/ In x ids) /\
               (r = Done \/ r = Failed BodyError) /\
               (roles_pk (db w) -> roles_pk (db w')) /\
               (forall x, is_role (db w') x -> is_role (db w) x \/ In x s').

Definition deferred (c : Command) : Prop :=
  forall w, batch_role_rebuilding (tls w) = Some true ->
    let '(w', r) := run_command c w in batch_step w w' (mutated c) r.

Definition well_formed (d : Database) : Prop :=
  roles_pk d /\ parents_fk d /\ ancestors_pk d.

(** In the columns selected by [C], the rows of descendent [x] are
    exactly those the inner query asks for. *)
Definition settled (C : Z -> bool) (d : Database) (x : Z) : Prop :=
  forall a, C a = true -> (stored (ancestors d) x a = true <-> want d x a).

Definition quiet (C : Z -> bool) (d : Database) (ids : list Z) : Prop :=
  forall x, id_in x ids = true -> settled C d x.

(** No parent of [x] is rebuilt by the layer [ids]. *)
Definition calm (d : Database) (ids : list Z) (x : Z) : Prop :=
  forall p, In p (parents d) -> from_role_id p = x -> id_in (to_role_id p) ids = false.

(** The rows of the columns selected by [C]. *)
Definition columns (C : Z -> bool) (rows : list RoleAncestorEntry)
  : list RoleAncestorEntry :=
  filter (fun e => C (ancestor e)) rows.

(** In the columns selected by [C] a pair is stored at most once, with
    the fields of its descendent. *)
Definition tidy (C : Z -> bool) (d : Database) : Prop :=
  (forall x a, C a = true -> (row_count (ancestors d) x a <= 1)%nat) /\
  (forall e, In e (ancestors d) -> C (ancestor e) = true ->
             exists r, In r (roles d) /\ row_of e = canonical r (ancestor e)).

(** The test of line 338 on the counts of a layer. *)
Definition idle (ids : list Z) (d : Database) : bool :=
  (Z.of_nat (List.length (insert_missing (after_delete ids d) ids)) =? 0)
  && (rowcount (ancestors d) (delete_kept d ids) =? 0).

(** ** Further vocabulary *)

(** Every closure row relates a role to one of its ancestors in the
    parents graph. *)
Definition sound (d : Database) : Prop :=
  forall e, In e (ancestors d) ->
    reachable (parents d) (descendent e) (ancestor e).

(** Foreign keys of the closure rows. *)
Definition ancestors_fk (d : Database) : Prop :=
  forall e, In e (ancestors d) ->
    is_role d (descendent e) /\ is_role d (ancestor e).

(** The roles that a sweep from the seed can visit: the seed and the
    children, grandchildren, ... of its members. *)
Inductive below (d : Database) (seed : list Z) : Z -> Prop :=
| below_seed : forall x, In x seed -> below d seed x
| below_child : forall x p,
    below d seed p -> In (mkEdge x p) (parents d) -> below d seed x.

(** Statements issued by a rebuild that ends with completion [c]. *)
Definition statements_issued (c : Completion) : nat :=
  match c with
  | Returned EmptySeed _ => 0
  | Returned WhileFalse n => 1 + 3 * n
  | Returned Break n => 3 * n
  | Raised _ n => 1 + 3 * n
  end.

(** Two databases with the same tables (the statement logs may
    differ). *)
Definition same_tables (d d' : Database) : Prop :=
  roles d' = roles d /\ parents d' = parents d /\ members d' = members d /\
  ancestors d' = ancestors d /\ next_id d' = next_id d.

(** While the flag is set, a command that completes leaves every role
    it mutates in the set, and the set stays free of duplicates. *)
Definition collects (c : Command) : Prop :=
  forall w s,
    batch_role_rebuilding (tls w) = Some true ->
    roles_needing_rebuilding (tls w) = Some s ->
    let '(w', r) := run_command c w in
    forall s', roles_needing_rebuilding (tls w') = Some s' ->
      (NoDup s -> NoDup s') /\
      (r = Done -> forall x, In x (mutated c) -> In x s').

(** The roles that count for [__contains__]: the member role of a
    team, or the roles held by the accessor. *)
Definition contains_holds (d : Database) (accessor : ContainsAccessor) (x : Z)
  : Prop :=
  match accessor with
  | CTeam member_role => x = member_role
  | COther a => holds_role d a x
  end.

(** The closure rows of descendent [r] carry the fields of [r]. *)
Definition denormalized (d : Database) (r : Role) : Prop :=
  forall e, In e (ancestors d) -> descendent e = id r ->
    row_of e = canonical r (ancestor e).

(** [chain d k x]: some sequence of [k] parent edges leads down from
    [x], through roles, to a child, a child of that child, ... *)
Inductive chain (d : Database) : nat -> Z -> Prop :=
| chain_end : forall x, chain d 0 x
| chain_step : forall k x c,
    In (mkEdge c x) (parents d) -> is_role d x -> chain d k c ->
    chain d (S k) x.

(** * Properties *)

(** ** Frame properties of the statements *)

Lemma id_in_true x ids : id_in x ids = true <-> In x ids.
Proof.
  unfold id_in. rewrite existsb_exists. split.
  - intros [y [Hy E]]. apply Z.eqb_eq in E. now subst.
  - intros H. exists x. split; [assumption | apply Z.eqb_refl].
Qed.

Lemma id_in_false x ids : id_in x ids = false <-> ~ In x ids.
Proof.
  rewrite <- id_in_true. destruct (id_in x ids); split; congruence.
Qed.

Lemma cursor_execute_frame s d :
  roles (fst (cursor_execute s d)) = roles d /\
  parents (fst (cursor_execute s d)) = parents d /\
  members (fst (cursor_execute s d)) = members d /\
  statements (fst (cursor_execute s d)) = statements d ++ [s].
Proof. destruct s; repeat split. Qed.

Lemma layer_eq ids d :
  layer ids d =
  (fst (cursor_execute (LayerInsert ids) (fst (cursor_execute (LayerDelete ids) d))),
   snd (cursor_execute (LayerDelete ids) d),
   snd (cursor_execute (LayerInsert ids) (fst (cursor_execute (LayerDelete ids) d)))).
Proof. reflexivity. Qed.

Lemma layer_frame ids d :
  let d' := fst (fst (layer ids d)) in
  roles d' = roles d /\ parents d' = parents d /\ members d' = members d /\
  statements d' = statements d ++ [LayerDelete ids; LayerInsert ids].
Proof.
  rewrite layer_eq. cbn [fst snd]. repeat split.
  cbn. now rewrite <- app_assoc.
Qed.

(** The loop, one iteration at a time. *)
Lemma rebuild_loop_nil fuel loop_ct d :
  rebuild_loop fuel loop_ct d [] = (d, Returned WhileFalse loop_ct).
Proof. destruct fuel; reflexivity. Qed.

Lemma rebuild_loop_step fuel loop_ct d x ids :
  (loop_ct <= 1000)%nat ->
  rebuild_loop (S fuel) loop_ct d (x :: ids) =
  let '(d1, delete_ct, insert_ct) := layer (x :: ids) d in
  if (insert_ct =? 0) && (delete_ct =? 0) then (d1, Returned Break (S loop_ct))
  else rebuild_loop fuel (S loop_ct)
                    (fst (select_children (x :: ids) d1))
                    (snd (select_children (x :: ids) d1)).
Proof.
  intros H. cbn [rebuild_loop].
  replace (1000 <? loop_ct)%nat with false
    by (symmetry; apply Nat.ltb_ge; exact H).
  reflexivity.
Qed.

Lemma rebuild_loop_raise fuel loop_ct d x ids :
  (1000 < loop_ct)%nat ->
  rebuild_loop fuel loop_ct d (x :: ids) = (d, Raised InfiniteLoopDetected loop_ct).
Proof.
  intros H. destruct fuel; cbn [rebuild_loop];
    replace (1000 <? loop_ct)%nat with true
      by (symmetry; apply Nat.ltb_lt; exact H); reflexivity.
Qed.

(** The fuel of the recursion is never what stops the loop. *)
Lemma rebuild_loop_fuel fuel1 : forall fuel2 loop_ct d ids,
  (1001 <= fuel1 + loop_ct)%nat -> (1001 <= fuel2 + loop_ct)%nat ->
  rebuild_loop fuel1 loop_ct d ids = rebuild_loop fuel2 loop_ct d ids.
Proof.
  induction fuel1 as [|f1 IH]; intros fuel2 loop_ct d ids H1 H2.
  - destruct ids as [|x ids]; [now rewrite !rebuild_loop_nil|].
    rewrite !rebuild_loop_raise by lia. reflexivity.
  - destruct ids as [|x ids]; [now rewrite !rebuild_loop_nil|].
    destruct (Nat.le_gt_cases loop_ct 1000) as [Hle|Hgt].
    + destruct fuel2 as [|f2]; [lia|].
      rewrite !rebuild_loop_step by assumption.
      destruct (layer (x :: ids) d) as [[d1 dct] ict].
      destruct ((ict =? 0) && (dct =? 0)); [reflexivity|].
      apply IH; lia.
    + rewrite !rebuild_loop_raise by lia. reflexivity.
Qed.

Lemma rebuild_loop_frame fuel : forall loop_ct d ids,
  let d' := fst (rebuild_loop fuel loop_ct d ids) in
  roles d' = roles d /\ parents d' = parents d /\ members d' = members d /\
  exists rest, statements d' = statements d ++ rest /\
               Forall (fun s => ~ is_purge s) rest.
Proof.
  induction fuel as [|f IH]; intros loop_ct d ids; cbv zeta.
  - destruct ids as [|x ids]; cbn [rebuild_loop fst].
    + repeat split. exists []. now rewrite app_nil_r.
    + destruct (1000 <? loop_ct)%nat; cbn [fst]; repeat split;
        exists []; now rewrite app_nil_r.
  - destruct ids as [|x ids].
    { rewrite rebuild_loop_nil. repeat split. exists []. now rewrite app_nil_r. }
    destruct (Nat.le_gt_cases loop_ct 1000) as [Hle|Hgt].
    2:{ rewrite rebuild_loop_raise by assumption. repeat split.
        exists []. now rewrite app_nil_r. }
    rewrite rebuild_loop_step by assumption.
    pose proof (layer_frame (x :: ids) d) as Hl. cbv zeta in Hl.
    destruct (layer (x :: ids) d) as [[d1 dct] ict]. cbn [fst] in Hl.
    destruct Hl as (Hr & Hp & Hm & Hs).
    destruct ((ict =? 0) && (dct =? 0)).
    + cbn [fst]. repeat split; try assumption.
      exists [LayerDelete (x :: ids); LayerInsert (x :: ids)]. split; [assumption|].
      repeat constructor; intros [].
    + specialize (IH (S loop_ct) (fst (select_children (x :: ids) d1))
                     (snd (select_children (x :: ids) d1))).
      cbv zeta in IH. destruct IH as (Hr' & Hp' & Hm' & rest & Hs' & Hf).
      cbn [select_children fst log_statement roles parents members statements] in *.
      repeat split; try congruence.
      exists ([LayerDelete (x :: ids); LayerInsert (x :: ids);
               SelectChildren (x :: ids)] ++ rest).
      split.
      * rewrite Hs', Hs. now rewrite <- !app_assoc.
      * apply Forall_app. split; [|assumption].
        repeat constructor; intros [].
Qed.

(** ** The seed purge *)

Lemma purge_kept_spec d ids e :
  In e (purge_kept d ids) <-> In e (ancestors d) /\ ~ In (ancestor e) ids.
Proof.
  unfold purge_kept. rewrite filter_In, negb_true_iff, id_in_false. reflexivity.
Qed.

(** C8. With a non-empty seed the first statement of the rebuild is the
    purge [DELETE ... WHERE ancestor_id IN (seed)]: it removes exactly
    the rows whose ancestor lies in the seed, whatever their descendent
    (self rows and rows of descendents outside the seed included); the
    loop then runs on the purged table, and no later statement of the
    rebuild is a purge. *)
Theorem seed_purge_once_before_loop : forall ids d,
  ids <> [] ->
  let purged := fst (cursor_execute (SeedPurge ids) d) in
  (forall e, In e (ancestors purged) <->
             In e (ancestors d) /\ ~ In (ancestor e) ids) /\
  _simultaneous_ancestry_rebuild ids d = rebuild_loop 1001 0 purged ids /\
  exists rest,
    statements (fst (_simultaneous_ancestry_rebuild ids d))
    = statements d ++ SeedPurge ids :: rest /\
    Forall (fun s => ~ is_purge s) rest.
Proof.
  intros ids d Hne purged.
  assert (Heq : _simultaneous_ancestry_rebuild ids d = rebuild_loop 1001 0 purged ids).
  { destruct ids as [|x ids]; [congruence | reflexivity]. }
  split; [|split].
  - intros e. subst purged. cbn [cursor_execute fst log_statement set_ancestors ancestors].
    apply purge_kept_spec.
  - exact Heq.
  - rewrite Heq.
    destruct (rebuild_loop_frame 1001 0 purged ids) as (_ & _ & _ & rest & Hs & Hf).
    exists rest. split; [|assumption].
    rewrite Hs. subst purged. cbn. now rewrite <- app_assoc.
Qed.

Lemma seed_purge_once_before_loop_witness :
  let d := mkDb [mkRole 1 "admin" None None; mkRole 2 "read" None None]
                [mkEdge 2 1] []
                [mkEntry 1 1 1 "admin" 0 0; mkEntry 2 2 2 "read" 0 0;
                 mkEntry 3 2 1 "read" 0 0] 4 [] in
  map entry_id (ancestors (fst (cursor_execute (SeedPurge [1]) d))) = [2] /\
  exists rest,
    statements (fst (_simultaneous_ancestry_rebuild [1] d))
    = statements d ++ SeedPurge [1] :: rest /\
    Forall (fun s => ~ is_purge s) rest.
Proof.
  split; [reflexivity|].
  apply (seed_purge_once_before_loop [1]). discriminate.
Defined.

(** ** Termination of the loop *)

Lemma rebuild_loop_outcome fuel : forall loop_ct d ids,
  (1001 <= fuel + loop_ct)%nat -> (loop_ct <= 1001)%nat ->
  let '(d', c) := rebuild_loop fuel loop_ct d ids in
  match c with
  | Returned WhileFalse n =>
      exists k, n = (loop_ct + k)%nat /\ (n <= 1001)%nat /\
                working_layers k d ids d' []
  | Returned Break n =>
      exists k dm idsm, n = (loop_ct + S k)%nat /\ (n <= 1001)%nat /\
                        working_layers k d ids dm idsm /\ idsm <> [] /\
                        layer idsm dm = (d', 0, 0)
  | Raised e n =>
      e = InfiniteLoopDetected /\ n = 1001%nat /\
      exists k idsm, (loop_ct + k)%nat = 1001%nat /\
                     working_layers k d ids d' idsm /\ idsm <> []
  | Returned EmptySeed _ => False
  end.
Proof.
  induction fuel as [|f IH]; intros loop_ct d ids Hf Hc.
  - destruct ids as [|x ids].
    + rewrite rebuild_loop_nil. exists 0%nat. repeat split; try lia. constructor.
    + rewrite rebuild_loop_raise by lia. repeat split; try lia.
      exists 0%nat, (x :: ids). repeat split; try lia; [constructor | discriminate].
  - destruct ids as [|x ids].
    { rewrite rebuild_loop_nil. exists 0%nat. repeat split; try lia. constructor. }
    destruct (Nat.le_gt_cases loop_ct 1000) as [Hle|Hgt].
    2:{ rewrite rebuild_loop_raise by lia. repeat split; try lia.
        exists 0%nat, (x :: ids). repeat split; try lia; [constructor | discriminate]. }
    rewrite rebuild_loop_step by assumption.
    destruct (layer (x :: ids) d) as [[d1 dct] ict] eqn:Hl.
    destruct ((ict =? 0) && (dct =? 0)) eqn:Hw.
    + apply andb_true_iff in Hw. destruct Hw as [Hi Hd].
      apply Z.eqb_eq in Hi, Hd. subst.
      exists 0%nat, d, (x :: ids). repeat split; try lia;
        [constructor | discriminate | assumption].
    + specialize (IH (S loop_ct) (fst (select_children (x :: ids) d1))
                     (snd (select_children (x :: ids) d1))).
      destruct (rebuild_loop f (S loop_ct) _ _) as [d' c].
      assert (Hstep : forall k d3 ids3,
                 working_layers k (fst (select_children (x :: ids) d1))
                                (snd (select_children (x :: ids) d1)) d3 ids3 ->
                 working_layers (S k) d (x :: ids) d3 ids3).
      { intros k d3 ids3 Hk.
        eapply wl_more; try eassumption; [discriminate | reflexivity]. }
      specialize (IH ltac:(lia) ltac:(lia)).
      destruct c as [[| |] n | e n].
      * exact IH.
      * destruct IH as (k & Hn & Hb & Hk). exists (S k). repeat split; try lia.
        now apply Hstep.
      * destruct IH as (k & dm & idsm & Hn & Hb & Hk & Hne & Hlast).
        exists (S k), dm, idsm. repeat split; try lia; try assumption.
        now apply Hstep.
      * destruct IH as (He & Hn & k & idsm & Hk & Hwl & Hne).
        repeat split; try assumption.
        exists (S k), idsm. repeat split; try lia; try assumption.
        now apply Hstep.
Qed.

(** ** The loop on a store that may refuse the children query *)

Lemma query_rows_ext d u q :
  roles u = roles d -> parents u = parents d ->
  query_rows u q = query_rows d q.
Proof.
  intros Hr Hp. induction q as [ids|q IH]; cbn [query_rows]; [reflexivity|].
  rewrite IH. unfold children_ids. now rewrite Hr, Hp.
Qed.

Lemma fetch_children accepts q d :
  fetch accepts (ChildrenOf q) d =
  (fst (select_children (query_rows d q) d),
   if accepts (S (query_depth q))
   then Some (snd (select_children (query_rows d q) d)) else None).
Proof. reflexivity. Qed.

Lemma fetch_rows accepts q d d1 ids :
  fetch accepts q d = (d1, Some ids) ->
  ids = query_rows d q /\ roles d1 = roles d /\ parents d1 = parents d.
Proof.
  destruct q as [l|q].
  - cbn. intros [= <- <-]. auto.
  - rewrite fetch_children. destruct (accepts _); [|discriminate].
    intros [= <- <-]. auto.
Qed.

(** The loop, one iteration at a time. *)
Lemma rebuild_loop_on_step accepts fuel loop_ct d q :
  rebuild_loop_on accepts fuel loop_ct d q =
  let '(d1, fetched) := fetch accepts q d in
  match fetched with
  | None => (d1, OperationalError loop_ct)
  | Some [] => (d1, Completed (Returned WhileFalse loop_ct))
  | Some (x :: ids) =>
      if (1000 <? loop_ct)%nat
      then (d1, Completed (Raised InfiniteLoopDetected loop_ct))
      else
        match fuel with
        | O => (d1, Completed (Raised InfiniteLoopDetected loop_ct))
        | S f =>
            let '(d2, delete_ct, insert_ct) := layer (x :: ids) d1 in
            if (insert_ct =? 0) && (delete_ct =? 0)
            then (d2, Completed (Returned Break (S loop_ct)))
            else rebuild_loop_on accepts f (S loop_ct) d2 (ChildrenOf q)
        end
  end.
Proof.
  destruct fuel; cbn [rebuild_loop_on];
    destruct (fetch accepts q d) as [d1 [[|x ids]|]]; try reflexivity;
    destruct (1000 <? loop_ct)%nat; reflexivity.
Qed.

(** The query built after a layer, sent from [d2], asks for the children
    of the rows fetched before the layer. *)
Lemma fetch_next accepts q d d1 ids d2 :
  fetch accepts q d = (d1, Some ids) ->
  roles d2 = roles d1 -> parents d2 = parents d1 ->
  fetch accepts (ChildrenOf q) d2 =
  (fst (select_children ids d2),
   if accepts (S (query_depth q)) then Some (snd (select_children ids d2))
   else None).
Proof.
  intros Hf Hr Hp. apply fetch_rows in Hf. destruct Hf as (-> & Hr1 & Hp1).
  rewrite fetch_children.
  now rewrite (query_rows_ext d d2 q) by congruence.
Qed.

Lemma rebuild_loop_on_outcome accepts fuel : forall loop_ct d q d1 ids,
  (1001 <= fuel + loop_ct)%nat -> (loop_ct <= 1001)%nat ->
  fetch accepts q d = (d1, Some ids) ->
  let '(d', c) := rebuild_loop_on accepts fuel loop_ct d q in
  match c with
  | Completed (Returned WhileFalse n) =>
      exists k, n = (loop_ct + k)%nat /\ (n <= 1001)%nat /\
                working_layers k d1 ids d' [] /\
                (forall j, (1 <= j <= k)%nat ->
                           accepts (query_depth q + j)%nat = true)
  | Completed (Returned Break n) =>
      exists k dm idsm, n = (loop_ct + S k)%nat /\ (n <= 1001)%nat /\
                        working_layers k d1 ids dm idsm /\ idsm <> [] /\
                        layer idsm dm = (d', 0, 0) /\
                        (forall j, (1 <= j <= k)%nat ->
                                   accepts (query_depth q + j)%nat = true)
  | Completed (Raised e n) =>
      e = InfiniteLoopDetected /\ n = 1001%nat /\
      exists k idsm, (loop_ct + k)%nat = 1001%nat /\
                     working_layers k d1 ids d' idsm /\ idsm <> [] /\
                     (forall j, (1 <= j <= k)%nat ->
                                accepts (query_depth q + j)%nat = true)
  | Completed (Returned EmptySeed _) => False
  | OperationalError n =>
      exists k dm idsm dl delete_ct insert_ct,
        n = (loop_ct + S k)%nat /\ (n <= 1001)%nat /\
        working_layers k d1 ids dm idsm /\ idsm <> [] /\
        layer idsm dm = (dl, delete_ct, insert_ct) /\
        (insert_ct =? 0) && (delete_ct =? 0) = false /\
        d' = fst (select_children idsm dl) /\
        accepts (query_depth q + S k)%nat = false /\
        (forall j, (1 <= j <= k)%nat ->
                   accepts (query_depth q + j)%nat = true)
  end.
Proof.
  induction fuel as [|f IH]; intros loop_ct d q d1 ids Hf Hc Hfetch;
    rewrite rebuild_loop_on_step, Hfetch.
  - destruct ids as [|x ids].
    + exists 0%nat. repeat split; try lia. constructor.
    + assert (E : loop_ct = 1001%nat) by lia. subst loop_ct. cbn [Nat.ltb Nat.leb].
      replace (1000 <? 1001)%nat with true by reflexivity.
      repeat split.
      exists 0%nat, (x :: ids). repeat split; try lia; [constructor | discriminate].
  - destruct ids as [|x ids].
    { exists 0%nat. repeat split; try lia. constructor. }
    destruct (1000 <? loop_ct)%nat eqn:Hlt.
    { apply Nat.ltb_lt in Hlt. assert (E : loop_ct = 1001%nat) by lia.
      repeat split; try assumption.
      exists 0%nat, (x :: ids). repeat split; try lia; [constructor | discriminate]. }
    apply Nat.ltb_ge in Hlt.
    destruct (layer (x :: ids) d1) as [[d2 dct] ict] eqn:Hl.
    destruct ((ict =? 0) && (dct =? 0)) eqn:Hw.
    + apply andb_true_iff in Hw. destruct Hw as [Hi Hd].
      apply Z.eqb_eq in Hi, Hd. subst.
      exists 0%nat, d1, (x :: ids). repeat split; try lia;
        [constructor | discriminate | assumption].
    + assert (Hfr : roles d2 = roles d1 /\ parents d2 = parents d1).
      { pose proof (layer_frame (x :: ids) d1) as H. cbv zeta in H.
        rewrite Hl in H. cbn [fst] in H. tauto. }
      destruct Hfr as [Hr2 Hp2].
      pose proof (fetch_next accepts q d d1 (x :: ids) d2 Hfetch Hr2 Hp2) as Hnext.
      assert (Hstep : forall k d3 ids3,
                 working_layers k (fst (select_children (x :: ids) d2))
                                (snd (select_children (x :: ids) d2)) d3 ids3 ->
                 working_layers (S k) d1 (x :: ids) d3 ids3).
      { intros k d3 ids3 Hk.
        eapply wl_more; try eassumption; [discriminate | reflexivity]. }
      destruct (accepts (S (query_depth q))) eqn:Hacc.
      * assert (Hall : forall k,
                   (forall j, (1 <= j <= k)%nat ->
                              accepts (query_depth (ChildrenOf q) + j)%nat = true) ->
                   forall j, (1 <= j <= S k)%nat ->
                             accepts (query_depth q + j)%nat = true).
        { intros k Hk j Hj. destruct (Nat.eq_dec j 1) as [->|Hne].
          - now rewrite Nat.add_1_r.
          - replace (query_depth q + j)%nat
              with (query_depth (ChildrenOf q) + (j - 1))%nat
              by (cbn [query_depth]; lia).
            apply Hk. lia. }
        specialize (IH (S loop_ct) d2 (ChildrenOf q) _ _
                       ltac:(lia) ltac:(lia) Hnext).
        destruct (rebuild_loop_on accepts f (S loop_ct) d2 (ChildrenOf q))
          as [d' c].
        destruct c as [[[| |] n | e n] | n].
        -- exact IH.
        -- destruct IH as (k & Hn & Hb & Hk & Ha). exists (S k).
           split; [lia|]. split; [lia|]. split; [now apply Hstep | now apply Hall].
        -- destruct IH as (k & dm & idsm & Hn & Hb & Hk & Hne & Hlast & Ha).
           exists (S k), dm, idsm.
           split; [lia|]. split; [lia|]. split; [now apply Hstep|].
           split; [assumption|]. split; [assumption | now apply Hall].
        -- destruct IH as (He & Hn & k & idsm & Hk & Hwl & Hne & Ha).
           split; [assumption|]. split; [assumption|].
           exists (S k), idsm.
           split; [lia|]. split; [now apply Hstep|].
           split; [assumption | now apply Hall].
        -- destruct IH as (k & dm & idsm & dl & dc & ic & Hn & Hb & Hk & Hne
                           & Hlast & Hwork & Hd' & Hno & Ha).
           exists (S k), dm, idsm, dl, dc, ic.
           split; [lia|]. split; [lia|]. split; [now apply Hstep|].
           split; [assumption|]. split; [assumption|]. split; [assumption|].
           split; [assumption|]. split; [|now apply Hall].
           replace (query_depth q + S (S k))%nat
             with (query_depth (ChildrenOf q) + S k)%nat
             by (cbn [query_depth]; lia).
           exact Hno.
      * rewrite rebuild_loop_on_step, Hnext.
        exists 0%nat, d1, (x :: ids), d2, dct, ict.
        split; [lia|]. split; [lia|]. split; [constructor|].
        split; [discriminate|]. split; [assumption|]. split; [assumption|].
        split; [reflexivity|]. split; [now rewrite Nat.add_1_r|].
        intros j Hj. lia.
Qed.

(** C4, as the code has it.  The loop always terminates, in one of four
    ways: a layer deleted and inserted nothing ([Break]); the children
    selected for the next layer are none ([WhileFalse]); the store
    refuses the children query, which nests one SELECT more with every
    layer, and the refusal reaches the caller ([OperationalError]); or
    the exception 'infinite loop detected' is raised.  Every layer
    before the last changed some row and every query before the last was
    run by the store.  A normal return has run at most 1001 layers; the
    exception is raised only when 1001 layers have all changed some row
    and a further layer is due. *)
Theorem rebuild_loop_terminates : forall accepts d ids,
  let '(d', c) := rebuild_loop_on accepts 1001 0 d (Listed ids) in
  match c with
  | Completed (Returned WhileFalse n) =>
      (n <= 1001)%nat /\ working_layers n d ids d' [] /\
      (forall j, (1 <= j <= n)%nat -> accepts j = true)
  | Completed (Returned Break n) =>
      exists k dm idsm, n = S k /\ (n <= 1001)%nat /\
                        working_layers k d ids dm idsm /\ idsm <> [] /\
                        layer idsm dm = (d', 0, 0) /\
                        (forall j, (1 <= j <= k)%nat -> accepts j = true)
  | Completed (Raised e n) =>
      e = InfiniteLoopDetected /\ n = 1001%nat /\
      exists idsm, working_layers 1001 d ids d' idsm /\ idsm <> [] /\
                   (forall j, (1 <= j <= 1001)%nat -> accepts j = true)
  | Completed (Returned EmptySeed _) => False
  | OperationalError n =>
      exists k dm idsm dl delete_ct insert_ct,
        n = S k /\ (n <= 1001)%nat /\
        working_layers k d ids dm idsm /\ idsm <> [] /\
        layer idsm dm = (dl, delete_ct, insert_ct) /\
        (insert_ct =? 0) && (delete_ct =? 0) = false /\
        d' = fst (select_children idsm dl) /\
        accepts n = false /\
        (forall j, (1 <= j <= k)%nat -> accepts j = true)
  end.
Proof.
  intros accepts d ids.
  pose proof (rebuild_loop_on_outcome accepts 1001 0 d (Listed ids) d ids
                ltac:(lia) ltac:(lia) eq_refl) as H.
  destruct (rebuild_loop_on accepts 1001 0 d (Listed ids)) as [d' c].
  cbn [query_depth Nat.add] in H.
  destruct c as [[[| |] n | e n] | n].
  - exact H.
  - destruct H as (k & Hn & Hb & Hk & Ha). subst k. now repeat split.
  - destruct H as (k & dm & idsm & Hn & Hb & Hk & Hne & Hl & Ha).
    exists k, dm, idsm. repeat split; assumption.
  - destruct H as (He & Hn & k & idsm & Hk & Hwl & Hne & Ha).
    subst k. repeat split; try assumption. exists idsm. now repeat split.
  - destruct H as (k & dm & idsm & dl & dc & ic & Hn & Hb & Hk & Hne & Hl
                   & Hw & Hd & Hno & Ha).
    exists k, dm, idsm, dl, dc, ic. repeat split; try assumption.
    now rewrite Hn.
Qed.

(** C4 as stated fails, on a store that runs children queries of up to
    ten nested SELECTs.  Rebuilding a new role without children runs one
    layer, which inserts the self row, and then leaves the loop because
    there are no children: no layer was idle and nothing was raised.
    Rebuilding the head of a chain of twelve roles leaves the loop after
    eleven layers with the refusal of the store: no layer was idle and
    the bound was not reached. *)
Lemma loop_exit_without_idle_layer :
  let accepts := fun n => (n <=? 10)%nat in
  let d := mkDb [mkRole 1 "admin" None None] [] [] [] 1 [] in
  let chain12 :=
    mkDb (map (fun i => mkRole (Z.of_nat i) "member" None None) (seq 1 12))
         (map (fun i => mkEdge (Z.of_nat (S i)) (Z.of_nat i)) (seq 1 11))
         [] [] 1 [] in
  snd (_simultaneous_ancestry_rebuild_on accepts [1] d)
  = Completed (Returned WhileFalse 1) /\
  snd (layer [1] (fst (cursor_execute (SeedPurge [1]) d))) = 1 /\
  snd (_simultaneous_ancestry_rebuild_on accepts [1] chain12)
  = OperationalError 11 /\
  List.length (statements (fst (_simultaneous_ancestry_rebuild_on accepts [1] chain12)))
  = 34%nat.
Proof.
  cbv zeta. split; [reflexivity|]. split; [reflexivity|].
  split; vm_compute; reflexivity.
Qed.

(** ** The two loops *)

(** A rebuild that completes on a store, by a return or by the exception
    of the bound, has run as [rebuild_loop] does: same tables, same
    statements, same exit. *)
Lemma rebuild_loop_on_completed accepts fuel : forall loop_ct d q d1 ids d' c,
  fetch accepts q d = (d1, Some ids) ->
  rebuild_loop_on accepts fuel loop_ct d q = (d', Completed c) ->
  rebuild_loop fuel loop_ct d1 ids = (d', c).
Proof.
  induction fuel as [|f IH]; intros loop_ct d q d1 ids d' c Hfetch;
    rewrite rebuild_loop_on_step, Hfetch.
  - destruct ids as [|x ids]; cbn [rebuild_loop].
    + now intros [= <- <-].
    + destruct (1000 <? loop_ct)%nat; now intros [= <- <-].
  - destruct ids as [|x ids]; [rewrite rebuild_loop_nil; now intros [= <- <-]|].
    destruct (1000 <? loop_ct)%nat eqn:Hlt.
    { apply Nat.ltb_lt in Hlt. rewrite rebuild_loop_raise by lia.
      now intros [= <- <-]. }
    apply Nat.ltb_ge in Hlt. rewrite rebuild_loop_step by assumption.
    destruct (layer (x :: ids) d1) as [[d2 dct] ict] eqn:Hl.
    destruct ((ict =? 0) && (dct =? 0)); [now intros [= <- <-]|].
    assert (Hfr : roles d2 = roles d1 /\ parents d2 = parents d1).
    { pose proof (layer_frame (x :: ids) d1) as H. cbv zeta in H.
      rewrite Hl in H. cbn [fst] in H. tauto. }
    destruct Hfr as [Hr2 Hp2].
    pose proof (fetch_next accepts q d d1 (x :: ids) d2 Hfetch Hr2 Hp2) as Hnext.
    destruct (accepts (S (query_depth q))).
    + intros Hrun. exact (IH _ _ _ _ _ _ _ Hnext Hrun).
    + rewrite rebuild_loop_on_step, Hnext. discriminate.
Qed.

Lemma rebuild_on_completed accepts ids d d' c :
  _simultaneous_ancestry_rebuild_on accepts ids d = (d', Completed c) ->
  _simultaneous_ancestry_rebuild ids d = (d', c).
Proof.
  destruct ids as [|i ids]; [now intros [= <- <-]|].
  cbn [_simultaneous_ancestry_rebuild_on _simultaneous_ancestry_rebuild
       cursor_execute].
  apply rebuild_loop_on_completed. reflexivity.
Qed.

(** On a store that runs every query the two loops are one. *)
Lemma rebuild_loop_on_accepting accepts fuel : forall loop_ct d q d1 ids,
  (forall n, accepts n = true) ->
  fetch accepts q d = (d1, Some ids) ->
  rebuild_loop_on accepts fuel loop_ct d q =
  (fst (rebuild_loop fuel loop_ct d1 ids),
   Completed (snd (rebuild_loop fuel loop_ct d1 ids))).
Proof.
  induction fuel as [|f IH]; intros loop_ct d q d1 ids Hall Hfetch;
    rewrite rebuild_loop_on_step, Hfetch.
  - destruct ids as [|x ids]; cbn [rebuild_loop]; [reflexivity|].
    destruct (1000 <? loop_ct)%nat; reflexivity.
  - destruct ids as [|x ids]; [now rewrite rebuild_loop_nil|].
    destruct (1000 <? loop_ct)%nat eqn:Hlt.
    { apply Nat.ltb_lt in Hlt. now rewrite rebuild_loop_raise by lia. }
    apply Nat.ltb_ge in Hlt. rewrite rebuild_loop_step by assumption.
    destruct (layer (x :: ids) d1) as [[d2 dct] ict] eqn:Hl.
    destruct ((ict =? 0) && (dct =? 0)); [reflexivity|].
    assert (Hfr : roles d2 = roles d1 /\ parents d2 = parents d1).
    { pose proof (layer_frame (x :: ids) d1) as H. cbv zeta in H.
      rewrite Hl in H. cbn [fst] in H. tauto. }
    destruct Hfr as [Hr2 Hp2].
    pose proof (fetch_next accepts q d d1 (x :: ids) d2 Hfetch Hr2 Hp2) as Hnext.
    rewrite Hall in Hnext. exact (IH _ _ _ _ _ Hall Hnext).
Qed.

Lemma rebuild_on_accepting accepts ids d :
  (forall n, accepts n = true) ->
  _simultaneous_ancestry_rebuild_on accepts ids d =
  (fst (_simultaneous_ancestry_rebuild ids d),
   Completed (snd (_simultaneous_ancestry_rebuild ids d))).
Proof.
  intros Hall. destruct ids as [|i ids]; [reflexivity|].
  cbn [_simultaneous_ancestry_rebuild_on _simultaneous_ancestry_rebuild
       cursor_execute].
  now apply rebuild_loop_on_accepting.
Qed.

(** ** The empty seed *)

Lemma rebuild_empty_seed d :
  _simultaneous_ancestry_rebuild [] d = (d, Returned EmptySeed 0).
Proof. reflexivity. Qed.

(** ** The batching context *)

Lemma Command_ind' (P : Command -> Prop) :
  (forall r, P (Save r)) ->
  (forall child parent, P (AddParent child parent)) ->
  (forall child parent, P (RemoveParent child parent)) ->
  P Fail ->
  (forall allow_nesting body, Forall P body -> P (WithBatch allow_nesting body)) ->
  forall c, P c.
Proof.
  intros HS HA HR HF HW.
  refine (fix go (c : Command) : P c :=
            match c with
            | Save r => HS r
            | AddParent x y => HA x y
            | RemoveParent x y => HR x y
            | Fail => HF
            | WithBatch a body =>
                HW a body
                   ((fix all (l : list Command) : Forall P l :=
                       match l with
                       | [] => Forall_nil P
                       | c' :: l' => Forall_cons c' (go c') (all l')
                       end) body)
            end).
Qed.

Lemma run_command_with_batch allow_nesting body w :
  run_command (WithBatch allow_nesting body) w =
  let '(w1, saved) := batch_enter allow_nesting w in
  let '(w2, body_result) := run_body body w1 in
  let '(w3, exit_result) := batch_exit saved w2 in
  (w3, finally body_result exit_result).
Proof. reflexivity. Qed.

Lemma set_add_spec x y s : In y (set_add x s) <-> y = x \/ In y s.
Proof.
  unfold set_add. destruct (id_in x s) eqn:E.
  - apply id_in_true in E. split; [now right | intros [->|H]; assumption].
  - rewrite in_app_iff. cbn. intuition.
Qed.

(** While the flag is set, the entry point only touches the set. *)
Lemma rebuild_role_ancestor_list_batching self_id w :
  batch_role_rebuilding (tls w) = Some true ->
  let '(w', r) := rebuild_role_ancestor_list self_id w in
  db w' = db w /\ batch_role_rebuilding (tls w') = Some true /\
  forall s, roles_needing_rebuilding (tls w) = Some s ->
            roles_needing_rebuilding (tls w') = Some (set_add self_id s) /\ r = Done.
Proof.
  intros Hb. unfold rebuild_role_ancestor_list, batching. rewrite Hb.
  destruct (roles_needing_rebuilding (tls w)) as [s|] eqn:Hs.
  - cbn. repeat split; try assumption; injection H as <-; reflexivity.
  - repeat split; try assumption; discriminate.
Qed.

Lemma same_closure_refl w : same_closure w w.
Proof. repeat split. Qed.

Lemma same_closure_trans w1 w2 w3 :
  same_closure w1 w2 -> same_closure w2 w3 -> same_closure w1 w3.
Proof. unfold same_closure. intuition congruence. Qed.

Lemma batch_step_refl w ids r :
  r = Done \/ r = Failed BodyError ->
  batch_role_rebuilding (tls w) = Some true -> batch_step w w ids r.
Proof.
  intros Hr Hb. split; [apply same_closure_refl | split; [assumption|]].
  intros s Hs. exists s. repeat split; auto using incl_refl.
Qed.

Lemma batch_step_failed w w' ids ids' r :
  batch_step w w' ids r -> batch_step w w' (ids ++ ids') r.
Proof.
  intros (Hc & Hb & Hset). split; [assumption | split; [assumption|]].
  intros s Hs. destruct (Hset s Hs) as (s' & Hs' & Hi & Hm & Hr & Hpk & Hnew).
  exists s'. repeat split; try assumption.
  intros x Hx. rewrite in_app_iff. destruct (Hm x Hx); auto.
Qed.

Lemma batch_step_trans w1 w2 w3 ids1 ids2 r :
  batch_step w1 w2 ids1 Done -> batch_step w2 w3 ids2 r ->
  batch_step w1 w3 (ids1 ++ ids2) r.
Proof.
  intros (Hc1 & Hb1 & Hset1) (Hc2 & Hb2 & Hset2).
  split; [eapply same_closure_trans; eassumption | split; [assumption|]].
  intros s Hs. destruct (Hset1 s Hs) as (s1 & Hs1 & Hi1 & Hm1 & _ & Hpk1 & Hnew1).
  destruct (Hset2 s1 Hs1) as (s2 & Hs2 & Hi2 & Hm2 & Hr2 & Hpk2 & Hnew2).
  exists s2. repeat split; try assumption.
  - eapply incl_tran; eassumption.
  - intros x Hx. rewrite in_app_iff.
    destruct (Hm2 x Hx) as [H|H]; [|now right; right].
    destruct (Hm1 x H); [now left | now right; left].
  - auto.
  - intros x Hx. destruct (Hnew2 x Hx) as [H|H]; [|now right].
    destruct (Hnew1 x H) as [H'|H']; [now left | right; now apply Hi2].
Qed.

(** The entry point, called after an edit of the role tables that
    creates at most the role it is called for. *)
Lemma entry_point_deferred self_id w0 w :
  batch_role_rebuilding (tls w) = Some true ->
  same_closure w0 w ->
  tls w = tls w0 ->
  (roles_pk (db w0) -> roles_pk (db w)) ->
  (forall x, is_role (db w) x -> is_role (db w0) x \/ x = self_id) ->
  let '(w', r) := rebuild_role_ancestor_list self_id w in
  batch_step w0 w' [self_id] r.
Proof.
  intros Hb Hc Ht Hpk Hnew.
  pose proof (rebuild_role_ancestor_list_batching self_id w Hb) as H.
  destruct (rebuild_role_ancestor_list self_id w) as [w' r].
  destruct H as (Hd & Hb' & Hset).
  split; [|split].
  - unfold same_closure in *. rewrite Hd. exact Hc.
  - exact Hb'.
  - intros s H0. rewrite <- Ht in H0. destruct (Hset s H0) as [Hs' ->].
    exists (set_add self_id s). repeat split; try assumption.
    + intros x Hx. apply set_add_spec. now right.
    + intros x Hx. apply set_add_spec in Hx. cbn. intuition.
    + now left.
    + rewrite Hd. exact Hpk.
    + intros x Hx. rewrite Hd in Hx. destruct (Hnew x Hx) as [H|H]; [now left|].
      right. apply set_add_spec. now left.
Qed.

Lemma save_row_ids r rows x :
  In x (map id (save_row r rows)) <-> In x (map id rows) \/ x = id r.
Proof.
  unfold save_row. destruct (existsb (fun y => id y =? id r) rows) eqn:E.
  - assert (Hmap : map id (map (fun y => if id y =? id r then r else y) rows)
                   = map id rows).
    { rewrite map_map. apply map_ext. intros y.
      destruct (id y =? id r) eqn:Ey; [|reflexivity].
      apply Z.eqb_eq in Ey. now symmetry. }
    rewrite Hmap. split; [now left|]. intros [H| ->]; [assumption|].
    apply existsb_exists in E. destruct E as [y [Hy Ey]]. apply Z.eqb_eq in Ey.
    rewrite <- Ey. now apply in_map.
  - rewrite map_app, in_app_iff. cbn. intuition.
Qed.

Lemma save_row_pk r rows :
  NoDup (map id rows) -> NoDup (map id (save_row r rows)).
Proof.
  intros Hn. unfold save_row.
  destruct (existsb (fun y => id y =? id r) rows) eqn:E.
  - assert (Hmap : map id (map (fun y => if id y =? id r then r else y) rows)
                   = map id rows).
    { rewrite map_map. apply map_ext. intros y.
      destruct (id y =? id r) eqn:Ey; [|reflexivity].
      apply Z.eqb_eq in Ey. now symmetry. }
    now rewrite Hmap.
  - rewrite map_app. cbn. apply NoDup_app; [assumption | repeat constructor; intros [] |].
    intros x Hx [<-|[]].
    apply in_map_iff in Hx. destruct Hx as [y [Hy Hin]].
    assert (existsb (fun y => id y =? id r) rows = true); [|congruence].
    apply existsb_exists. exists y. split; [assumption | now apply Z.eqb_eq].
Qed.

Lemma run_body_deferred body :
  Forall deferred body ->
  forall w, batch_role_rebuilding (tls w) = Some true ->
    let '(w', r) := run_body body w in
    batch_step w w' (flat_map mutated body) r.
Proof.
  induction 1 as [|c cs Hc _ IH]; intros w Hb.
  - cbn. apply batch_step_refl; auto.
  - cbn [run_body flat_map]. specialize (Hc w Hb).
    destruct (run_command c w) as [w1 r1].
    destruct r1 as [|e].
    + assert (Hb1 : batch_role_rebuilding (tls w1) = Some true) by apply Hc.
      specialize (IH w1 Hb1). destruct (run_body cs w1) as [w2 r2].
      eapply batch_step_trans; eassumption.
    + now apply batch_step_failed.
Qed.

Lemma batch_enter_nested allow_nesting w :
  batch_role_rebuilding (tls w) = Some true ->
  batch_enter allow_nesting w = (w, true).
Proof.
  intros Hb. unfold batch_enter, batching. rewrite Hb. cbn.
  destruct w as [d [f s]]. cbn in *. now subst.
Qed.

Lemma batch_exit_nested w :
  batch_role_rebuilding (tls w) = Some true ->
  batch_exit true w = (w, Done).
Proof.
  intros Hb. unfold batch_exit. cbn.
  destruct w as [d [f s]]. cbn in *. now subst.
Qed.

Lemma all_commands_deferred : forall c, deferred c.
Proof.
  induction c as [r|x y|x y| |a body IH] using Command_ind';
    unfold deferred; intros w Hb.
  - cbn [run_command mutated]. unfold save.
    apply (entry_point_deferred (id r) w); try assumption; try easy.
    + intros Hpk. unfold roles_pk in *. cbn. now apply save_row_pk.
    + intros x Hx. unfold is_role in *. cbn in Hx. now apply save_row_ids in Hx.
  - cbn [run_command mutated]. unfold parents_add.
    apply (entry_point_deferred x w); try assumption; try easy.
    intros z Hz. now left.
  - cbn [run_command mutated]. unfold parents_remove.
    apply (entry_point_deferred x w); try assumption; try easy.
    intros z Hz. now left.
  - cbn. apply batch_step_refl; auto.
  - rewrite run_command_with_batch, (batch_enter_nested a w Hb).
    pose proof (run_body_deferred body IH w Hb) as H.
    destruct (run_body body w) as [w2 r2].
    assert (Hb2 : batch_role_rebuilding (tls w2) = Some true) by apply H.
    rewrite (batch_exit_nested w2 Hb2). cbn [finally]. exact H.
Qed.

Lemma run_body_batch_step body w :
  batch_role_rebuilding (tls w) = Some true ->
  let '(w', r) := run_body body w in
  batch_step w w' (flat_map mutated body) r.
Proof.
  apply run_body_deferred. apply Forall_forall. intros c _.
  apply all_commands_deferred.
Qed.

Lemma batch_enter_outermost allow_nesting w :
  batching (tls w) = false ->
  batch_enter allow_nesting w
  = (mkWorld (db w) (mkTls (Some true) (Some [])), false).
Proof. intros Hb. unfold batch_enter. rewrite Hb. reflexivity. Qed.

Lemma outermost_batch_run allow_nesting body w :
  batching (tls w) = false ->
  let '(w2, body_result) := run_body body (fst (batch_enter allow_nesting w)) in
  exists rebuild_set,
    roles_needing_rebuilding (tls w2) = Some rebuild_set /\
    (forall x, In x rebuild_set -> In x (flat_map mutated body)) /\
    statements (db w2) = statements (db w) /\
    ancestors (db w2) = ancestors (db w) /\
    next_id (db w2) = next_id (db w) /\
    let '(d, c) := atomic (_simultaneous_ancestry_rebuild rebuild_set) (db w2) in
    let '(w3, r) := run_command (WithBatch allow_nesting body) w in
    db w3 = d /\ batch_role_rebuilding (tls w3) = Some false /\
    r = finally body_result (result_of c).
Proof.
  intros Hb. rewrite run_command_with_batch, (batch_enter_outermost _ _ Hb).
  cbn [fst].
  pose proof (run_body_deferred body
                (proj2 (Forall_forall _ _) (fun c _ => all_commands_deferred c))
                (mkWorld (db w) (mkTls (Some true) (Some []))) eq_refl) as H.
  destruct (run_body body _) as [w2 r2].
  destruct H as ((Ha & Hn & Hs & _) & Hb2 & Hset).
  destruct (Hset [] eq_refl) as (s' & Hs' & _ & Hm & _).
  exists s'. cbn [db] in *. repeat split; try assumption.
  - intros x Hx. destruct (Hm x Hx) as [[]|]; assumption.
  - unfold batch_exit. cbn [negb roles_needing_rebuilding]. rewrite Hs'.
    destruct (atomic (_simultaneous_ancestry_rebuild s') (db w2)) as [d c].
    destruct c as [how n|e n]; cbn; repeat split.
Qed.

(** C3, as the code has it.  [allow_nesting] is never read: entering a
    batching context while one is active is accepted for either value;
    entry changes nothing, the inner block runs as if the inner context
    were absent, and the inner exit neither clears the set nor runs a
    rebuild. *)
Theorem nested_batch_is_noop : forall allow_nesting body w,
  batch_role_rebuilding (tls w) = Some true ->
  batch_enter allow_nesting w = (w, true) /\
  run_command (WithBatch allow_nesting body) w = run_body body w /\
  forall w2, batch_role_rebuilding (tls w2) = Some true ->
             batch_exit true w2 = (w2, Done).
Proof.
  intros a body w Hb. split; [now apply batch_enter_nested|]. split.
  - rewrite run_command_with_batch, (batch_enter_nested a w Hb).
    pose proof (run_body_deferred body
                  (proj2 (Forall_forall _ _) (fun c _ => all_commands_deferred c))
                  w Hb) as H.
    destruct (run_body body w) as [w2 r2]. destruct H as (_ & Hb2 & _).
    rewrite (batch_exit_nested w2 Hb2). reflexivity.
  - intros w2. apply batch_exit_nested.
Qed.

Lemma nested_batch_is_noop_witness :
  let w := mkWorld empty_db (mkTls (Some true) (Some [7])) in
  let body := [Save (mkRole 1 "admin" None None)] in
  batch_role_rebuilding (tls w) = Some true /\
  batch_enter false w = (w, true) /\
  run_command (WithBatch false body) w = run_body body w /\
  forall w2, batch_role_rebuilding (tls w2) = Some true ->
             batch_exit true w2 = (w2, Done).
Proof.
  split; [reflexivity|].
  apply (nested_batch_is_noop false [Save (mkRole 1 "admin" None None)]
           (mkWorld empty_db (mkTls (Some true) (Some [7])))).
  reflexivity.
Defined.

(** C3 as stated fails: with [allow_nesting = False] a nested entry is
    not an error. *)
Lemma nested_entry_is_accepted :
  let w := mkWorld empty_db (mkTls (Some true) (Some [])) in
  batch_role_rebuilding (tls w) = Some true /\
  batch_enter false w = (w, true) /\
  run_command (WithBatch false []) w = (w, Done) /\
  snd (run_command (WithBatch false [WithBatch false []]) fresh_world) = Done.
Proof. repeat split. Qed.

(** C5. While the flag is set, the rebuild entry point adds the id of
    the role to the accumulated set and returns: it issues no statement
    and the closure is as before; so is it after any sequence of
    commands run inside the batch, nested blocks included. *)
Theorem batching_defers_closure_work : forall w,
  batch_role_rebuilding (tls w) = Some true ->
  (forall self_id s,
      roles_needing_rebuilding (tls w) = Some s ->
      rebuild_role_ancestor_list self_id w
      = (mkWorld (db w) (mkTls (Some true) (Some (set_add self_id s))), Done)) /\
  (forall body,
      let w' := fst (run_body body w) in
      ancestors (db w') = ancestors (db w) /\
      statements (db w') = statements (db w) /\
      batch_role_rebuilding (tls w') = Some true).
Proof.
  intros w Hb. split.
  - intros self_id s Hs. unfold rebuild_role_ancestor_list, batching.
    rewrite Hb, Hs. reflexivity.
  - intros body.
    pose proof (run_body_deferred body
                  (proj2 (Forall_forall _ _) (fun c _ => all_commands_deferred c))
                  w Hb) as H.
    destruct (run_body body w) as [w2 r2]. destruct H as ((Ha & _ & Hs & _) & Hb2 & _).
    cbn. repeat split; assumption.
Qed.

Lemma batching_defers_closure_work_witness :
  let w := mkWorld (mkDb [] [] [] [mkEntry 1 5 5 "read" 0 0] 2 [])
                   (mkTls (Some true) (Some [5])) in
  let w' := fst (run_body [Save (mkRole 6 "admin" None None); AddParent 6 5] w) in
  ancestors (db w') = ancestors (db w) /\
  statements (db w') = statements (db w) /\
  batch_role_rebuilding (tls w') = Some true.
Proof.
  exact (proj2 (batching_defers_closure_work
                  (mkWorld (mkDb [] [] [] [mkEntry 1 5 5 "read" 0 0] 2 [])
                           (mkTls (Some true) (Some [5]))) eq_refl)
               [Save (mkRole 6 "admin" None None); AddParent 6 5]).
Defined.



(** The release path on a body that raises. *)
Example batch_release_after_failure :
  let body := [Save (mkRole 1 "admin" None None); Fail;
               Save (mkRole 2 "read" None None)] in
  let w3 := fst (run_command (WithBatch false body) fresh_world) in
  snd (run_command (WithBatch false body) fresh_world) = Failed BodyError /\
  batch_role_rebuilding (tls w3) = Some false /\
  map row_of (ancestors (db w3)) = [mkNew 1 1 "admin" 0 0] /\
  statements (db w3)
  = [Begin; SeedPurge [1]; LayerDelete [1]; LayerInsert [1]; SelectChildren [1]; Commit].
Proof. repeat split. Qed.

(** C10. A rebuild with an empty seed returns at once: the database,
    its statement log included, is what it was.  Hence leaving an
    outermost batching context whose body mutated no role leaves the
    closure as it was; the only trace is the empty transaction. *)
Theorem empty_seed_is_noop :
  (forall d, _simultaneous_ancestry_rebuild [] d = (d, Returned EmptySeed 0)) /\
  (forall allow_nesting body w,
      batching (tls w) = false ->
      flat_map mutated body = [] ->
      let w3 := fst (run_command (WithBatch allow_nesting body) w) in
      ancestors (db w3) = ancestors (db w) /\
      next_id (db w3) = next_id (db w) /\
      statements (db w3) = statements (db w) ++ [Begin; Commit]).
Proof.
  split; [reflexivity|].
  intros a body w Hb Hm.
  pose proof (outermost_batch_run a body w Hb) as H.
  destruct (run_body body _) as [w2 r2].
  destruct H as (s & Hs & Hsub & Hst & Ha & Hn & H).
  assert (s = []) as ->.
  { destruct s as [|x s]; [reflexivity|].
    specialize (Hsub x (or_introl eq_refl)). rewrite Hm in Hsub. destruct Hsub. }
  change (atomic (_simultaneous_ancestry_rebuild []) (db w2))
    with (log_statement Commit (log_statement Begin (db w2)), Returned EmptySeed 0) in H.
  cbv beta iota in H.
  destruct (run_command (WithBatch a body) w) as [w3 r3].
  destruct H as (H & _ & _). cbv zeta. cbn [fst]. rewrite H. cbn.
  repeat split; try assumption.
  rewrite Hst. now rewrite <- app_assoc.
Qed.

Lemma empty_seed_is_noop_witness :
  let w := mkWorld (mkDb [] [] [] [mkEntry 1 5 5 "read" 0 0] 2 []) (mkTls None None) in
  let w3 := fst (run_command (WithBatch false [Fail]) w) in
  ancestors (db w3) = ancestors (db w) /\
  next_id (db w3) = next_id (db w) /\
  statements (db w3) = statements (db w) ++ [Begin; Commit].
Proof.
  apply (proj2 empty_seed_is_noop false [Fail]
           (mkWorld (mkDb [] [] [] [mkEntry 1 5 5 "read" 0 0] 2 []) (mkTls None None)));
    reflexivity.
Defined.

(** ** get_roles_on_resource *)

Lemma option_is_true v x : option_is v x = true <-> v = Some x.
Proof.
  destruct v as [y|]; cbn; [|split; discriminate].
  rewrite Z.eqb_eq. split; congruence.
Qed.

Lemma accessor_roles_spec d accessor x :
  In x (accessor_roles d accessor) <-> holds_role d accessor x.
Proof.
  destruct accessor as [u|r|t pk]; cbn [accessor_roles holds_role].
  - rewrite in_flat_map. split.
    + intros [m [Hm Hx]]. destruct (member_user_id m =? u) eqn:Hu; [|destruct Hx].
      apply Z.eqb_eq in Hu. apply in_map_iff in Hx. destruct Hx as [r [Hr Hin]].
      apply filter_In in Hin. destruct Hin as [Hin Hid]. apply Z.eqb_eq in Hid.
      exists r. repeat split; try assumption.
      destruct m as [mr mu]. cbn in *. subst. congruence.
    + intros [r [Hr [Hid Hm]]]. exists (mkMember x u). split; [assumption|].
      cbn. rewrite Z.eqb_refl. apply in_map_iff. exists r. split; [assumption|].
      apply filter_In. split; [assumption | now apply Z.eqb_eq].
  - cbn. intuition.
  - rewrite in_map_iff. split.
    + intros [r [Hid Hin]]. apply filter_In in Hin. destruct Hin as [Hin Hc].
      apply andb_true_iff in Hc. destruct Hc as [Hc Ho].
      apply option_is_true in Hc, Ho. now exists r.
    + intros [r (Hin & Hid & Hc & Ho)]. exists r. split; [assumption|].
      apply filter_In. split; [assumption|].
      apply andb_true_iff. split; now apply option_is_true.
Qed.

Lemma dict_set_keys key value d k :
  In k (map fst (dict_set key value d)) <-> k = key \/ In k (map fst d).
Proof.
  induction d as [|[k0 v0] d IH]; cbn.
  - intuition.
  - destruct (String.eqb k0 key) eqn:E; cbn.
    + apply String.eqb_eq in E. subst. intuition.
    + rewrite IH. intuition.
Qed.

Lemma dict_set_nodup key value d :
  NoDup (map fst d) -> NoDup (map fst (dict_set key value d)).
Proof.
  induction d as [|[k0 v0] d IH]; cbn; intros H.
  - constructor; [intros [] | constructor].
  - inversion H as [|? ? Hn Hd]; subst.
    destruct (String.eqb k0 key) eqn:E; cbn.
    + now constructor.
    + constructor; [|now apply IH].
      rewrite dict_set_keys. intros [->|Hin]; [|contradiction].
      now rewrite String.eqb_refl in E.
Qed.

Lemma dict_set_values key d :
  (forall p, In p d -> snd p = true) ->
  forall p, In p (dict_set key true d) -> snd p = true.
Proof.
  induction d as [|[k0 v0] d IH]; cbn; intros H p Hp.
  - destruct Hp as [<-|[]]. reflexivity.
  - destruct (String.eqb k0 key); cbn in Hp.
    + destruct Hp as [<-|Hp]; [reflexivity | apply H; now right].
    + destruct Hp as [<-|Hp]; [apply (H (k0, v0)); now left|].
      apply IH; [|assumption]. intros q Hq. apply H. now right.
Qed.

Lemma dict_fill keys : forall acc,
  NoDup (map fst acc) -> (forall p, In p acc -> snd p = true) ->
  let result := fold_left (fun acc k => dict_set k true acc) keys acc in
  NoDup (map fst result) /\
  (forall p, In p result -> snd p = true) /\
  (forall k, In k (map fst result) <-> In k keys \/ In k (map fst acc)).
Proof.
  induction keys as [|key keys IH]; intros acc Hn Hv; cbn.
  - repeat split; try assumption; intuition.
  - destruct (IH (dict_set key true acc) (dict_set_nodup _ _ _ Hn)
                 (dict_set_values _ _ Hv)) as (H1 & H2 & H3).
    repeat split; try assumption.
    + intros H. apply H3 in H. rewrite dict_set_keys in H. intuition.
    + intros H. apply H3. rewrite dict_set_keys. intuition.
Qed.

(** C9. The result of [get_roles_on_resource] has one key per distinct
    [role_field] of the closure rows whose ancestor is a role held by
    the accessor and whose content type and object id are those of the
    resource, each mapped to [True], and nothing else; it is empty when
    the accessor holds no role.  The function is total. *)
Theorem roles_on_resource_correct : forall d resource accessor,
  let result := get_roles_on_resource d resource accessor in
  NoDup (map fst result) /\
  (forall k v,
      In (k, v) result <->
      v = true /\
      exists e, In e (ancestors d) /\ entry_role_field e = k /\
                holds_role d accessor (ancestor e) /\
                content_type_id e = resource_type_id resource /\
                entry_object_id e = resource_id resource) /\
  ((forall x, ~ holds_role d accessor x) -> result = []).
Proof.
  intros d resource accessor result.
  set (hit := fun e => id_in (ancestor e) (accessor_roles d accessor)
                       && (content_type_id e =? resource_type_id resource)
                       && (entry_object_id e =? resource_id resource)).
  assert (Hhit : forall e, hit e = true <->
                   holds_role d accessor (ancestor e) /\
                   content_type_id e = resource_type_id resource /\
                   entry_object_id e = resource_id resource).
  { intros e. unfold hit. rewrite !andb_true_iff, !Z.eqb_eq, id_in_true,
      accessor_roles_spec. intuition. }
  destruct (dict_fill (map entry_role_field (filter hit (ancestors d))) []
                      (NoDup_nil _) (fun p H => match H with end))
    as (Hn & Hv & Hk).
  fold (get_roles_on_resource d resource accessor) in Hn, Hv, Hk.
  change (get_roles_on_resource d resource accessor) with result in Hn, Hv, Hk.
  split; [exact Hn|]. split.
  - intros k v. split.
    + intros Hin. split; [exact (Hv _ Hin)|].
      assert (Hkey : In k (map fst result)).
      { apply in_map_iff. now exists (k, v). }
      apply Hk in Hkey. destruct Hkey as [Hkey|[]].
      apply in_map_iff in Hkey. destruct Hkey as [e [He Hin']].
      apply filter_In in Hin'. destruct Hin' as [Hin' Hh]. apply Hhit in Hh.
      exists e. intuition.
    + intros [-> [e (Hin & He & Hh)]].
      assert (Hkey : In k (map fst result)).
      { apply Hk. left. apply in_map_iff. exists e. split; [assumption|].
        apply filter_In. split; [assumption | now apply Hhit]. }
      apply in_map_iff in Hkey. destruct Hkey as [[k' v'] [Hk' Hin']].
      cbn in Hk'. subst k'. now rewrite <- (Hv _ Hin').
  - intros Hnone. destruct result as [|[k v] rest] eqn:E; [reflexivity|].
    exfalso.
    assert (Hkey : In k (map fst result)) by (rewrite E; now left).
    apply Hk in Hkey. destruct Hkey as [Hkey|[]].
    apply in_map_iff in Hkey. destruct Hkey as [e [_ Hin']].
    apply filter_In in Hin'. destruct Hin' as [_ Hh]. apply Hhit in Hh.
    exact (Hnone _ (proj1 Hh)).
Qed.

(** Scenario 6 of the specification: role 1 is bound to object (7, 42)
    with [role_field = "admin"] and user 9 is a member of it. *)
Example roles_on_resource_scenario :
  let d := mkDb [mkRole 1 "admin" (Some 7) (Some 42)] [] [mkMember 1 9]
                [mkEntry 1 1 1 "admin" 7 42] 2 [] in
  get_roles_on_resource d (mkResource 7 42) (AUser 9) = [("admin"%string, true)] /\
  get_roles_on_resource d (mkResource 7 43) (AUser 9) = [] /\
  get_roles_on_resource d (mkResource 7 42) (AUser 8) = [].
Proof. repeat split. Qed.

(** ** What the statements of a layer select *)

Lemma stored_spec rows x a :
  stored rows x a = true <->
  exists e, In e rows /\ descendent e = x /\ ancestor e = a.
Proof.
  unfold stored. rewrite existsb_exists. split.
  - intros [e [He Hm]]. apply andb_true_iff in Hm. destruct Hm as [H1 H2].
    apply Z.eqb_eq in H1, H2. exists e. auto.
  - intros [e (He & H1 & H2)]. exists e. split; [assumption|].
    subst. now rewrite !Z.eqb_refl.
Qed.

Lemma stored_app rows1 rows2 x a :
  stored (rows1 ++ rows2) x a = stored rows1 x a || stored rows2 x a.
Proof. unfold stored. apply existsb_app. Qed.

Lemma is_role_spec d x : is_role d x <-> exists r, In r (roles d) /\ id r = x.
Proof.
  unfold is_role. rewrite in_map_iff. split; intros [r [H1 H2]]; exists r; auto.
Qed.

Lemma new_ancestry_pairs_spec d ids x a :
  In (x, a) (new_ancestry_pairs d ids) <-> id_in x ids = true /\ want d x a.
Proof.
  unfold new_ancestry_pairs, want. rewrite nodup_In, in_app_iff, in_flat_map, in_map_iff.
  split.
  - intros [[p [Hp Hin]] | [r [Heq Hr]]].
    + destruct (id_in (from_role_id p) ids) eqn:Hid; [|destruct Hin].
      apply in_map_iff in Hin. destruct Hin as [e [Heq He]].
      apply filter_In in He. destruct He as [He Hm]. apply Z.eqb_eq in Hm.
      injection Heq as <- <-. split; [assumption|]. right.
      exists p. repeat split; try assumption.
      apply stored_spec. exists e. auto.
    + apply filter_In in Hr. destruct Hr as [Hr Hid].
      injection Heq as <- <-. split; [assumption|]. left.
      split; [reflexivity|]. apply is_role_spec. now exists r.
  - intros [Hid [[<- Hr] | [p (Hp & <- & Hs)]]].
    + right. apply is_role_spec in Hr. destruct Hr as [r [Hr <-]].
      exists r. split; [reflexivity|]. apply filter_In. auto.
    + left. exists p. split; [assumption|]. rewrite Hid.
      apply stored_spec in Hs. destruct Hs as [e (He & Hd & Ha)].
      apply in_map_iff. exists e. split; [now rewrite Ha|].
      apply filter_In. split; [assumption|]. now apply Z.eqb_eq.
Qed.

Lemma new_ancestry_list_spec d ids c :
  In c (new_ancestry_list d ids) <->
  exists r, In r (roles d) /\ c = canonical r (to_id c) /\
            id_in (id r) ids = true /\
            (id r = to_id c \/
             exists p, In p (parents d) /\ from_role_id p = id r /\
                       stored (ancestors d) (to_role_id p) (to_id c) = true).
Proof.
  unfold new_ancestry_list. rewrite nodup_In, in_app_iff, in_flat_map, in_map_iff.
  split.
  - intros [[p [Hp Hin]] | [r [Heq Hr]]].
    + destruct (id_in (from_role_id p) ids) eqn:Hid; [|destruct Hin].
      apply in_flat_map in Hin. destruct Hin as [r [Hr Hin]].
      apply filter_In in Hr. destruct Hr as [Hr Hm]. apply Z.eqb_eq in Hm.
      apply in_map_iff in Hin. destruct Hin as [e [Heq He]].
      apply filter_In in He. destruct He as [He Hm']. apply Z.eqb_eq in Hm'.
      exists r. subst c. cbn. unfold canonical. rewrite <- Hm.
      repeat split; try assumption. right. exists p. repeat split; try assumption.
      apply stored_spec. exists e. auto.
    + apply filter_In in Hr. destruct Hr as [Hr Hid].
      exists r. subst c. cbn. repeat split; try assumption. now left.
  - intros [r (Hr & Hc & Hid & [Hself | [p (Hp & Hf & Hs)]])].
    + right. exists r. split; [|apply filter_In; auto].
      rewrite Hc. unfold canonical. now rewrite Hself.
    + left. exists p. split; [assumption|]. rewrite Hf, Hid.
      apply in_flat_map. exists r. split.
      * apply filter_In. split; [assumption|]. now apply Z.eqb_eq.
      * apply stored_spec in Hs. destruct Hs as [e (He & Hd & Ha)].
        apply in_map_iff. exists e. split.
        -- rewrite Hc. unfold canonical. now rewrite Ha.
        -- apply filter_In. split; [assumption|]. now apply Z.eqb_eq.
Qed.

Lemma new_ancestry_list_nodup d ids : NoDup (new_ancestry_list d ids).
Proof. apply NoDup_nodup. Qed.

Lemma role_unique d r1 r2 :
  roles_pk d -> In r1 (roles d) -> In r2 (roles d) -> id r1 = id r2 -> r1 = r2.
Proof.
  unfold roles_pk. induction (roles d) as [|r rs IH]; cbn; intros Hn H1 H2 Heq.
  - destruct H1.
  - inversion Hn as [|? ? Hnot Hn']; subst.
    destruct H1 as [<-|H1], H2 as [<-|H2].
    + reflexivity.
    + exfalso. apply Hnot. rewrite Heq. now apply in_map.
    + exfalso. apply Hnot. rewrite <- Heq. now apply in_map.
    + now apply IH.
Qed.

(** Candidates are determined by their pair. *)
Lemma new_ancestry_list_functional d ids c1 c2 :
  roles_pk d ->
  In c1 (new_ancestry_list d ids) -> In c2 (new_ancestry_list d ids) ->
  from_id c1 = from_id c2 -> to_id c1 = to_id c2 -> c1 = c2.
Proof.
  intros Hpk H1 H2 Hf Ht.
  apply new_ancestry_list_spec in H1, H2.
  destruct H1 as [r1 (Hr1 & Hc1 & _)], H2 as [r2 (Hr2 & Hc2 & _)].
  assert (r1 = r2).
  { apply (role_unique d); try assumption.
    rewrite Hc1, Hc2 in Hf. exact Hf. }
  subst r2. rewrite Hc1, Hc2. now rewrite Ht.
Qed.

Lemma matched_ids_spec d ids i :
  In i (matched_ids d ids) <->
  exists e, In e (ancestors d) /\ entry_id e = i /\
            In (descendent e, ancestor e) (new_ancestry_pairs d ids).
Proof.
  unfold matched_ids. rewrite in_flat_map. split.
  - intros [[x a] [Hc Hin]]. apply in_map_iff in Hin. destruct Hin as [e [Hi He]].
    apply filter_In in He. destruct He as [He Hm].
    apply andb_true_iff in Hm. cbn in Hm. destruct Hm as [H1 H2].
    apply Z.eqb_eq in H1, H2. subst. now exists e.
  - intros [e (He & Hi & Hc)]. exists (descendent e, ancestor e).
    split; [assumption|]. apply in_map_iff. exists e. split; [assumption|].
    apply filter_In. split; [assumption|]. cbn. now rewrite !Z.eqb_refl.
Qed.

Lemma delete_kept_incl d ids e : In e (delete_kept d ids) -> In e (ancestors d).
Proof. unfold delete_kept. rewrite filter_In. tauto. Qed.

(** A row whose pair the inner query selects survives the DELETE, and
    so does every row of a descendent outside the layer. *)
Lemma delete_kept_intro d ids e :
  In e (ancestors d) ->
  id_in (descendent e) ids = false \/ want d (descendent e) (ancestor e) ->
  In e (delete_kept d ids).
Proof.
  intros He H. unfold delete_kept. apply filter_In. split; [assumption|].
  apply negb_true_iff. destruct (id_in (descendent e) ids) eqn:Hid; [|reflexivity].
  cbn. apply negb_false_iff. apply id_in_true. apply matched_ids_spec.
  exists e. repeat split; try assumption.
  apply new_ancestry_pairs_spec. split; [assumption|].
  destruct H as [H|H]; [discriminate | assumption].
Qed.

Lemma entry_unique rows e1 e2 :
  NoDup (map entry_id rows) -> In e1 rows -> In e2 rows ->
  entry_id e1 = entry_id e2 -> e1 = e2.
Proof.
  induction rows as [|r rs IH]; cbn; intros Hn H1 H2 Heq.
  - destruct H1.
  - inversion Hn as [|? ? Hnot Hn']; subst.
    destruct H1 as [<-|H1], H2 as [<-|H2].
    + reflexivity.
    + exfalso. apply Hnot. rewrite Heq. now apply in_map.
    + exfalso. apply Hnot. rewrite <- Heq. now apply in_map.
    + now apply IH.
Qed.

(** With a primary key on [id], the DELETE removes the rows of the layer
    that the inner query does not select. *)
Lemma delete_kept_elim d ids e :
  NoDup (map entry_id (ancestors d)) ->
  In e (delete_kept d ids) ->
  id_in (descendent e) ids = true -> want d (descendent e) (ancestor e).
Proof.
  intros Hpk Hk Hid. unfold delete_kept in Hk. apply filter_In in Hk.
  destruct Hk as [He Hk]. rewrite Hid in Hk. cbn in Hk.
  apply negb_true_iff, negb_false_iff, id_in_true, matched_ids_spec in Hk.
  destruct Hk as [e' (He' & Hi & Hc)].
  assert (e' = e) by (apply (entry_unique (ancestors d)); assumption).
  subst e'. apply new_ancestry_pairs_spec in Hc. tauto.
Qed.

Lemma insert_rows_row_of cs : forall next,
  map row_of (insert_rows next cs) = cs.
Proof.
  induction cs as [|c cs IH]; intros next; cbn; [reflexivity|].
  rewrite IH. now destruct c.
Qed.

Lemma insert_rows_ids cs : forall next e,
  In e (insert_rows next cs) ->
  next <= entry_id e < next + Z.of_nat (List.length cs).
Proof.
  induction cs as [|c cs IH]; intros next e; cbn [insert_rows List.length In].
  - intros [].
  - intros [<-|H]; cbn [entry_id]; [lia|]. apply IH in H. lia.
Qed.

Lemma insert_rows_ids_nodup cs : forall next,
  NoDup (map entry_id (insert_rows next cs)).
Proof.
  induction cs as [|c cs IH]; intros next; cbn; constructor; [|apply IH].
  intros H. apply in_map_iff in H. destruct H as [e [Hi He]].
  apply insert_rows_ids in He. lia.
Qed.

Lemma insert_rows_in cs next e :
  In e (insert_rows next cs) -> In (row_of e) cs.
Proof.
  intros H. rewrite <- (insert_rows_row_of cs next). now apply in_map.
Qed.

Lemma insert_rows_stored cs next x a :
  stored (insert_rows next cs) x a = true <->
  exists c, In c cs /\ from_id c = x /\ to_id c = a.
Proof.
  rewrite stored_spec. split.
  - intros [e (He & Hd & Ha)]. exists (row_of e).
    split; [now apply insert_rows_in in He | auto].
  - intros [c (Hc & Hf & Ht)].
    rewrite <- (insert_rows_row_of cs next) in Hc. apply in_map_iff in Hc.
    destruct Hc as [e [Hr He]]. exists e. subst c. auto.
Qed.

(** ** One layer, row by row *)

Lemma after_delete_eq ids d :
  after_delete ids d
  = log_statement (LayerDelete ids)
      (set_ancestors d (delete_kept d ids) (next_id d)).
Proof. reflexivity. Qed.

Lemma after_layer_eq ids d :
  ancestors (after_layer ids d)
  = delete_kept d ids
    ++ insert_rows (next_id d) (insert_missing (after_delete ids d) ids) /\
  next_id (after_layer ids d)
  = next_id d + Z.of_nat (List.length (insert_missing (after_delete ids d) ids)) /\
  roles (after_layer ids d) = roles d /\
  parents (after_layer ids d) = parents d.
Proof. repeat split. Qed.

Lemma layer_counts ids d :
  layer ids d
  = (after_layer ids d,
     rowcount (ancestors d) (delete_kept d ids),
     Z.of_nat (List.length (insert_missing (after_delete ids d) ids))).
Proof. reflexivity. Qed.

Lemma filter_length_full {A} (f : A -> bool) l :
  List.length (filter f l) = List.length l -> filter f l = l.
Proof.
  induction l as [|x l IH]; cbn; [reflexivity|].
  destruct (f x); cbn; intros H.
  - f_equal. apply IH. lia.
  - pose proof (filter_length_le f l). lia.
Qed.

Lemma filter_full {A} (f : A -> bool) l :
  (forall x, In x l -> f x = true) -> filter f l = l.
Proof.
  induction l as [|x l IH]; cbn; intros H; [reflexivity|].
  rewrite (H x (or_introl eq_refl)). f_equal. apply IH. intros y Hy. apply H. now right.
Qed.

Lemma filter_none {A} (f : A -> bool) l :
  (forall x, In x l -> f x = false) -> filter f l = [].
Proof.
  induction l as [|x l IH]; cbn; intros H; [reflexivity|].
  rewrite (H x (or_introl eq_refl)). apply IH. intros y Hy. apply H. now right.
Qed.

Lemma filter_filter_keep {A} (f g : A -> bool) l :
  (forall x, In x l -> g x = true -> f x = true) ->
  filter g (filter f l) = filter g l.
Proof.
  induction l as [|x l IH]; cbn; intros H; [reflexivity|].
  assert (IH' : filter g (filter f l) = filter g l).
  { apply IH. intros y Hy. apply H. now right. }
  destruct (f x) eqn:Hf; cbn.
  - now rewrite IH'.
  - destruct (g x) eqn:Hg; [|assumption].
    rewrite (H x (or_introl eq_refl) Hg) in Hf. discriminate.
Qed.

Lemma rowcount_zero {A} (f : A -> bool) l :
  rowcount l (filter f l) = 0 <-> filter f l = l.
Proof.
  unfold rowcount. split.
  - intros H. apply filter_length_full. lia.
  - intros ->. lia.
Qed.

(** A layer is idle when the DELETE keeps every row and the INSERT
    finds nothing missing; the table is then what it was. *)
Lemma layer_idle ids d :
  (Z.of_nat (List.length (insert_missing (after_delete ids d) ids)) =? 0)
  && (rowcount (ancestors d) (delete_kept d ids) =? 0) = true <->
  delete_kept d ids = ancestors d /\ insert_missing (after_delete ids d) ids = [].
Proof.
  assert (Hz : rowcount (ancestors d) (delete_kept d ids) = 0
               <-> delete_kept d ids = ancestors d).
  { unfold delete_kept. apply rowcount_zero. }
  rewrite andb_true_iff, !Z.eqb_eq, Hz.
  split; intros [H1 H2]; split; try assumption.
  - destruct (insert_missing (after_delete ids d) ids); [reflexivity | discriminate].
  - now rewrite H2.
Qed.

Lemma layer_idle_tables ids d :
  delete_kept d ids = ancestors d ->
  insert_missing (after_delete ids d) ids = [] ->
  ancestors (after_layer ids d) = ancestors d /\
  next_id (after_layer ids d) = next_id d.
Proof.
  intros H1 H2. destruct (after_layer_eq ids d) as (Ha & Hn & _).
  rewrite Ha, Hn, H1, H2. cbn. rewrite app_nil_r. split; [reflexivity | lia].
Qed.

Lemma row_count_stored rows x a :
  row_count rows x a = 0%nat <-> stored rows x a = false.
Proof.
  unfold row_count, stored.
  induction rows as [|e rows IH]; cbn; [tauto|].
  destruct ((x =? descendent e) && (a =? ancestor e)); cbn.
  - split; discriminate.
  - exact IH.
Qed.

Lemma row_count_app rows1 rows2 x a :
  row_count (rows1 ++ rows2) x a
  = (row_count rows1 x a + row_count rows2 x a)%nat.
Proof. unfold row_count. now rewrite filter_app, length_app. Qed.

Lemma row_count_insert_rows cs : forall next x a,
  row_count (insert_rows next cs) x a
  = List.length (filter (fun c => (x =? from_id c) && (a =? to_id c)) cs).
Proof.
  induction cs as [|c cs IH]; intros next x a; [reflexivity|].
  unfold row_count in *. cbn.
  destruct ((x =? from_id c) && (a =? to_id c)); cbn; now rewrite IH.
Qed.

Lemma at_most_one {A} (f : A -> bool) l c0 :
  NoDup l -> (forall c, In c l -> f c = true -> c = c0) ->
  (List.length (filter f l) <= 1)%nat.
Proof.
  induction l as [|c l IH]; cbn; intros Hn H; [lia|].
  inversion Hn as [|? ? Hnot Hn']; subst.
  destruct (f c) eqn:Hf; cbn.
  - assert (c = c0) by (apply H; auto). subst c.
    assert (filter f l = []) as ->; [|cbn; lia].
    apply filter_none. intros y Hy. destruct (f y) eqn:Hfy; [|reflexivity].
    exfalso. apply Hnot. rewrite <- (H y (or_intror Hy) Hfy). exact Hy.
  - apply IH; [assumption|]. intros y Hy. apply H. now right.
Qed.

Lemma filter_nonempty {A} (f : A -> bool) l c :
  In c l -> f c = true -> (1 <= List.length (filter f l))%nat.
Proof.
  intros Hin Hf. assert (H : In c (filter f l)) by (apply filter_In; auto).
  destruct (filter f l); [destruct H | cbn; lia].
Qed.

(** The INSERT adds at most one row per pair, and none for a pair that
    is stored. *)
Lemma inserted_at_most_one ids d x a :
  roles_pk d ->
  (row_count (insert_rows (next_id d) (insert_missing d ids)) x a <= 1)%nat /\
  (stored (ancestors d) x a = true ->
   row_count (insert_rows (next_id d) (insert_missing d ids)) x a = 0%nat).
Proof.
  intros Hpk. rewrite row_count_insert_rows. unfold insert_missing. split.
  - destruct (filter (fun c => (x =? from_id c) && (a =? to_id c))
                     (filter (fun c => negb (stored (ancestors d) (from_id c) (to_id c)))
                             (new_ancestry_list d ids))) as [|c0 rest] eqn:E; [cbn; lia|].
    rewrite <- E.
    assert (H0 : In c0 (c0 :: rest)) by now left.
    rewrite <- E in H0. apply filter_In in H0. destruct H0 as [H0 Hm0].
    apply filter_In in H0. destruct H0 as [H0 _].
    apply andb_true_iff in Hm0. destruct Hm0 as [Hf0 Ht0]. apply Z.eqb_eq in Hf0, Ht0.
    apply (at_most_one _ _ c0).
    + apply NoDup_filter, new_ancestry_list_nodup.
    + intros c Hc Hm. apply filter_In in Hc. destruct Hc as [Hc _].
      apply andb_true_iff in Hm. destruct Hm as [Hf Ht]. apply Z.eqb_eq in Hf, Ht.
      apply (new_ancestry_list_functional d ids); try assumption; congruence.
  - intros Hs.
    assert (H : filter (fun c => (x =? from_id c) && (a =? to_id c))
                  (filter (fun c => negb (stored (ancestors d) (from_id c) (to_id c)))
                          (new_ancestry_list d ids)) = []); [|now rewrite H].
    apply filter_none. intros c Hc. apply filter_In in Hc. destruct Hc as [_ Hc].
    destruct ((x =? from_id c) && (a =? to_id c)) eqn:Hm; [|reflexivity].
    apply andb_true_iff in Hm. destruct Hm as [Hf Ht]. apply Z.eqb_eq in Hf, Ht.
    subst. rewrite Hs in Hc. discriminate.
Qed.

Lemma row_count_filter_le (f : RoleAncestorEntry -> bool) rows x a :
  (row_count (filter f rows) x a <= row_count rows x a)%nat.
Proof.
  unfold row_count. induction rows as [|e rows IH]; cbn; [lia|].
  destruct (f e); cbn; destruct ((x =? descendent e) && (a =? ancestor e)); cbn; lia.
Qed.

Lemma row_count_filter_keep (f : RoleAncestorEntry -> bool) rows x a :
  (forall e, In e rows -> descendent e = x -> ancestor e = a -> f e = true) ->
  row_count (filter f rows) x a = row_count rows x a.
Proof.
  intros H. unfold row_count. rewrite filter_filter_keep; [reflexivity|].
  intros e He Hm. apply andb_true_iff in Hm. destruct Hm as [H1 H2].
  apply Z.eqb_eq in H1, H2. now apply H.
Qed.

(** Pairs that are stored once stay stored at most once. *)
Lemma layer_keeps_pairs_unique ids d x a :
  roles_pk d ->
  (row_count (ancestors d) x a <= 1)%nat ->
  (row_count (ancestors (after_layer ids d)) x a <= 1)%nat.
Proof.
  intros Hpk H. destruct (after_layer_eq ids d) as (-> & _).
  rewrite row_count_app.
  pose proof (row_count_filter_le
                (fun e => negb (id_in (descendent e) ids
                                && negb (id_in (entry_id e) (matched_ids d ids))))
                (ancestors d) x a) as Hle.
  fold (delete_kept d ids) in Hle.
  destruct (inserted_at_most_one ids (after_delete ids d) x a Hpk) as [H1 H0].
  rewrite after_delete_eq in H1, H0. cbn [next_id ancestors log_statement set_ancestors] in H1, H0.
  rewrite <- after_delete_eq in H1, H0.
  destruct (stored (delete_kept d ids) x a) eqn:Hs.
  - rewrite (H0 eq_refl). lia.
  - apply row_count_stored in Hs. lia.
Qed.

(** The rows of a descendent outside the layer are not touched. *)
Lemma layer_outside_row_count ids d x a :
  id_in x ids = false ->
  row_count (ancestors (after_layer ids d)) x a = row_count (ancestors d) x a.
Proof.
  intros Hid. destruct (after_layer_eq ids d) as (-> & _).
  rewrite row_count_app.
  assert (Hnew : row_count (insert_rows (next_id d)
                              (insert_missing (after_delete ids d) ids)) x a = 0%nat).
  { apply row_count_stored. destruct (stored _ x a) eqn:Hs; [|reflexivity].
    apply insert_rows_stored in Hs. destruct Hs as [c (Hc & Hf & _)].
    apply filter_In in Hc. destruct Hc as [Hc _].
    apply new_ancestry_list_spec in Hc. destruct Hc as [r (_ & Hcan & Hin & _)].
    rewrite Hcan in Hf. cbn in Hf. congruence. }
  rewrite Hnew, Nat.add_0_r. unfold delete_kept.
  apply row_count_filter_keep. intros e _ Hd _. now rewrite Hd, Hid.
Qed.

(** After a layer every role of the layer has its self row. *)
Lemma layer_stores_self ids d x :
  is_role d x -> id_in x ids = true ->
  stored (ancestors (after_layer ids d)) x x = true.
Proof.
  intros Hr Hid. destruct (after_layer_eq ids d) as (-> & _).
  rewrite stored_app. apply orb_true_iff.
  destruct (stored (delete_kept d ids) x x) eqn:Hs; [now left | right].
  apply insert_rows_stored. apply is_role_spec in Hr. destruct Hr as [r [Hr <-]].
  exists (canonical r (id r)). repeat split.
  apply filter_In. split.
  - apply new_ancestry_list_spec. exists r. repeat split; try assumption. now left.
  - change (ancestors (after_delete ids d)) with (delete_kept d ids).
    unfold canonical. cbn [from_id to_id]. now rewrite Hs.
Qed.

(** The self row of a role survives the DELETE of any layer. *)
Lemma delete_keeps_self ids d x :
  is_role d x ->
  row_count (delete_kept d ids) x x = row_count (ancestors d) x x.
Proof.
  intros Hr. unfold delete_kept.
  apply row_count_filter_keep. intros e He Hd Ha.
  assert (Hk : In e (delete_kept d ids)).
  { apply delete_kept_intro; [assumption|]. right. left. split; congruence. }
  apply filter_In in Hk. tauto.
Qed.

Lemma layer_self_rows ids d x :
  roles_pk d -> is_role d x ->
  (row_count (ancestors d) x x <= 1)%nat ->
  row_count (ancestors (after_layer ids d)) x x
  = if id_in x ids then 1%nat else row_count (ancestors d) x x.
Proof.
  intros Hpk Hr Hle. destruct (id_in x ids) eqn:Hid.
  - pose proof (layer_keeps_pairs_unique ids d x x Hpk Hle) as H1.
    pose proof (layer_stores_self ids d x Hr Hid) as H2.
    destruct (row_count (ancestors (after_layer ids d)) x x) as [|[|n]] eqn:E; try lia.
    apply row_count_stored in E. congruence.
  - now apply layer_outside_row_count.
Qed.

(** ** Self rows *)

Lemma after_layer_self_invariant ids d :
  roles_pk d -> self_invariant d -> self_invariant (after_layer ids d).
Proof.
  intros Hpk Hinv x Hx.
  assert (Hr : is_role d x) by exact Hx.
  rewrite (layer_self_rows ids d x Hpk Hr); [|rewrite (Hinv x Hr); lia].
  destruct (id_in x ids); [reflexivity | now apply Hinv].
Qed.

Lemma rebuild_loop_self_rows fuel : forall loop_ct d ids,
  roles_pk d -> self_invariant d ->
  self_invariant (fst (rebuild_loop fuel loop_ct d ids)).
Proof.
  induction fuel as [|f IH]; intros loop_ct d ids Hpk Hinv.
  - destruct ids as [|x ids]; cbn [rebuild_loop]; [exact Hinv|].
    destruct (1000 <? loop_ct)%nat; exact Hinv.
  - destruct ids as [|x ids]; [rewrite rebuild_loop_nil; exact Hinv|].
    destruct (Nat.le_gt_cases loop_ct 1000) as [Hle|Hgt].
    2:{ rewrite rebuild_loop_raise by assumption. exact Hinv. }
    rewrite rebuild_loop_step by assumption. rewrite layer_counts.
    pose proof (after_layer_self_invariant (x :: ids) d Hpk Hinv) as Hinv'.
    destruct (_ && _); [exact Hinv'|].
    apply IH; [exact Hpk | exact Hinv'].
Qed.

Lemma purge_self_rows ids d x :
  row_count (purge_kept d ids) x x
  = if id_in x ids then 0%nat else row_count (ancestors d) x x.
Proof.
  unfold purge_kept. destruct (id_in x ids) eqn:Hid.
  - apply row_count_stored. destruct (stored _ x x) eqn:Hs; [|reflexivity].
    apply stored_spec in Hs. destruct Hs as [e (He & _ & Ha)].
    apply filter_In in He. destruct He as [_ He]. rewrite Ha, Hid in He. discriminate.
  - apply row_count_filter_keep. intros e _ _ Ha. now rewrite Ha, Hid.
Qed.

Lemma rebuild_self_rows ids d :
  roles_pk d ->
  (forall x, is_role d x -> ~ In x ids -> row_count (ancestors d) x x = 1%nat) ->
  self_invariant (fst (_simultaneous_ancestry_rebuild ids d)).
Proof.
  intros Hpk Hinv. destruct ids as [|i ids].
  { intros x Hx. apply Hinv; [assumption | intros []]. }
  cbn [_simultaneous_ancestry_rebuild cursor_execute].
  set (purged := log_statement (SeedPurge (i :: ids))
                   (set_ancestors d (purge_kept d (i :: ids)) (next_id d))).
  rewrite rebuild_loop_step by lia. rewrite layer_counts.
  assert (Hpk' : roles_pk purged) by exact Hpk.
  assert (Hinv' : self_invariant (after_layer (i :: ids) purged)).
  { intros x Hx. assert (Hr : is_role d x) by exact Hx.
    assert (Hc : row_count (ancestors purged) x x
                 = if id_in x (i :: ids) then 0%nat else 1%nat).
    { subst purged. cbn [ancestors log_statement set_ancestors].
      rewrite purge_self_rows. destruct (id_in x (i :: ids)) eqn:Hid; [reflexivity|].
      apply Hinv; [assumption | now apply id_in_false]. }
    rewrite (layer_self_rows (i :: ids) purged x Hpk' Hr);
      rewrite Hc; destruct (id_in x (i :: ids)); lia. }
  destruct (_ && _); [exact Hinv'|].
  apply rebuild_loop_self_rows; [exact Hpk | exact Hinv'].
Qed.

Lemma rebuild_frame ids d :
  roles (fst (_simultaneous_ancestry_rebuild ids d)) = roles d /\
  parents (fst (_simultaneous_ancestry_rebuild ids d)) = parents d.
Proof.
  destruct ids as [|i ids]; [now split|].
  cbn [_simultaneous_ancestry_rebuild cursor_execute].
  destruct (rebuild_loop_frame 1001 0
              (log_statement (SeedPurge (i :: ids))
                 (set_ancestors d (purge_kept d (i :: ids)) (next_id d)))
              (i :: ids)) as (Hr & Hp & _).
  split; assumption.
Qed.

Lemma entry_point_self_rows self_id w :
  batching (tls w) = false ->
  roles_pk (db w) ->
  (forall x, is_role (db w) x -> x <> self_id ->
             row_count (ancestors (db w)) x x = 1%nat) ->
  let w' := fst (rebuild_role_ancestor_list self_id w) in
  roles_pk (db w') /\ self_invariant (db w').
Proof.
  intros Hb Hpk Hinv. unfold rebuild_role_ancestor_list. rewrite Hb.
  pose proof (rebuild_self_rows [self_id] (db w) Hpk) as H.
  pose proof (rebuild_frame [self_id] (db w)) as [Hr _].
  destruct (_simultaneous_ancestry_rebuild [self_id] (db w)) as [d' c].
  cbn [fst db] in *. split.
  - unfold roles_pk. now rewrite Hr.
  - apply H. intros x Hx Hn. apply Hinv; [assumption|].
    intros ->. apply Hn. now left.
Qed.

(** C2. The self invariant is kept by the rebuild: if every role
    outside the seed has exactly one self row before, every role has
    exactly one after.  Hence every mutation that reports success,
    outside a batch or as an outermost batch, keeps it: saving a role,
    changing its parents, or committing a batch leaves each role with
    exactly one row [(R, R)]. *)
Theorem self_invariant_preserved :
  (forall ids d,
      roles_pk d ->
      (forall x, is_role d x -> ~ In x ids -> row_count (ancestors d) x x = 1%nat) ->
      self_invariant (fst (_simultaneous_ancestry_rebuild ids d))) /\
  (forall c w,
      batching (tls w) = false ->
      roles_pk (db w) -> self_invariant (db w) ->
      let '(w', r) := run_command c w in
      r = Done -> roles_pk (db w') /\ self_invariant (db w')).
Proof.
  split; [exact rebuild_self_rows|].
  intros c w Hb Hpk Hinv. destruct c as [r|x y|x y| |a body].
  - cbn [run_command]. unfold save.
    pose proof (entry_point_self_rows (id r)
                  (with_roles (save_row r (roles (db w))) w) Hb) as H.
    destruct (rebuild_role_ancestor_list _ _) as [w' res]. intros _.
    apply H.
    + unfold roles_pk. cbn. now apply save_row_pk.
    + intros z Hz Hne. unfold is_role in Hz. cbn in Hz.
      apply save_row_ids in Hz. destruct Hz as [Hz|Hz]; [|contradiction].
      now apply Hinv.
  - cbn [run_command]. unfold parents_add.
    match goal with
    | |- context [rebuild_role_ancestor_list x ?w0] =>
        pose proof (entry_point_self_rows x w0 Hb) as H
    end.
    destruct (rebuild_role_ancestor_list _ _) as [w' res]. intros _.
    apply H; [exact Hpk|]. intros z Hz _. now apply Hinv.
  - cbn [run_command]. unfold parents_remove.
    match goal with
    | |- context [rebuild_role_ancestor_list x ?w0] =>
        pose proof (entry_point_self_rows x w0 Hb) as H
    end.
    destruct (rebuild_role_ancestor_list _ _) as [w' res]. intros _.
    apply H; [exact Hpk|]. intros z Hz _. now apply Hinv.
  - cbn. discriminate.
  - rewrite run_command_with_batch, (batch_enter_outermost _ _ Hb).
    pose proof (run_body_batch_step body
                  (mkWorld (db w) (mkTls (Some true) (Some []))) eq_refl) as H.
    destruct (run_body body _) as [w2 r2].
    destruct H as ((Ha & Hn & Hs & _) & Hb2 & Hset).
    destruct (Hset [] eq_refl) as (s' & Hs' & _ & _ & _ & Hpk2 & Hnew).
    cbn [db] in *.
    unfold batch_exit. cbn [negb roles_needing_rebuilding]. rewrite Hs'.
    unfold atomic.
    pose proof (rebuild_self_rows s' (log_statement Begin (db w2))) as Hcore.
    pose proof (rebuild_frame s' (log_statement Begin (db w2))) as [Hr _].
    destruct (_simultaneous_ancestry_rebuild s' (log_statement Begin (db w2)))
      as [d' c].
    cbn [fst] in *.
    destruct c as [how n|e n]; cbn [finally db]; [|discriminate].
    intros _. split.
    + unfold roles_pk in *. cbn. rewrite Hr. now apply Hpk2.
    + apply Hcore; [now apply Hpk2|].
      intros z Hz Hnot. cbn [ancestors log_statement]. rewrite Ha.
      destruct (Hnew z Hz) as [H|H]; [now apply Hinv | contradiction].
Qed.

Lemma self_invariant_preserved_witness :
  let w := fst (run_body [Save (mkRole 1 "admin" None None);
                          Save (mkRole 2 "read" None None)] fresh_world) in
  let c := WithBatch false [Save (mkRole 3 "use" None None); AddParent 3 1;
                            AddParent 1 2] in
  batching (tls w) = false /\ roles_pk (db w) /\ self_invariant (db w) /\
  snd (run_command c w) = Done /\
  roles_pk (db (fst (run_command c w))) /\
  self_invariant (db (fst (run_command c w))).
Proof.
  assert (Hpk : roles_pk (db (fst (run_body [Save (mkRole 1 "admin" None None);
                          Save (mkRole 2 "read" None None)] fresh_world)))).
  { unfold roles_pk. cbn. repeat constructor; cbn; intuition discriminate. }
  assert (Hinv : self_invariant (db (fst (run_body [Save (mkRole 1 "admin" None None);
                          Save (mkRole 2 "read" None None)] fresh_world)))).
  { intros x Hx. unfold is_role in Hx. cbn in Hx.
    destruct Hx as [<-|[<-|[]]]; reflexivity. }
  split; [reflexivity|]. split; [exact Hpk|]. split; [exact Hinv|].
  split; [reflexivity|].
  pose proof (proj2 self_invariant_preserved
                (WithBatch false [Save (mkRole 3 "use" None None); AddParent 3 1;
                                  AddParent 1 2])
                (fst (run_body [Save (mkRole 1 "admin" None None);
                                Save (mkRole 2 "read" None None)] fresh_world))
                eq_refl Hpk Hinv) as H.
  destruct (run_command _ _) as [w' r] eqn:E in H.
  assert (Hr : r = Done).
  { apply (f_equal snd) in E. cbn [snd] in E. rewrite <- E. reflexivity. }
  apply (f_equal fst) in E. cbn [fst] in E. rewrite E. exact (H Hr).
Defined.

(** ** Edge removal inside a cycle *)

Lemma two_cycle_is_closed d a :
  reachable [mkEdge 1 2; mkEdge 2 1] d a -> d = 1 \/ d = 2 -> a = 1 \/ a = 2.
Proof.
  induction 1 as [d|d p a Hin _ IH]; intros Hd; [exact Hd|].
  apply IH. destruct Hin as [E|[E|[]]]; injection E as <- <-; auto.
Qed.

(** C1 does not hold of the code.  Roles 1 and 2 are each other's
    parent and 3 is a parent of 2; the closure is complete.  Removing
    the edge from 2 to 3 rebuilds role 2: the purge removes the rows
    whose ancestor is 2, but the rows (1, 3) and (2, 3) keep each other
    alive through the cycle, and the loop ends with both stored although
    3 is reachable from neither 1 nor 2. *)
Theorem stale_ancestor_after_edge_removal_in_cycle :
  let role i := mkRole i "member" None None in
  let before :=
    fst (run_body [Save (role 1); Save (role 2); Save (role 3);
                   AddParent 1 2; AddParent 2 1; AddParent 2 3] fresh_world) in
  let edges := [mkEdge 1 2; mkEdge 2 1] in
  let d := mkDb (roles (db before)) edges (members (db before))
                (ancestors (db before)) (next_id (db before)) [] in
  pairs_of (db before) = [(3, 3); (1, 1); (2, 1); (2, 3); (2, 2); (1, 3); (1, 2)] /\
  parents (db before) = [mkEdge 1 2; mkEdge 2 1; mkEdge 2 3] /\
  snd (_simultaneous_ancestry_rebuild [2] d) = Returned Break 3 /\
  pairs_of (fst (_simultaneous_ancestry_rebuild [2] d))
  = [(3, 3); (1, 1); (2, 1); (2, 3); (1, 3); (2, 2); (1, 2)] /\
  snd (run_command (RemoveParent 2 3) before) = Done /\
  parents (db (fst (run_command (RemoveParent 2 3) before))) = edges /\
  row_count (ancestors (db (fst (run_command (RemoveParent 2 3) before)))) 1 3 = 1%nat /\
  row_count (ancestors (db (fst (run_command (RemoveParent 2 3) before)))) 2 3 = 1%nat /\
  ~ reachable edges 1 3 /\ ~ reachable edges 2 3.
Proof.
  cbv zeta. repeat (split; [vm_compute; reflexivity|]). split.
  - intros H. apply two_cycle_is_closed in H; [|now left].
    destruct H; discriminate.
  - intros H. apply two_cycle_is_closed in H; [|now right].
    destruct H; discriminate.
Qed.

(** ** A batch on which the loop does not settle *)

(** Roles 1 to 4 end up on a cycle and 5 stops being an ancestor of 3 in
    the same batch.  The stale ancestor 5 then travels round the cycle
    one layer behind its own removal, every layer changes a row, and the
    rebuild is abandoned with the exception; the transaction is rolled
    back. *)
Example rebuild_aborts_on_four_cycle :
  let role i := mkRole i "member" None None in
  let before :=
    fst (run_body [Save (role 1); Save (role 2); Save (role 3); Save (role 4);
                   Save (role 5); AddParent 4 3; AddParent 3 5; AddParent 2 1]
                  fresh_world) in
  let batch := WithBatch false [RemoveParent 3 5; AddParent 3 2; AddParent 1 4] in
  let after := run_command batch before in
  (pairs_of (db before),
   snd after,
   pairs_of (db (fst after)),
   parents (db (fst after)),
   List.length (statements (db (fst after))) - List.length (statements (db before)))%nat
  = ([(1, 1); (5, 5); (4, 4); (3, 5); (3, 3); (4, 5); (4, 3); (2, 1); (2, 2)],
     Failed InfiniteLoopDetected,
     [(1, 1); (5, 5); (4, 4); (3, 5); (3, 3); (4, 5); (4, 3); (2, 1); (2, 2)],
     [mkEdge 4 3; mkEdge 2 1; mkEdge 3 2; mkEdge 1 4],
     3006%nat).
Proof. vm_compute. reflexivity. Qed.

(** ** Schema constraints along a layer *)

Lemma NoDup_map_filter {A B} (f : A -> B) (g : A -> bool) l :
  NoDup (map f l) -> NoDup (map f (filter g l)).
Proof.
  induction l as [|x l IH]; cbn; intros H; [constructor|].
  inversion H as [|? ? Hn Hd]; subst.
  destruct (g x); cbn; [|now apply IH].
  constructor; [|now apply IH].
  intros Hin. apply Hn. apply in_map_iff in Hin. destruct Hin as [y [Hy Hin]].
  apply filter_In in Hin. rewrite <- Hy. apply in_map. tauto.
Qed.

Lemma after_layer_well_formed ids d :
  well_formed d -> well_formed (after_layer ids d).
Proof.
  intros (Hpk & Hfk & Hn & Hlt).
  destruct (after_layer_eq ids d) as (Ha & Hnext & Hr & Hp).
  split; [|split; [|split]].
  - unfold roles_pk. now rewrite Hr.
  - unfold parents_fk, is_role. rewrite Hr, Hp. exact Hfk.
  - rewrite Ha, map_app. apply NoDup_app.
    + unfold delete_kept. now apply NoDup_map_filter.
    + apply insert_rows_ids_nodup.
    + intros i H1 H2. apply in_map_iff in H1, H2.
      destruct H1 as [e1 [<- H1]], H2 as [e2 [Heq H2]].
      apply delete_kept_incl, Hlt in H1. apply insert_rows_ids in H2. lia.
  - intros e He. rewrite Ha in He. rewrite Hnext. apply in_app_iff in He.
    destruct He as [He|He].
    + apply delete_kept_incl, Hlt in He. lia.
    + apply insert_rows_ids in He. lia.
Qed.

Lemma log_statement_well_formed s d :
  well_formed d -> well_formed (log_statement s d).
Proof. intros H. exact H. Qed.

Lemma purge_well_formed ids d :
  well_formed d -> well_formed (fst (cursor_execute (SeedPurge ids) d)).
Proof.
  intros (Hpk & Hfk & Hn & Hlt). cbn. split; [exact Hpk | split; [exact Hfk|]].
  split; cbn.
  - unfold purge_kept. now apply NoDup_map_filter.
  - intros e He. apply purge_kept_spec in He. apply Hlt. tauto.
Qed.

(** ** Which pairs are stored after a layer *)

Lemma stored_row_count rows x a :
  stored rows x a = negb (row_count rows x a =? 0)%nat.
Proof.
  destruct (stored rows x a) eqn:Hs.
  - destruct (row_count rows x a) eqn:Hc; [|reflexivity].
    apply row_count_stored in Hc. congruence.
  - apply row_count_stored in Hs. now rewrite Hs.
Qed.

Lemma stored_filter_keep (f : RoleAncestorEntry -> bool) rows x a :
  (forall e, In e rows -> descendent e = x -> ancestor e = a -> f e = true) ->
  stored (filter f rows) x a = stored rows x a.
Proof.
  intros H. rewrite !stored_row_count. now rewrite row_count_filter_keep.
Qed.

Lemma stored_delete_kept ids d x a :
  NoDup (map entry_id (ancestors d)) ->
  stored (delete_kept d ids) x a = true <->
  stored (ancestors d) x a = true /\ (id_in x ids = true -> want d x a).
Proof.
  intros Hn. rewrite !stored_spec. split.
  - intros [e (He & Hd & Ha)]. split.
    + exists e. split; [now apply delete_kept_incl in He | auto].
    + intros Hid. subst. apply (delete_kept_elim d ids e); assumption.
  - intros [[e (He & Hd & Ha)] Hw]. exists e. repeat split; try assumption.
    apply delete_kept_intro; [assumption|]. subst.
    destruct (id_in (descendent e) ids); [right; now apply Hw | now left].
Qed.

Lemma stored_delete_outside ids d x a :
  id_in x ids = false ->
  stored (delete_kept d ids) x a = stored (ancestors d) x a.
Proof.
  intros Hid. unfold delete_kept. apply stored_filter_keep.
  intros e _ Hd _. now rewrite Hd, Hid.
Qed.

Lemma want_ext d d' x a :
  roles d' = roles d -> parents d' = parents d ->
  (forall p, In p (parents d) -> from_role_id p = x ->
             stored (ancestors d') (to_role_id p) a
             = stored (ancestors d) (to_role_id p) a) ->
  want d' x a <-> want d x a.
Proof.
  intros Hr Hp Hs. unfold want, is_role. rewrite Hr, Hp.
  split; (intros [H|[p (Hin & Hf & Hst)]]; [now left | right]);
    exists p; repeat split; try assumption.
  - now rewrite <- Hs.
  - now rewrite Hs.
Qed.

Lemma want_is_role d x a : parents_fk d -> want d x a -> is_role d x.
Proof.
  intros Hfk [[_ H]|[p (Hp & <- & _)]]; [assumption|]. now apply Hfk.
Qed.

(** With the foreign key on the parents table, the INSERT adds the
    pairs that are wanted and not stored. *)
Lemma stored_inserted ids d next x a :
  parents_fk d ->
  stored (insert_rows next (insert_missing d ids)) x a = true <->
  id_in x ids = true /\ want d x a /\ stored (ancestors d) x a = false.
Proof.
  intros Hfk. rewrite insert_rows_stored. unfold insert_missing. split.
  - intros [c (Hc & Hf & Ht)]. apply filter_In in Hc. destruct Hc as [Hc Hns].
    apply negb_true_iff in Hns. rewrite Hf, Ht in Hns.
    apply new_ancestry_list_spec in Hc. destruct Hc as [r (Hr & Hcan & Hid & Hw)].
    assert (Hx : id r = x) by (rewrite Hcan in Hf; exact Hf).
    rewrite Ht, Hx in *. repeat split; try assumption.
    destruct Hw as [<-|[p H]].
    + left. split; [reflexivity|]. apply is_role_spec. now exists r.
    + right. now exists p.
  - intros (Hid & Hw & Hns).
    pose proof (want_is_role d x a Hfk Hw) as Hr.
    apply is_role_spec in Hr. destruct Hr as [r [Hr Hx]].
    exists (canonical r a). repeat split; [|exact Hx].
    apply filter_In. split.
    + apply new_ancestry_list_spec. exists r. cbn [to_id canonical].
      repeat split; try assumption; [now rewrite Hx|].
      destruct Hw as [[<- _]|[p H]]; [now left | right].
      rewrite Hx. now exists p.
    + cbn [from_id to_id canonical]. now rewrite Hx, Hns.
Qed.

Lemma after_delete_parents_fk ids d : parents_fk d -> parents_fk (after_delete ids d).
Proof. intros H. exact H. Qed.

Lemma stored_after_layer ids d x a :
  well_formed d ->
  stored (ancestors (after_layer ids d)) x a = true <->
  (stored (ancestors d) x a = true /\ (id_in x ids = true -> want d x a)) \/
  (id_in x ids = true /\ want (after_delete ids d) x a).
Proof.
  intros (Hpk & Hfk & Hn & _).
  destruct (after_layer_eq ids d) as (-> & _).
  rewrite stored_app, orb_true_iff.
  change (next_id d) with (next_id (after_delete ids d)).
  rewrite (stored_inserted ids (after_delete ids d) _ x a
             (after_delete_parents_fk ids d Hfk)).
  change (ancestors (after_delete ids d)) with (delete_kept d ids).
  rewrite (stored_delete_kept ids d x a Hn).
  destruct (stored (delete_kept d ids) x a) eqn:Hs.
  - apply (stored_delete_kept ids d x a Hn) in Hs. intuition.
  - intuition.
Qed.

Lemma stored_after_layer_outside ids d x a :
  id_in x ids = false ->
  stored (ancestors (after_layer ids d)) x a = stored (ancestors d) x a.
Proof.
  intros Hid. rewrite !stored_row_count. now rewrite layer_outside_row_count.
Qed.

(** ** Settled descendents *)

Lemma children_ids_spec d ids x :
  In x (children_ids d ids) <->
  exists r p, In r (roles d) /\ id_in (id r) ids = true /\
              In p (parents d) /\ to_role_id p = id r /\ from_role_id p = x.
Proof.
  unfold children_ids. rewrite nodup_In, in_flat_map. split.
  - intros [r [Hr Hin]]. destruct (id_in (id r) ids) eqn:Hid; [|destruct Hin].
    apply in_map_iff in Hin. destruct Hin as [p [Hf Hp]].
    apply filter_In in Hp. destruct Hp as [Hp Ht]. apply Z.eqb_eq in Ht.
    exists r, p. auto.
  - intros [r [p (Hr & Hid & Hp & Ht & Hf)]]. exists r. split; [assumption|].
    rewrite Hid. apply in_map_iff. exists p. split; [assumption|].
    apply filter_In. split; [assumption | now apply Z.eqb_eq].
Qed.

Lemma not_child_calm d ids x :
  parents_fk d -> ~ In x (children_ids d ids) -> calm d ids x.
Proof.
  intros Hfk Hn p Hp Hf.
  destruct (id_in (to_role_id p) ids) eqn:Hid; [|reflexivity].
  exfalso. apply Hn. apply children_ids_spec.
  destruct (Hfk p Hp) as [_ Hr]. apply is_role_spec in Hr.
  destruct Hr as [r [Hr Hx]]. exists r, p. rewrite Hx. auto.
Qed.

Lemma want_after_delete_calm ids d x a :
  calm d ids x -> want (after_delete ids d) x a <-> want d x a.
Proof.
  intros Hcalm. apply want_ext; try reflexivity.
  intros p Hp Hf. apply stored_delete_outside. now apply Hcalm.
Qed.

Lemma want_after_layer_calm ids d x a :
  calm d ids x -> want (after_layer ids d) x a <-> want d x a.
Proof.
  intros Hcalm. apply want_ext; try reflexivity.
  intros p Hp Hf. apply stored_after_layer_outside. now apply Hcalm.
Qed.

(** A layer settles its descendents whose parents it does not rebuild. *)
Lemma layer_settles C ids d x :
  well_formed d -> id_in x ids = true -> calm d ids x ->
  settled C (after_layer ids d) x.
Proof.
  intros Hwf Hid Hcalm a _.
  rewrite (stored_after_layer ids d x a Hwf).
  rewrite (want_after_delete_calm ids d x a Hcalm).
  rewrite (want_after_layer_calm ids d x a Hcalm).
  intuition.
Qed.

Lemma layer_keeps_settled C ids d x :
  id_in x ids = false -> calm d ids x ->
  settled C d x -> settled C (after_layer ids d) x.
Proof.
  intros Hid Hcalm Hs a Ha.
  rewrite (stored_after_layer_outside ids d x a Hid).
  rewrite (want_after_layer_calm ids d x a Hcalm).
  now apply Hs.
Qed.

Lemma stored_columns C rows x a :
  C a = true -> stored (columns C rows) x a = stored rows x a.
Proof.
  intros Ha. unfold columns. apply stored_filter_keep.
  intros e _ _ He. now rewrite He.
Qed.

Lemma columns_stored C rows rows' x a :
  columns C rows = columns C rows' -> C a = true ->
  stored rows x a = stored rows' x a.
Proof.
  intros H Ha. rewrite <- (stored_columns C rows x a Ha),
    <- (stored_columns C rows' x a Ha). now rewrite H.
Qed.

(** In quiet columns the DELETE keeps every row. *)
Lemma quiet_keeps C ids d e :
  quiet C d ids -> In e (ancestors d) -> C (ancestor e) = true ->
  In e (delete_kept d ids).
Proof.
  intros Hq He Hc. apply delete_kept_intro; [assumption|].
  destruct (id_in (descendent e) ids) eqn:Hid; [right | now left].
  apply (Hq _ Hid _ Hc). apply stored_spec. now exists e.
Qed.

Lemma quiet_stored_delete C ids d x a :
  quiet C d ids -> C a = true ->
  stored (delete_kept d ids) x a = stored (ancestors d) x a.
Proof.
  intros Hq Ha. unfold delete_kept. apply stored_filter_keep.
  intros e He _ Hea.
  assert (Hk : In e (delete_kept d ids)).
  { apply (quiet_keeps C); try assumption. now rewrite Hea. }
  apply filter_In in Hk. tauto.
Qed.

(** In quiet columns the INSERT adds nothing. *)
Lemma quiet_inserts_nothing C ids d c :
  well_formed d -> quiet C d ids ->
  In c (insert_missing (after_delete ids d) ids) -> C (to_id c) = false.
Proof.
  intros (Hpk & Hfk & Hn & _) Hq Hc.
  destruct (C (to_id c)) eqn:Ha; [exfalso | reflexivity].
  assert (Hs : stored (insert_rows (next_id d)
                         (insert_missing (after_delete ids d) ids))
                      (from_id c) (to_id c) = true).
  { apply insert_rows_stored. now exists c. }
  apply (stored_inserted ids (after_delete ids d) _ _ _
           (after_delete_parents_fk ids d Hfk)) in Hs.
  destruct Hs as (Hid & Hw & Hns).
  change (ancestors (after_delete ids d)) with (delete_kept d ids) in Hns.
  rewrite (quiet_stored_delete C ids d _ _ Hq Ha) in Hns.
  assert (Hw' : want d (from_id c) (to_id c)).
  { revert Hw. apply want_ext; try reflexivity.
    intros p _ _. symmetry. exact (quiet_stored_delete C ids d _ _ Hq Ha). }
  apply (Hq _ Hid _ Ha) in Hw'. congruence.
Qed.

(** A layer leaves quiet columns as they are. *)
Lemma quiet_columns C ids d :
  well_formed d -> quiet C d ids ->
  columns C (ancestors (after_layer ids d)) = columns C (ancestors d).
Proof.
  intros Hwf Hq. destruct (after_layer_eq ids d) as (-> & _).
  unfold columns. rewrite filter_app.
  assert (Hnew : filter (fun e => C (ancestor e))
                   (insert_rows (next_id d)
                      (insert_missing (after_delete ids d) ids)) = []).
  { apply filter_none. intros e He. apply insert_rows_in in He.
    exact (quiet_inserts_nothing C ids d _ Hwf Hq He). }
  rewrite Hnew, app_nil_r. unfold delete_kept. apply filter_filter_keep.
  intros e He Hc.
  pose proof (quiet_keeps C ids d e Hq He Hc) as Hk.
  apply filter_In in Hk. tauto.
Qed.

Lemma idle_quiet C ids d :
  well_formed d ->
  delete_kept d ids = ancestors d ->
  insert_missing (after_delete ids d) ids = [] ->
  quiet C d ids.
Proof.
  intros (Hpk & Hfk & Hn & _) Hk Hm x Hid a _. split.
  - intros Hs. rewrite <- Hk in Hs.
    apply (stored_delete_kept ids d x a Hn) in Hs. tauto.
  - intros Hw. destruct (stored (ancestors d) x a) eqn:Hs; [reflexivity|].
    exfalso.
    assert (H : stored (insert_rows (next_id d)
                          (insert_missing (after_delete ids d) ids)) x a = true).
    { apply (stored_inserted ids (after_delete ids d) _ _ _
               (after_delete_parents_fk ids d Hfk)).
      change (ancestors (after_delete ids d)) with (delete_kept d ids).
      rewrite Hk. repeat split; try assumption.
      revert Hw. apply want_ext; try reflexivity.
      intros p _ _. change (ancestors (after_delete ids d)) with (delete_kept d ids).
      now rewrite Hk. }
    rewrite Hm in H. discriminate.
Qed.

Lemma quiet_idle ids d :
  well_formed d -> quiet (fun _ => true) d ids ->
  delete_kept d ids = ancestors d /\
  insert_missing (after_delete ids d) ids = [].
Proof.
  intros Hwf Hq. split.
  - unfold delete_kept. apply filter_full. intros e He.
    pose proof (quiet_keeps _ ids d e Hq He eq_refl) as Hk.
    apply filter_In in Hk. tauto.
  - destruct (insert_missing (after_delete ids d) ids) as [|c rest] eqn:E;
      [reflexivity | exfalso].
    assert (Hc : In c (insert_missing (after_delete ids d) ids))
      by (rewrite E; now left).
    pose proof (quiet_inserts_nothing _ ids d c Hwf Hq Hc). discriminate.
Qed.

Lemma settled_weaken C d x : settled (fun _ => true) d x -> settled C d x.
Proof. intros H a _. now apply H. Qed.

Lemma settled_split C d x :
  settled C d x -> settled (fun a => negb (C a)) d x -> settled (fun _ => true) d x.
Proof.
  intros H1 H2 a _. destruct (C a) eqn:Ha; [now apply H1 | apply H2].
  now rewrite Ha.
Qed.

(** Settledness only looks at the selected columns. *)
Lemma settled_ext C d d' x :
  roles d' = roles d -> parents d' = parents d ->
  (forall y a, C a = true -> stored (ancestors d') y a = stored (ancestors d) y a) ->
  settled C d x -> settled C d' x.
Proof.
  intros Hr Hp Hs H a Ha. rewrite (Hs x a Ha).
  rewrite (want_ext d d' x a Hr Hp); [now apply H|].
  intros p _ _. now apply Hs.
Qed.

(** ** The loop and settled descendents *)

Lemma rebuild_loop_layer fuel loop_ct d x ids :
  (loop_ct <= 1000)%nat ->
  rebuild_loop (S fuel) loop_ct d (x :: ids) =
  if idle (x :: ids) d then (after_layer (x :: ids) d, Returned Break (S loop_ct))
  else rebuild_loop fuel (S loop_ct)
         (log_statement (SelectChildren (x :: ids)) (after_layer (x :: ids) d))
         (children_ids d (x :: ids)).
Proof.
  intros H. rewrite rebuild_loop_step by assumption. rewrite layer_counts.
  reflexivity.
Qed.

Lemma idle_true ids d :
  idle ids d = true <->
  delete_kept d ids = ancestors d /\ insert_missing (after_delete ids d) ids = [].
Proof. apply layer_idle. Qed.

Lemma rebuild_loop_well_formed fuel : forall loop_ct d ids,
  well_formed d -> well_formed (fst (rebuild_loop fuel loop_ct d ids)).
Proof.
  induction fuel as [|f IH]; intros loop_ct d ids Hwf.
  - destruct ids as [|x ids]; cbn [rebuild_loop]; [exact Hwf|].
    destruct (1000 <? loop_ct)%nat; exact Hwf.
  - destruct ids as [|x ids]; [rewrite rebuild_loop_nil; exact Hwf|].
    destruct (Nat.le_gt_cases loop_ct 1000) as [Hle|Hgt].
    2:{ rewrite rebuild_loop_raise by assumption. exact Hwf. }
    rewrite rebuild_loop_layer by assumption.
    pose proof (after_layer_well_formed (x :: ids) d Hwf) as Hwf'.
    destruct (idle (x :: ids) d); [exact Hwf'|].
    apply IH. exact Hwf'.
Qed.

(** When the loop returns, every descendent it visited is settled. *)
Lemma visited_settled fuel : forall loop_ct d ids d' how n (V : Z -> Prop),
  well_formed d ->
  rebuild_loop fuel loop_ct d ids = (d', Returned how n) ->
  (forall x, V x -> id_in x ids = false -> settled (fun _ => true) d x) ->
  forall x, V x \/ id_in x ids = true -> settled (fun _ => true) d' x.
Proof.
  induction fuel as [|f IH]; intros loop_ct d ids d' how n V Hwf Hrun HV x Hx.
  - destruct ids as [|i ids].
    + rewrite rebuild_loop_nil in Hrun. injection Hrun as <- _ _.
      destruct Hx as [Hx|Hx]; [now apply HV | discriminate].
    + cbn [rebuild_loop] in Hrun. destruct (1000 <? loop_ct)%nat; discriminate.
  - destruct ids as [|i ids].
    { rewrite rebuild_loop_nil in Hrun. injection Hrun as <- _ _.
      destruct Hx as [Hx|Hx]; [now apply HV | discriminate]. }
    destruct (Nat.le_gt_cases loop_ct 1000) as [Hle|Hgt].
    2:{ rewrite rebuild_loop_raise in Hrun by assumption. discriminate. }
    rewrite rebuild_loop_layer in Hrun by assumption.
    destruct (idle (i :: ids) d) eqn:Hidle.
    + injection Hrun as <- _ _. apply idle_true in Hidle. destruct Hidle as [Hk Hm].
      destruct (layer_idle_tables _ _ Hk Hm) as [Ha _].
      apply (settled_ext _ d); try reflexivity.
      * intros y a _. now rewrite Ha.
      * destruct (id_in x (i :: ids)) eqn:Hid.
        -- exact (idle_quiet _ _ _ Hwf Hk Hm x Hid).
        -- destruct Hx as [Hx|Hx]; [now apply HV | discriminate].
    + pose proof (after_layer_well_formed (i :: ids) d Hwf) as Hwf'.
      apply (IH _ (log_statement (SelectChildren (i :: ids))
                                 (after_layer (i :: ids) d))
                _ _ _ _ (fun y => V y \/ id_in y (i :: ids) = true) Hwf' Hrun);
        [|now left].
      intros y Hy Hnc.
      assert (Hcalm : calm d (i :: ids) y).
      { apply not_child_calm; [apply Hwf | now apply id_in_false]. }
      destruct (id_in y (i :: ids)) eqn:Hid.
      * exact (layer_settles _ _ _ _ Hwf Hid Hcalm).
      * apply (layer_keeps_settled _ _ _ _ Hid Hcalm).
        destruct Hy as [Hy|Hy]; [now apply HV | discriminate].
Qed.

(** Columns in which every descendent is settled do not change any
    more. *)
Lemma settled_columns_frozen C fuel : forall loop_ct d ids,
  well_formed d -> (forall x, settled C d x) ->
  columns C (ancestors (fst (rebuild_loop fuel loop_ct d ids)))
  = columns C (ancestors d).
Proof.
  induction fuel as [|f IH]; intros loop_ct d ids Hwf Hs.
  - destruct ids as [|i ids]; cbn [rebuild_loop]; [reflexivity|].
    destruct (1000 <? loop_ct)%nat; reflexivity.
  - destruct ids as [|i ids]; [now rewrite rebuild_loop_nil|].
    destruct (Nat.le_gt_cases loop_ct 1000) as [Hle|Hgt].
    2:{ now rewrite rebuild_loop_raise by assumption. }
    rewrite rebuild_loop_layer by assumption.
    assert (Hq : quiet C d (i :: ids)) by (intros y _; apply Hs).
    pose proof (quiet_columns C _ _ Hwf Hq) as Hcol.
    destruct (idle (i :: ids) d); [exact Hcol|].
    rewrite IH; [exact Hcol | now apply after_layer_well_formed |].
    intros y. apply (settled_ext C d); try reflexivity; [|apply Hs].
    intros z a Ha. cbn [ancestors log_statement].
    now apply (columns_stored C).
Qed.

(** Two tables that store the same pairs in the columns [C] still do
    after the same layer. *)
Lemma layer_columns_agree (C : Z -> bool) ids d u :
  well_formed d -> well_formed u ->
  roles u = roles d -> parents u = parents d ->
  (forall x a, C a = true ->
               stored (ancestors u) x a = stored (ancestors d) x a) ->
  forall x a, C a = true ->
    stored (ancestors (after_layer ids u)) x a
    = stored (ancestors (after_layer ids d)) x a.
Proof.
  intros Hwd Hwu Hr Hp Hagree x a Ha.
  assert (Hw : forall y, want u y a <-> want d y a).
  { intros y. apply want_ext; try assumption. intros p _ _. now apply Hagree. }
  assert (Hk : forall y, stored (delete_kept u ids) y a
                         = stored (delete_kept d ids) y a).
  { intros y. apply eq_true_iff_eq.
    rewrite (stored_delete_kept ids u y a), (stored_delete_kept ids d y a);
      [|apply Hwd|apply Hwu].
    now rewrite (Hagree y a Ha), (Hw y). }
  assert (Hw1 : want (after_delete ids u) x a <-> want (after_delete ids d) x a).
  { apply want_ext; try assumption. intros p _ _. apply Hk. }
  apply eq_true_iff_eq.
  rewrite (stored_after_layer ids u x a Hwu), (stored_after_layer ids d x a Hwd).
  now rewrite (Hagree x a Ha), (Hw x), Hw1.
Qed.

Lemma children_ids_ext d u ids :
  roles u = roles d -> parents u = parents d ->
  children_ids u ids = children_ids d ids.
Proof. intros Hr Hp. unfold children_ids. now rewrite Hr, Hp. Qed.

(** ** Running the loop again *)

(** The first run goes from [d] to [Y].  A second loop starts from a
    table [u] that agrees with [d] on the columns [C] (those of the
    seed) and with [Y] on the others.  It returns as well, without more
    layers, on a table that agrees with [Y] everywhere. *)
Lemma replay (C : Z -> bool) fuel :
  forall loop_ct d ids Y how n fuel' loop_ct' u,
  well_formed d -> well_formed u ->
  roles u = roles d -> parents u = parents d ->
  rebuild_loop fuel loop_ct d ids = (Y, Returned how n) ->
  (1001 <= fuel' + loop_ct')%nat -> (loop_ct' <= loop_ct)%nat ->
  (forall x a, C a = true ->
               stored (ancestors u) x a = stored (ancestors d) x a) ->
  columns (fun a => negb (C a)) (ancestors u)
  = columns (fun a => negb (C a)) (ancestors Y) ->
  (forall x, id_in x ids = false -> settled C d x) ->
  exists Z how' n',
    rebuild_loop fuel' loop_ct' u ids = (Z, Returned how' n') /\
    columns (fun a => negb (C a)) (ancestors Z)
    = columns (fun a => negb (C a)) (ancestors Y) /\
    (forall x a, C a = true ->
                 stored (ancestors Z) x a = stored (ancestors Y) x a).
Proof.
  induction fuel as [|f IH];
    intros loop_ct d ids Y how n fuel' loop_ct' u
           Hwd Hwu Hr Hp Hrun Hfuel Hct Hagree Hnc Hfront.
  - destruct ids as [|i ids].
    + rewrite rebuild_loop_nil in Hrun. injection Hrun as <- _ _.
      exists u, WhileFalse, loop_ct'. rewrite rebuild_loop_nil. auto.
    + cbn [rebuild_loop] in Hrun. destruct (1000 <? loop_ct)%nat; discriminate.
  - destruct ids as [|i ids].
    { rewrite rebuild_loop_nil in Hrun. injection Hrun as <- _ _.
      exists u, WhileFalse, loop_ct'. rewrite rebuild_loop_nil. auto. }
    destruct (Nat.le_gt_cases loop_ct 1000) as [Hle|Hgt].
    2:{ rewrite rebuild_loop_raise in Hrun by assumption. discriminate. }
    set (L := i :: ids) in *.
    assert (HB : forall x, id_in x L = true -> settled (fun _ => true) Y x).
    { intros x Hx.
      apply (visited_settled (S f) loop_ct d L Y how n (fun _ => False) Hwd Hrun);
        [intros y [] | now right]. }
    assert (HY : roles Y = roles d /\ parents Y = parents d).
    { pose proof (rebuild_loop_frame (S f) loop_ct d L) as HF. cbv zeta in HF.
      rewrite Hrun in HF. cbn [fst] in HF. tauto. }
    destruct HY as [HYr HYp].
    assert (Hqn : quiet (fun a => negb (C a)) u L).
    { intros x Hx. apply (settled_ext _ Y u); try congruence.
      - intros y a Ha. now apply (columns_stored (fun a => negb (C a))).
      - apply settled_weaken. now apply HB. }
    pose proof (quiet_columns _ L u Hwu Hqn) as HU1.
    pose proof (layer_columns_agree C L d u Hwd Hwu Hr Hp Hagree) as HU2.
    destruct fuel' as [|f']; [lia|].
    subst L.
    rewrite rebuild_loop_layer in Hrun by lia.
    rewrite (rebuild_loop_layer f') by lia.
    set (L := i :: ids) in *.
    destruct (idle L d) eqn:Hid_d.
    + injection Hrun as <- _ _.
      apply idle_true in Hid_d. destruct Hid_d as [Hk Hm].
      assert (Hqu : quiet (fun _ => true) u L).
      { intros x Hx. apply (settled_split C).
        - apply (settled_ext C d u); try assumption.
          apply settled_weaken.
          exact (idle_quiet (fun _ => true) L d Hwd Hk Hm x Hx).
        - now apply Hqn. }
      apply quiet_idle in Hqu; [|assumption].
      apply idle_true in Hqu. rewrite Hqu.
      exists (after_layer L u), Break, (S loop_ct'). split; [reflexivity|].
      split; [now rewrite HU1 | exact HU2].
    + destruct (idle L u) eqn:Hid_u.
      * exists (after_layer L u), Break, (S loop_ct'). split; [reflexivity|].
        split; [now rewrite HU1|].
        intros x a Ha.
        apply idle_true in Hid_u. destruct Hid_u as [Hk Hm].
        destruct (layer_idle_tables _ _ Hk Hm) as [Htab _].
        assert (Hall : forall y, settled C d y).
        { intros y. destruct (id_in y L) eqn:Hy; [|now apply Hfront].
          apply (settled_ext C u d); try congruence.
          - intros z b Hb. symmetry. now apply Hagree.
          - apply settled_weaken.
            exact (idle_quiet (fun _ => true) L u Hwu Hk Hm y Hy). }
        assert (Hq : quiet C d L) by (intros y _; apply Hall).
        pose proof (quiet_columns C L d Hwd Hq) as Hcol.
        pose proof (settled_columns_frozen C f (S loop_ct)
                      (log_statement (SelectChildren L) (after_layer L d))
                      (children_ids d L)
                      (after_layer_well_formed L d Hwd)) as Hfrozen.
        rewrite Hrun in Hfrozen. cbn [fst ancestors log_statement] in Hfrozen.
        rewrite Hcol in Hfrozen.
        rewrite Htab, (Hagree x a Ha). symmetry.
        apply (columns_stored C); [|assumption].
        apply Hfrozen. intros y. apply (settled_ext C d); try reflexivity; [|apply Hall].
        intros z b Hb. cbn [ancestors log_statement].
        now apply (columns_stored C).
      * rewrite (children_ids_ext d u L Hr Hp).
        apply (IH (S loop_ct)
                  (log_statement (SelectChildren L) (after_layer L d))
                  (children_ids d L) Y how n f' (S loop_ct')
                  (log_statement (SelectChildren L) (after_layer L u))
                  (after_layer_well_formed L d Hwd)
                  (after_layer_well_formed L u Hwu) Hr Hp Hrun);
          try lia.
        -- exact HU2.
        -- cbn [ancestors log_statement]. now rewrite HU1.
        -- intros x Hx.
           assert (Hcalm : calm d L x).
           { apply not_child_calm; [apply Hwd | now apply id_in_false]. }
           destruct (id_in x L) eqn:Hy.
           ++ exact (layer_settles C L d x Hwd Hy Hcalm).
           ++ exact (layer_keeps_settled C L d x Hy Hcalm (Hfront x Hy)).
Qed.

(** ** Tidy columns *)

Lemma after_layer_tidy C ids d :
  roles_pk d -> tidy C d -> tidy C (after_layer ids d).
Proof.
  intros Hpk [Hu Hc]. split.
  - intros x a Ha. apply layer_keeps_pairs_unique; [assumption | now apply Hu].
  - intros e He Ha. destruct (after_layer_eq ids d) as (Heq & _ & Hr & _).
    rewrite Hr. rewrite Heq in He. apply in_app_iff in He. destruct He as [He|He].
    + apply Hc; [now apply delete_kept_incl in He | assumption].
    + apply insert_rows_in in He. apply filter_In in He. destruct He as [He _].
      apply new_ancestry_list_spec in He. destruct He as [r (Hin & Hcan & _)].
      exists r. split; [exact Hin | exact Hcan].
Qed.

Lemma rebuild_loop_tidy C fuel : forall loop_ct d ids,
  roles_pk d -> tidy C d -> tidy C (fst (rebuild_loop fuel loop_ct d ids)).
Proof.
  induction fuel as [|f IH]; intros loop_ct d ids Hpk Ht.
  - destruct ids as [|x ids]; cbn [rebuild_loop]; [exact Ht|].
    destruct (1000 <? loop_ct)%nat; exact Ht.
  - destruct ids as [|x ids]; [rewrite rebuild_loop_nil; exact Ht|].
    destruct (Nat.le_gt_cases loop_ct 1000) as [Hle|Hgt].
    2:{ rewrite rebuild_loop_raise by assumption. exact Ht. }
    rewrite rebuild_loop_layer by assumption.
    pose proof (after_layer_tidy C (x :: ids) d Hpk Ht) as Ht'.
    destruct (idle (x :: ids) d); [exact Ht'|].
    apply IH; [exact Hpk | exact Ht'].
Qed.

Lemma purge_stored ids d x a :
  stored (purge_kept d ids) x a
  = if id_in a ids then false else stored (ancestors d) x a.
Proof.
  unfold purge_kept. destruct (id_in a ids) eqn:Hid.
  - destruct (stored _ x a) eqn:Hs; [|reflexivity].
    apply stored_spec in Hs. destruct Hs as [e (He & _ & Ha)].
    apply filter_In in He. destruct He as [_ He]. rewrite Ha, Hid in He. discriminate.
  - apply stored_filter_keep. intros e _ _ Ha. now rewrite Ha, Hid.
Qed.

Lemma purge_tidy ids d :
  tidy (fun a => id_in a ids) (fst (cursor_execute (SeedPurge ids) d)).
Proof.
  split; cbn [cursor_execute fst ancestors log_statement set_ancestors].
  - intros x a Ha.
    assert (H : row_count (purge_kept d ids) x a = 0%nat); [|lia].
    apply row_count_stored. now rewrite purge_stored, Ha.
  - intros e He Ha. apply purge_kept_spec in He. destruct He as [_ He].
    apply id_in_true in Ha. contradiction.
Qed.

Lemma columns_split C rows :
  Permutation rows (columns (fun a => negb (C a)) rows ++ columns C rows).
Proof.
  unfold columns. induction rows as [|e rows IH]; cbn; [constructor|].
  destruct (C (ancestor e)); cbn.
  - now apply Permutation_cons_app.
  - now constructor.
Qed.

Lemma columns_nodup C rows :
  (forall x a, C a = true -> (row_count rows x a <= 1)%nat) ->
  NoDup (map row_of (columns C rows)).
Proof.
  unfold columns. induction rows as [|e rows IH]; cbn; intros H; [constructor|].
  assert (H' : forall x a, C a = true -> (row_count rows x a <= 1)%nat).
  { intros x a Ha. specialize (H x a Ha). unfold row_count in *. cbn in H.
    destruct ((x =? descendent e) && (a =? ancestor e)); cbn in H; lia. }
  destruct (C (ancestor e)) eqn:Hc; cbn; [|now apply IH].
  constructor; [|now apply IH].
  intros Hin. apply in_map_iff in Hin. destruct Hin as [e' [Heq He']].
  apply filter_In in He'. destruct He' as [He' _].
  specialize (H (descendent e) (ancestor e) Hc). unfold row_count in H. cbn in H.
  rewrite !Z.eqb_refl in H. cbn in H.
  assert (1 <= List.length
            (filter (fun e0 => Z.eqb (descendent e) (descendent e0)
                               && Z.eqb (ancestor e) (ancestor e0)) rows))%nat; [|lia].
  apply (filter_nonempty _ _ e'); [assumption|].
  apply (f_equal from_id) in Heq as Hf. apply (f_equal to_id) in Heq as Ht.
  cbn in Hf, Ht. rewrite Hf, Ht. now rewrite !Z.eqb_refl.
Qed.

Lemma tidy_rows_incl C Y Z c :
  roles_pk Y -> roles Z = roles Y -> tidy C Y -> tidy C Z ->
  (forall x a, C a = true ->
               stored (ancestors Z) x a = stored (ancestors Y) x a) ->
  In c (map row_of (columns C (ancestors Y))) ->
  In c (map row_of (columns C (ancestors Z))).
Proof.
  intros Hpk Hr [_ HcY] [_ HcZ] Hs Hin.
  apply in_map_iff in Hin. destruct Hin as [e [<- He]].
  apply filter_In in He. destruct He as [He Ha].
  assert (Hst : stored (ancestors Z) (descendent e) (ancestor e) = true).
  { rewrite (Hs _ _ Ha). apply stored_spec. now exists e. }
  apply stored_spec in Hst. destruct Hst as [e' (He' & Hd & Han)].
  apply in_map_iff. exists e'. split; [|apply filter_In; split; [assumption|]].
  2:{ now rewrite Han. }
  destruct (HcY e He Ha) as [r (Hin & Hcan)].
  assert (Ha' : C (ancestor e') = true) by now rewrite Han.
  destruct (HcZ e' He' Ha') as [r' (Hin' & Hcan')].
  rewrite Hr in Hin'.
  assert (r' = r).
  { apply (role_unique Y); try assumption.
    apply (f_equal from_id) in Hcan, Hcan'. cbn in Hcan, Hcan'. congruence. }
  subst r'. rewrite Hcan, Hcan'. now rewrite Han.
Qed.

Lemma same_rows C Y Z :
  roles_pk Y -> roles Z = roles Y -> tidy C Y -> tidy C Z ->
  columns (fun a => negb (C a)) (ancestors Z)
  = columns (fun a => negb (C a)) (ancestors Y) ->
  (forall x a, C a = true ->
               stored (ancestors Z) x a = stored (ancestors Y) x a) ->
  Permutation (map row_of (ancestors Y)) (map row_of (ancestors Z)).
Proof.
  intros Hpk Hr HtY HtZ Hnc Hs.
  rewrite (columns_split C (ancestors Y)) at 1.
  rewrite (columns_split C (ancestors Z)) at 1.
  rewrite !map_app, Hnc. apply Permutation_app_head.
  apply NoDup_Permutation.
  - apply columns_nodup, HtY.
  - apply columns_nodup, HtZ.
  - intros c. split.
    + now apply tidy_rows_incl.
    + apply tidy_rows_incl; try assumption.
      * unfold roles_pk. now rewrite Hr.
      * now symmetry.
      * intros x a Ha. symmetry. now apply Hs.
Qed.

Lemma purge_settles_outside ids d x :
  id_in x ids = false ->
  settled (fun a => id_in a ids) (fst (cursor_execute (SeedPurge ids) d)) x.
Proof.
  intros Hx a Ha.
  cbn [cursor_execute fst ancestors log_statement set_ancestors].
  rewrite purge_stored, Ha. split; [discriminate|].
  intros [[-> _]|[p (_ & _ & Hs)]]; [congruence|].
  cbn [ancestors log_statement set_ancestors] in Hs.
  rewrite purge_stored, Ha in Hs. discriminate.
Qed.

(** C7, as the code has it.  On a database that meets the constraints of
    the schema (primary keys of the roles and of the closure rows,
    foreign keys of the parent edges), when a rebuild of a seed returns,
    then a second rebuild of the same seed returns as well, and the
    closure holds the same rows, each as many times as before (surrogate
    keys aside). *)
Theorem rebuild_idempotent : forall ids d d1 how n,
  well_formed d ->
  _simultaneous_ancestry_rebuild ids d = (d1, Returned how n) ->
  exists d2 how' n',
    _simultaneous_ancestry_rebuild ids d1 = (d2, Returned how' n') /\
    Permutation (map row_of (ancestors d1)) (map row_of (ancestors d2)).
Proof.
  intros ids d d1 how n Hwf Hrun. destruct ids as [|i ids].
  { injection Hrun as <- _ _. exists d, EmptySeed, 0%nat. split; reflexivity. }
  set (S := i :: ids) in *.
  set (C := fun a => id_in a S).
  change (_simultaneous_ancestry_rebuild S d)
    with (rebuild_loop 1001 0 (fst (cursor_execute (SeedPurge S) d)) S) in Hrun.
  change (_simultaneous_ancestry_rebuild S d1)
    with (rebuild_loop 1001 0 (fst (cursor_execute (SeedPurge S) d1)) S).
  pose proof (purge_well_formed S d Hwf) as Hwp.
  assert (Hwf1 : well_formed d1).
  { pose proof (rebuild_loop_well_formed 1001 0 _ S Hwp) as H.
    now rewrite Hrun in H. }
  assert (Hfr : roles d1 = roles d /\ parents d1 = parents d).
  { pose proof (rebuild_loop_frame 1001 0 (fst (cursor_execute (SeedPurge S) d)) S)
      as H. cbv zeta in H. rewrite Hrun in H. cbn [fst] in H.
    destruct H as (H1 & H2 & _). split; [exact H1 | exact H2]. }
  destruct Hfr as [Hr1 Hp1].
  assert (Ht1 : tidy C d1).
  { pose proof (rebuild_loop_tidy C 1001 0 _ S (proj1 Hwp) (purge_tidy S d)) as H.
    now rewrite Hrun in H. }
  destruct (replay C 1001 0 (fst (cursor_execute (SeedPurge S) d)) S d1 how n
              1001 0 (fst (cursor_execute (SeedPurge S) d1))
              Hwp (purge_well_formed S d1 Hwf1) Hr1 Hp1 Hrun
              ltac:(lia) ltac:(lia))
    as (d2 & how' & n' & Hrun2 & Hnc & Hs).
  - intros x a Ha. cbn [cursor_execute fst ancestors log_statement set_ancestors].
    rewrite !purge_stored. unfold C in Ha. now rewrite Ha.
  - cbn [cursor_execute fst ancestors log_statement set_ancestors].
    unfold purge_kept, columns, C. apply filter_filter_keep. auto.
  - intros x Hx. now apply purge_settles_outside.
  - exists d2, how', n'. split; [exact Hrun2|].
    assert (Hr2 : roles d2 = roles d1).
    { pose proof (rebuild_loop_frame 1001 0
                    (fst (cursor_execute (SeedPurge S) d1)) S) as H.
      cbv zeta in H. rewrite Hrun2 in H. cbn [fst] in H. apply H. }
    assert (Ht2 : tidy C d2).
    { pose proof (rebuild_loop_tidy C 1001 0 _ S
                    (proj1 (purge_well_formed S d1 Hwf1)) (purge_tidy S d1)) as H.
      now rewrite Hrun2 in H. }
    apply (same_rows C); try assumption. apply Hwf1.
Qed.

Lemma rebuild_idempotent_witness :
  let d := mkDb [mkRole 1 "admin" None None; mkRole 2 "read" None None;
                 mkRole 3 "use" None None]
                [mkEdge 1 2; mkEdge 2 3] []
                [mkEntry 1 1 1 "admin" 0 0; mkEntry 2 2 2 "read" 0 0;
                 mkEntry 3 3 3 "use" 0 0; mkEntry 4 2 3 "read" 0 0]
                5 [] in
  well_formed d /\
  _simultaneous_ancestry_rebuild [1] d
  = (fst (_simultaneous_ancestry_rebuild [1] d), Returned WhileFalse 1) /\
  exists d2 how' n',
    _simultaneous_ancestry_rebuild [1] (fst (_simultaneous_ancestry_rebuild [1] d))
    = (d2, Returned how' n') /\
    Permutation
      (map row_of (ancestors (fst (_simultaneous_ancestry_rebuild [1] d))))
      (map row_of (ancestors d2)).
Proof.
  cbv zeta.
  assert (Hwf : well_formed
                  (mkDb [mkRole 1 "admin" None None; mkRole 2 "read" None None;
                         mkRole 3 "use" None None]
                        [mkEdge 1 2; mkEdge 2 3] []
                        [mkEntry 1 1 1 "admin" 0 0; mkEntry 2 2 2 "read" 0 0;
                         mkEntry 3 3 3 "use" 0 0; mkEntry 4 2 3 "read" 0 0]
                        5 [])).
  { split; [|split; [|split]].
    - unfold roles_pk. cbn. repeat constructor; cbn; intuition discriminate.
    - intros p [<-|[<-|[]]]; unfold is_role; cbn; intuition.
    - cbn. repeat constructor; cbn; intuition discriminate.
    - cbn. intros e [<-|[<-|[<-|[<-|[]]]]]; cbn; lia. }
  split; [exact Hwf|]. split; [reflexivity|].
  exact (rebuild_idempotent [1] _ _ WhileFalse 1%nat Hwf eq_refl).
Defined.

(** C7 as stated fails when the first rebuild does not return.  The
    closure below is that of an earlier set of parent edges; the edges
    have since been changed and role 5 is rebuilt, outside any
    transaction (line 153).  The first rebuild is abandoned after 1001
    layers with the exception, or after 11 layers with the refusal of
    a store that runs children queries of up to ten nested SELECTs, and
    its writes stay.  The second rebuild returns after 4 layers and
    leaves one row more. *)
Lemma rebuild_not_idempotent_after_abort :
  let role i := mkRole i "member" None None in
  let row k x a := mkEntry k x a "member" 0 0 in
  let d := mkDb [role 1; role 2; role 3; role 4; role 5]
                [mkEdge 1 3; mkEdge 1 5; mkEdge 2 1; mkEdge 2 5; mkEdge 3 2;
                 mkEdge 4 1; mkEdge 4 5] []
                [row 1 1 1; row 2 1 5; row 3 2 2; row 4 2 5; row 5 3 2;
                 row 6 3 3; row 7 3 4; row 8 3 5; row 9 4 4; row 10 5 5]
                11 [] in
  let first := _simultaneous_ancestry_rebuild [5] d in
  let second := _simultaneous_ancestry_rebuild [5] (fst first) in
  let accepts := fun n => (n <=? 10)%nat in
  let first_on := _simultaneous_ancestry_rebuild_on accepts [5] d in
  let second_on := _simultaneous_ancestry_rebuild_on accepts [5] (fst first_on) in
  well_formed d /\
  (snd first = Raised InfiniteLoopDetected 1001 /\
   snd second = Returned Break 4 /\
   ~ Permutation (map row_of (ancestors (fst first)))
                 (map row_of (ancestors (fst second)))) /\
  (snd first_on = OperationalError 11 /\
   snd second_on = Completed (Returned Break 4) /\
   ~ Permutation (map row_of (ancestors (fst first_on)))
                 (map row_of (ancestors (fst second_on)))).
Proof.
  cbv beta zeta. split; [|split].
  - split; [|split; [|split]].
    + unfold roles_pk. cbn. repeat constructor; cbn; intuition discriminate.
    + intros p [<-|[<-|[<-|[<-|[<-|[<-|[<-|[]]]]]]]]; unfold is_role; cbn;
        intuition.
    + cbn. repeat constructor; cbn; intuition discriminate.
    + cbn. intros e [<-|[<-|[<-|[<-|[<-|[<-|[<-|[<-|[<-|[<-|[]]]]]]]]]]];
        cbn; lia.
  - match goal with
    | |- ?a = ?va /\ ?b = ?vb /\ ~ Permutation ?m1 ?m2 =>
        assert (E1 : a = va) by (vm_compute; reflexivity);
        assert (E2 : b = vb) by (vm_compute; reflexivity);
        assert (L1 : List.length m1 = 20%nat) by (vm_compute; reflexivity);
        assert (L2 : List.length m2 = 21%nat) by (vm_compute; reflexivity)
    end.
    split; [exact E1|]. split; [exact E2|].
    intros H. apply Permutation_length in H.
    assert (Hc : 20%nat = 21%nat)
      by exact (eq_trans (eq_sym L1) (eq_trans H L2)).
    discriminate Hc.
  - match goal with
    | |- ?a = ?va /\ ?b = ?vb /\ ~ Permutation ?m1 ?m2 =>
        assert (E1 : a = va) by (vm_compute; reflexivity);
        assert (E2 : b = vb) by (vm_compute; reflexivity);
        assert (L1 : List.length m1 = 20%nat) by (vm_compute; reflexivity);
        assert (L2 : List.length m2 = 21%nat) by (vm_compute; reflexivity)
    end.
    split; [exact E1|]. split; [exact E2|].
    intros H. apply Permutation_length in H.
    assert (Hc : 20%nat = 21%nat)
      by exact (eq_trans (eq_sym L1) (eq_trans H L2)).
    discriminate Hc.
Qed.


(** * Further properties of the rebuild *)

(** ** What a rebuild writes *)

(** X1. A rebuild writes the closure only: the roles, the parent edges
    and the memberships are what they were, however the rebuild ends. *)
Theorem rebuild_writes_closure_only : forall ids d,
  roles (fst (_simultaneous_ancestry_rebuild ids d)) = roles d /\
  parents (fst (_simultaneous_ancestry_rebuild ids d)) = parents d /\
  members (fst (_simultaneous_ancestry_rebuild ids d)) = members d.
Proof.
  intros [|i ids] d; [now repeat split|].
  cbn [_simultaneous_ancestry_rebuild cursor_execute].
  destruct (rebuild_loop_frame 1001 0
              (log_statement (SeedPurge (i :: ids))
                 (set_ancestors d (purge_kept d (i :: ids)) (next_id d)))
              (i :: ids)) as (Hr & Hp & Hm & _).
  repeat split; assumption.
Qed.

Lemma rebuild_loop_statement_count fuel : forall loop_ct d ids,
  let '(d', c) := rebuild_loop fuel loop_ct d ids in
  List.length (statements d')
  = (List.length (statements d)
     + match c with
       | Returned Break n => 3 * (n - loop_ct) - 1
       | Returned _ n => 3 * (n - loop_ct)
       | Raised _ n => 3 * (n - loop_ct)
       end)%nat /\
  match c with
  | Returned _ n => (loop_ct <= n)%nat
  | Raised _ n => (loop_ct <= n)%nat
  end /\
  match c with Returned Break n => (loop_ct < n)%nat | _ => True end.
Proof.
  induction fuel as [|f IH]; intros loop_ct d ids.
  - destruct ids as [|x ids]; cbn [rebuild_loop].
    + repeat split; lia.
    + destruct (1000 <? loop_ct)%nat; repeat split; lia.
  - destruct ids as [|x ids]; [rewrite rebuild_loop_nil; repeat split; lia|].
    destruct (Nat.le_gt_cases loop_ct 1000) as [Hle|Hgt].
    2:{ rewrite rebuild_loop_raise by assumption. repeat split; lia. }
    rewrite rebuild_loop_layer by assumption.
    pose proof (layer_frame (x :: ids) d) as Hl. cbv zeta in Hl.
    destruct Hl as (_ & _ & _ & Hs).
    change (fst (fst (layer (x :: ids) d))) with (after_layer (x :: ids) d) in Hs.
    destruct (idle (x :: ids) d).
    + rewrite Hs, length_app. cbn [List.length]. repeat split; lia.
    + specialize (IH (S loop_ct)
                     (log_statement (SelectChildren (x :: ids))
                        (after_layer (x :: ids) d))
                     (children_ids d (x :: ids))).
      destruct (rebuild_loop f (S loop_ct) _ _) as [d' c].
      destruct IH as (Hlen & Hn & Hb). rewrite Hlen.
      cbn [statements log_statement]. rewrite length_app, Hs, length_app.
      cbn [List.length].
      destruct c as [[| |] n | e n]; repeat split; lia.
Qed.

(** X2. The statements of a rebuild are counted by the way it ends:
    none for an empty seed; otherwise the purge and three statements per
    layer, the last layer of a [break] lacking the selection of the
    children.  A rebuild never issues more than 3004 statements. *)
Theorem rebuild_statement_count : forall ids d,
  let '(d', c) := _simultaneous_ancestry_rebuild ids d in
  List.length (statements d')
  = (List.length (statements d) + statements_issued c)%nat /\
  (statements_issued c <= 3004)%nat.
Proof.
  intros [|i ids] d; [cbn; split; lia|].
  cbn [_simultaneous_ancestry_rebuild cursor_execute].
  set (purged := log_statement (SeedPurge (i :: ids))
                   (set_ancestors d (purge_kept d (i :: ids)) (next_id d))).
  pose proof (rebuild_loop_statement_count 1001 0 purged (i :: ids)) as H.
  pose proof (rebuild_loop_outcome 1001 0 purged (i :: ids)
                ltac:(lia) ltac:(lia)) as Ho.
  destruct (rebuild_loop 1001 0 purged (i :: ids)) as [d' c].
  destruct H as (Hlen & Hn & Hb). rewrite Hlen.
  subst purged. cbn [statements log_statement set_ancestors].
  rewrite length_app. cbn [List.length].
  destruct c as [[| |] n | e n]; cbn [statements_issued].
  - destruct Ho.
  - destruct Ho as (k & _ & Hk & _). split; lia.
  - destruct Ho as (k & dm & idsm & _ & Hk & _). split; lia.
  - destruct Ho as (_ & -> & _). split; lia.
Qed.

(** ** Rows are kept or inserted, never updated *)

Lemma after_layer_rows ids d e :
  In e (ancestors (after_layer ids d)) ->
  In e (ancestors d) \/
  (next_id d <= entry_id e /\
   exists r, In r (roles d) /\ id r = descendent e /\
             row_of e = canonical r (ancestor e)).
Proof.
  intros He. destruct (after_layer_eq ids d) as (Heq & _).
  rewrite Heq in He. apply in_app_iff in He. destruct He as [He|He].
  - left. now apply delete_kept_incl in He.
  - right. split; [apply insert_rows_ids in He; lia|].
    apply insert_rows_in in He. apply filter_In in He. destruct He as [He _].
    apply new_ancestry_list_spec in He. destruct He as [r (Hin & Hcan & _)].
    exists r. repeat split; try assumption.
    apply (f_equal from_id) in Hcan. cbn in Hcan. congruence.
Qed.

Lemma after_layer_next_id ids d : next_id d <= next_id (after_layer ids d).
Proof. destruct (after_layer_eq ids d) as (_ & -> & _). lia. Qed.

Lemma rebuild_loop_rows fuel : forall loop_ct d ids e,
  let d' := fst (rebuild_loop fuel loop_ct d ids) in
  next_id d <= next_id d' /\
  (In e (ancestors d') ->
   In e (ancestors d) \/
   (next_id d <= entry_id e /\
    exists r, In r (roles d) /\ id r = descendent e /\
              row_of e = canonical r (ancestor e))).
Proof.
  induction fuel as [|f IH]; intros loop_ct d ids e; cbv zeta.
  - destruct ids as [|x ids]; cbn [rebuild_loop fst]; [split; [lia | auto]|].
    destruct (1000 <? loop_ct)%nat; cbn [fst]; split; (lia || auto).
  - destruct ids as [|x ids]; [rewrite rebuild_loop_nil; cbn; split; [lia | auto]|].
    destruct (Nat.le_gt_cases loop_ct 1000) as [Hle|Hgt].
    2:{ rewrite rebuild_loop_raise by assumption. cbn. split; [lia | auto]. }
    rewrite rebuild_loop_layer by assumption.
    pose proof (after_layer_next_id (x :: ids) d) as Hn.
    pose proof (after_layer_rows (x :: ids) d e) as Hrows.
    destruct (idle (x :: ids) d); cbn [fst]; [split; assumption|].
    specialize (IH (S loop_ct)
                   (log_statement (SelectChildren (x :: ids))
                      (after_layer (x :: ids) d))
                   (children_ids d (x :: ids)) e).
    cbv zeta in IH. destruct IH as [Hn' Hrows'].
    cbn [next_id ancestors roles log_statement] in Hn', Hrows'.
    split; [lia|]. intros He. destruct (Hrows' He) as [H|(Hid & r & Hr)].
    + exact (Hrows H).
    + right. split; [lia|]. exists r. exact Hr.
Qed.

Lemma rebuild_rows ids d e :
  In e (ancestors (fst (_simultaneous_ancestry_rebuild ids d))) ->
  In e (ancestors d) \/
  (next_id d <= entry_id e /\
   exists r, In r (roles d) /\ id r = descendent e /\
             row_of e = canonical r (ancestor e)).
Proof.
  destruct ids as [|i ids]; [now left|].
  cbn [_simultaneous_ancestry_rebuild cursor_execute].
  set (purged := log_statement (SeedPurge (i :: ids))
                   (set_ancestors d (purge_kept d (i :: ids)) (next_id d))).
  intros He.
  destruct (rebuild_loop_rows 1001 0 purged (i :: ids) e) as [_ H].
  destruct (H He) as [Hin|Hnew]; [left | now right].
  subst purged. cbn [ancestors log_statement set_ancestors] in Hin.
  apply purge_kept_spec in Hin. tauto.
Qed.

(** X3. A rebuild deletes and inserts rows and never updates one: a row
    of the closure after the rebuild is either a row that was there
    before, unchanged, or a new row with a fresh id that carries the
    role_field, content type and object id of its descendent role, with
    NULL stored as 0. *)
Theorem rebuild_keeps_or_inserts : forall ids d e,
  In e (ancestors (fst (_simultaneous_ancestry_rebuild ids d))) ->
  In e (ancestors d) \/
  (next_id d <= entry_id e /\
   exists r, In r (roles d) /\ id r = descendent e /\
             entry_role_field e = role_field r /\
             content_type_id e = coalesce (content_type r) 0 /\
             entry_object_id e = coalesce (object_id r) 0).
Proof.
  intros ids d e He.
  destruct (rebuild_rows ids d e He) as [Hin|(Hid & r & Hr & Hd & Hcan)];
    [now left | right].
  split; [exact Hid|]. exists r. split; [exact Hr|]. split; [exact Hd|].
  unfold row_of, canonical in Hcan. injection Hcan as _ H1 H2 H3. auto.
Qed.

Lemma rebuild_keeps_or_inserts_witness :
  let d := mkDb [mkRole 1 "admin" (Some 7) None] [] []
                [mkEntry 1 1 1 "stale" 0 0] 2 [] in
  let e := mkEntry 2 1 1 "admin" 7 0 in
  In e (ancestors (fst (_simultaneous_ancestry_rebuild [1] d))) /\
  (In e (ancestors d) \/
   (next_id d <= entry_id e /\
    exists r, In r (roles d) /\ id r = descendent e /\
              entry_role_field e = role_field r /\
              content_type_id e = coalesce (content_type r) 0 /\
              entry_object_id e = coalesce (object_id r) 0)).
Proof.
  cbv zeta. split; [now left|].
  apply (rebuild_keeps_or_inserts [1]). now left.
Defined.

(** ** Locality *)

Lemma after_layer_outside ids d e :
  id_in (descendent e) ids = false ->
  (In e (ancestors (after_layer ids d)) <-> In e (ancestors d)).
Proof.
  intros Hid. destruct (after_layer_eq ids d) as (-> & _).
  rewrite in_app_iff. split.
  - intros [He|He]; [now apply delete_kept_incl in He|].
    apply insert_rows_in in He. apply filter_In in He. destruct He as [He _].
    apply new_ancestry_list_spec in He. destruct He as [r (_ & Hcan & Hin & _)].
    apply (f_equal from_id) in Hcan. cbn in Hcan. congruence.
  - intros He. left. apply delete_kept_intro; [assumption | now left].
Qed.

Lemma children_below d seed ids x :
  (forall y, In y ids -> below d seed y) ->
  In x (children_ids d ids) -> below d seed x.
Proof.
  intros Hb Hx. apply children_ids_spec in Hx.
  destruct Hx as [r [p (_ & Hid & Hp & Ht & Hf)]].
  apply (below_child d seed x (to_role_id p)).
  - apply Hb. apply id_in_true. now rewrite Ht.
  - destruct p as [pf pt]. cbn in *. now subst.
Qed.

Lemma rebuild_loop_local d0 seed fuel : forall loop_ct d ids e,
  parents d = parents d0 -> roles d = roles d0 ->
  (forall y, In y ids -> below d0 seed y) ->
  ~ below d0 seed (descendent e) ->
  (In e (ancestors (fst (rebuild_loop fuel loop_ct d ids))) <-> In e (ancestors d)).
Proof.
  induction fuel as [|f IH]; intros loop_ct d ids e Hp Hr Hb Hn.
  - destruct ids as [|x ids]; cbn [rebuild_loop fst]; [reflexivity|].
    destruct (1000 <? loop_ct)%nat; reflexivity.
  - destruct ids as [|x ids]; [now rewrite rebuild_loop_nil|].
    destruct (Nat.le_gt_cases loop_ct 1000) as [Hle|Hgt].
    2:{ now rewrite rebuild_loop_raise by assumption. }
    rewrite rebuild_loop_layer by assumption.
    assert (Hout : id_in (descendent e) (x :: ids) = false).
    { apply id_in_false. intros H. apply Hn. now apply Hb. }
    pose proof (after_layer_outside (x :: ids) d e Hout) as Hl.
    destruct (idle (x :: ids) d); [exact Hl|].
    rewrite IH; try assumption.
    intros y Hy.
    assert (Hy' : In y (children_ids d0 (x :: ids))).
    { unfold children_ids in *. now rewrite <- Hr, <- Hp. }
    now apply (children_below d0 seed (x :: ids)).
Qed.

(** X4. A rebuild is local: a row whose ancestor is outside the seed
    and whose descendent is neither in the seed nor a child, grandchild,
    ... of a member of the seed is in the closure after the rebuild if
    and only if it was there before. *)
Theorem rebuild_is_local : forall ids d e,
  ~ In (ancestor e) ids ->
  ~ below d ids (descendent e) ->
  (In e (ancestors (fst (_simultaneous_ancestry_rebuild ids d)))
   <-> In e (ancestors d)).
Proof.
  intros [|i ids] d e Ha Hn; [reflexivity|].
  cbn [_simultaneous_ancestry_rebuild cursor_execute].
  set (purged := log_statement (SeedPurge (i :: ids))
                   (set_ancestors d (purge_kept d (i :: ids)) (next_id d))).
  rewrite (rebuild_loop_local d (i :: ids) 1001 0 purged (i :: ids) e);
    try reflexivity; try assumption.
  - subst purged. cbn [ancestors log_statement set_ancestors].
    rewrite purge_kept_spec. tauto.
  - intros y Hy. now apply below_seed.
Qed.

Lemma chain_not_below x :
  below (mkDb [mkRole 1 "a" None None; mkRole 2 "b" None None;
               mkRole 3 "c" None None]
              [mkEdge 1 2; mkEdge 2 3] []
              [mkEntry 1 1 1 "a" 0 0; mkEntry 2 2 2 "b" 0 0;
               mkEntry 3 3 3 "c" 0 0; mkEntry 4 2 3 "b" 0 0] 5 [])
        [2] x -> x = 1 \/ x = 2.
Proof.
  induction 1 as [x [<-|[]]|x p _ IH Hin]; [now right|].
  cbn in Hin. destruct Hin as [E|[E|[]]]; injection E as <- <-; [now left|].
  destruct IH; discriminate.
Defined.

Lemma rebuild_is_local_witness :
  let d := mkDb [mkRole 1 "a" None None; mkRole 2 "b" None None;
                 mkRole 3 "c" None None]
                [mkEdge 1 2; mkEdge 2 3] []
                [mkEntry 1 1 1 "a" 0 0; mkEntry 2 2 2 "b" 0 0;
                 mkEntry 3 3 3 "c" 0 0; mkEntry 4 2 3 "b" 0 0] 5 [] in
  let e := mkEntry 3 3 3 "c" 0 0 in
  ~ In (ancestor e) [2] /\ ~ below d [2] (descendent e) /\
  (In e (ancestors (fst (_simultaneous_ancestry_rebuild [2] d)))
   <-> In e (ancestors d)).
Proof.
  cbv zeta.
  assert (Ha : ~ In (ancestor (mkEntry 3 3 3 "c" 0 0)) [2]).
  { cbn. intros [H|[]]. discriminate. }
  assert (Hb : ~ below (mkDb [mkRole 1 "a" None None; mkRole 2 "b" None None;
                              mkRole 3 "c" None None]
                             [mkEdge 1 2; mkEdge 2 3] []
                             [mkEntry 1 1 1 "a" 0 0; mkEntry 2 2 2 "b" 0 0;
                              mkEntry 3 3 3 "c" 0 0; mkEntry 4 2 3 "b" 0 0] 5 [])
                      [2] (descendent (mkEntry 3 3 3 "c" 0 0))).
  { intros H. apply chain_not_below in H. cbn in H. destruct H; discriminate. }
  split; [exact Ha|]. split; [exact Hb|].
  exact (rebuild_is_local [2] _ _ Ha Hb).
Defined.

(** ** Uniqueness of pairs *)

Lemma rebuild_loop_pairs_unique fuel : forall loop_ct d ids x a,
  roles_pk d ->
  (row_count (ancestors d) x a <= 1)%nat ->
  (row_count (ancestors (fst (rebuild_loop fuel loop_ct d ids))) x a <= 1)%nat.
Proof.
  induction fuel as [|f IH]; intros loop_ct d ids x a Hpk H.
  - destruct ids as [|i ids]; cbn [rebuild_loop fst]; [exact H|].
    destruct (1000 <? loop_ct)%nat; exact H.
  - destruct ids as [|i ids]; [now rewrite rebuild_loop_nil|].
    destruct (Nat.le_gt_cases loop_ct 1000) as [Hle|Hgt].
    2:{ now rewrite rebuild_loop_raise by assumption. }
    rewrite rebuild_loop_layer by assumption.
    pose proof (layer_keeps_pairs_unique (i :: ids) d x a Hpk H) as H'.
    destruct (idle (i :: ids) d); [exact H'|].
    apply IH; [exact Hpk | exact H'].
Qed.

(** X5. A rebuild never makes a duplicate: with the primary key on the
    roles, a pair that is stored at most once before the rebuild is
    stored at most once after it. *)
Theorem rebuild_keeps_pairs_unique : forall ids d x a,
  roles_pk d ->
  (row_count (ancestors d) x a <= 1)%nat ->
  (row_count (ancestors (fst (_simultaneous_ancestry_rebuild ids d))) x a <= 1)%nat.
Proof.
  intros [|i ids] d x a Hpk H; [exact H|].
  cbn [_simultaneous_ancestry_rebuild cursor_execute].
  apply rebuild_loop_pairs_unique; [exact Hpk|].
  cbn [ancestors log_statement set_ancestors]. unfold purge_kept.
  pose proof (row_count_filter_le
                (fun e => negb (id_in (ancestor e) (i :: ids))) (ancestors d) x a).
  lia.
Qed.

Lemma rebuild_keeps_pairs_unique_witness :
  let d := mkDb [mkRole 1 "a" None None; mkRole 2 "b" None None] [mkEdge 1 2] []
                [mkEntry 1 2 2 "b" 0 0] 2 [] in
  roles_pk d /\ (row_count (ancestors d) 1%Z 2%Z <= 1)%nat /\
  (row_count (ancestors (fst (_simultaneous_ancestry_rebuild [1%Z] d))) 1%Z 2%Z
   <= 1)%nat.
Proof.
  cbv zeta.
  assert (Hpk : roles_pk (mkDb [mkRole 1 "a" None None; mkRole 2 "b" None None]
                               [mkEdge 1 2] [] [mkEntry 1 2 2 "b" 0 0] 2 [])).
  { unfold roles_pk. cbn. repeat constructor; cbn; intuition discriminate. }
  split; [exact Hpk|]. split; [cbn; lia|].
  apply (rebuild_keeps_pairs_unique [1] _ 1 2 Hpk). cbn. lia.
Defined.

(** X6. After a rebuild the columns of the seed are fresh: every row
    whose ancestor is in the seed is the only row of its pair and
    carries the role_field, content type and object id of its
    descendent role (NULL as 0), whatever the table held before. *)
Theorem rebuild_refreshes_seed_columns : forall ids d e,
  roles_pk d ->
  In e (ancestors (fst (_simultaneous_ancestry_rebuild ids d))) ->
  In (ancestor e) ids ->
  row_count (ancestors (fst (_simultaneous_ancestry_rebuild ids d)))
            (descendent e) (ancestor e) = 1%nat /\
  exists r, In r (roles d) /\ id r = descendent e /\
            entry_role_field e = role_field r /\
            content_type_id e = coalesce (content_type r) 0 /\
            entry_object_id e = coalesce (object_id r) 0.
Proof.
  intros [|i ids] d e Hpk He Ha; [destruct Ha|].
  revert He. cbn [_simultaneous_ancestry_rebuild cursor_execute].
  set (purged := log_statement (SeedPurge (i :: ids))
                   (set_ancestors d (purge_kept d (i :: ids)) (next_id d))).
  intros He.
  pose proof (rebuild_loop_tidy (fun a => id_in a (i :: ids)) 1001 0 purged
                (i :: ids) Hpk (purge_tidy (i :: ids) d)) as [Hu Hc].
  pose proof (rebuild_loop_frame 1001 0 purged (i :: ids)) as HF.
  cbv zeta in HF. destruct HF as (Hr & _).
  apply id_in_true in Ha. split.
  - specialize (Hu (descendent e) (ancestor e) Ha).
    assert (Hs : stored (ancestors (fst (rebuild_loop 1001 0 purged (i :: ids))))
                        (descendent e) (ancestor e) = true).
    { apply stored_spec. exists e. split; [exact He | split; reflexivity]. }
    destruct (row_count _ (descendent e) (ancestor e)) as [|[|k]] eqn:E; try lia.
    apply row_count_stored in E. congruence.
  - destruct (Hc e He Ha) as [r (Hin & Hcan)]. rewrite Hr in Hin.
    exists r. split; [exact Hin|].
    unfold row_of, canonical in Hcan. injection Hcan as H0 H1 H2 H3. auto.
Qed.

Lemma rebuild_refreshes_seed_columns_witness :
  let d := mkDb [mkRole 1 "admin" (Some 7) (Some 42)] [] []
                [mkEntry 1 1 1 "stale" 0 0; mkEntry 2 1 1 "stale" 0 0] 3 [] in
  let e := mkEntry 3 1 1 "admin" 7 42 in
  roles_pk d /\
  In e (ancestors (fst (_simultaneous_ancestry_rebuild [1] d))) /\
  In (ancestor e) [1] /\
  row_count (ancestors (fst (_simultaneous_ancestry_rebuild [1] d)))
            (descendent e) (ancestor e) = 1%nat /\
  exists r, In r (roles d) /\ id r = descendent e /\
            entry_role_field e = role_field r /\
            content_type_id e = coalesce (content_type r) 0 /\
            entry_object_id e = coalesce (object_id r) 0.
Proof.
  cbv zeta.
  assert (Hpk : roles_pk (mkDb [mkRole 1 "admin" (Some 7) (Some 42)] [] []
                               [mkEntry 1 1 1 "stale" 0 0;
                                mkEntry 2 1 1 "stale" 0 0] 3 [])).
  { unfold roles_pk. cbn. repeat constructor. intros []. }
  split; [exact Hpk|]. split; [now left|]. split; [now left|].
  apply (rebuild_refreshes_seed_columns [1] _ _ Hpk); now left.
Defined.

(** ** Soundness *)

Lemma edge_eta p : mkEdge (from_role_id p) (to_role_id p) = p.
Proof. now destruct p. Qed.

Lemma after_layer_sound ids d : sound d -> sound (after_layer ids d).
Proof.
  intros Hs e He. destruct (after_layer_eq ids d) as (Heq & _ & _ & Hp).
  rewrite Hp. rewrite Heq in He. apply in_app_iff in He. destruct He as [He|He].
  - apply Hs. now apply delete_kept_incl in He.
  - apply insert_rows_in in He. apply filter_In in He. destruct He as [He _].
    apply new_ancestry_list_spec in He.
    destruct He as [r (_ & Hcan & _ & Hw)].
    assert (Hd : id r = descendent e).
    { apply (f_equal from_id) in Hcan. cbn in Hcan. congruence. }
    cbn [row_of to_id] in Hw. rewrite <- Hd.
    destruct Hw as [->|[p (Hin & Hf & Hst)]]; [constructor|].
    apply stored_spec in Hst. destruct Hst as [e' (He' & Hd' & Ha')].
    apply (reach_step _ _ (to_role_id p)).
    + rewrite <- Hf, edge_eta. exact Hin.
    + rewrite <- Hd', <- Ha'. apply Hs.
      change (ancestors (after_delete ids d)) with (delete_kept d ids) in He'.
      now apply delete_kept_incl in He'.
Qed.

Lemma rebuild_loop_sound fuel : forall loop_ct d ids,
  sound d -> sound (fst (rebuild_loop fuel loop_ct d ids)).
Proof.
  induction fuel as [|f IH]; intros loop_ct d ids Hs.
  - destruct ids as [|i ids]; cbn [rebuild_loop fst]; [exact Hs|].
    destruct (1000 <? loop_ct)%nat; exact Hs.
  - destruct ids as [|i ids]; [now rewrite rebuild_loop_nil|].
    destruct (Nat.le_gt_cases loop_ct 1000) as [Hle|Hgt].
    2:{ now rewrite rebuild_loop_raise by assumption. }
    rewrite rebuild_loop_layer by assumption.
    pose proof (after_layer_sound (i :: ids) d Hs) as Hs'.
    destruct (idle (i :: ids) d); [exact Hs'|].
    apply IH. exact Hs'.
Qed.

(** X7. A rebuild adds no unreachable pair: when every row of the
    closure relates a descendent to a role reachable from it through
    the current parent edges, so does every row after the rebuild,
    however it ends. *)
Theorem rebuild_keeps_sound : forall ids d,
  sound d -> sound (fst (_simultaneous_ancestry_rebuild ids d)).
Proof.
  intros [|i ids] d Hs; [exact Hs|].
  cbn [_simultaneous_ancestry_rebuild cursor_execute].
  apply rebuild_loop_sound. intros e He.
  cbn [ancestors parents log_statement set_ancestors] in *.
  apply purge_kept_spec in He. apply Hs. tauto.
Qed.

Lemma rebuild_keeps_sound_witness :
  let d := mkDb [mkRole 1 "a" None None; mkRole 2 "b" None None]
                [mkEdge 1 2] []
                [mkEntry 1 1 1 "a" 0 0; mkEntry 2 2 2 "b" 0 0] 3 [] in
  sound d /\ sound (fst (_simultaneous_ancestry_rebuild [1] d)).
Proof.
  cbv zeta.
  assert (Hs : sound (mkDb [mkRole 1 "a" None None; mkRole 2 "b" None None]
                           [mkEdge 1 2] []
                           [mkEntry 1 1 1 "a" 0 0; mkEntry 2 2 2 "b" 0 0] 3 [])).
  { intros e [<-|[<-|[]]]; constructor. }
  split; [exact Hs|]. exact (rebuild_keeps_sound [1] _ Hs).
Defined.

(** ** What a returned rebuild guarantees *)

Lemma rebuild_settles ids d d' how n x :
  well_formed d ->
  _simultaneous_ancestry_rebuild ids d = (d', Returned how n) ->
  In x ids -> settled (fun _ => true) d' x.
Proof.
  intros Hwf Hrun Hx. destruct ids as [|i ids]; [destruct Hx|].
  change (_simultaneous_ancestry_rebuild (i :: ids) d)
    with (rebuild_loop 1001 0 (fst (cursor_execute (SeedPurge (i :: ids)) d))
                       (i :: ids)) in Hrun.
  apply (visited_settled 1001 0 _ (i :: ids) d' how n (fun _ => False)
           (purge_well_formed (i :: ids) d Hwf) Hrun).
  - intros y [].
  - right. now apply id_in_true.
Qed.

(** X8. When a rebuild returns on a database that meets the schema
    constraints, every role of the seed has exactly the ancestors the
    code's comment asks for: its stored ancestors are itself and the
    stored ancestors of its parents. *)
Theorem rebuild_settles_seed : forall ids d d' how n x a,
  well_formed d ->
  _simultaneous_ancestry_rebuild ids d = (d', Returned how n) ->
  In x ids ->
  (stored (ancestors d') x a = true <->
   (x = a /\ is_role d x) \/
   exists p, In (mkEdge x p) (parents d) /\ stored (ancestors d') p a = true).
Proof.
  intros ids d d' how n x a Hwf Hrun Hx.
  pose proof (rebuild_settles ids d d' how n x Hwf Hrun Hx a eq_refl) as H.
  pose proof (rebuild_frame ids d) as (Hr & Hp).
  rewrite Hrun in Hr, Hp. cbn [fst] in Hr, Hp.
  rewrite H. unfold want, is_role. rewrite Hr, Hp. split.
  - intros [Hl|[p (Hin & Hf & Hs)]]; [now left | right].
    exists (to_role_id p). split; [|exact Hs]. now rewrite <- Hf, edge_eta.
  - intros [Hl|[p (Hin & Hs)]]; [now left | right].
    exists (mkEdge x p). auto.
Qed.

Lemma small_chain_well_formed :
  well_formed (mkDb [mkRole 1 "a" None None; mkRole 2 "b" None None]
                    [mkEdge 1 2] []
                    [mkEntry 1 2 2 "b" 0 0] 2 []).
Proof.
  split; [|split; [|split]].
  - unfold roles_pk. cbn. repeat constructor; cbn; intuition discriminate.
  - intros p [<-|[]]; unfold is_role; cbn; intuition.
  - cbn. repeat constructor. intros [].
  - cbn. intros e [<-|[]]; cbn; lia.
Defined.

Lemma rebuild_settles_seed_witness :
  let d := mkDb [mkRole 1 "a" None None; mkRole 2 "b" None None]
                [mkEdge 1 2] [] [mkEntry 1 2 2 "b" 0 0] 2 [] in
  let d' := fst (_simultaneous_ancestry_rebuild [1] d) in
  well_formed d /\
  _simultaneous_ancestry_rebuild [1] d = (d', Returned WhileFalse 1) /\
  In 1 [1] /\
  (stored (ancestors d') 1 2 = true <->
   (1 = 2 /\ is_role d 1) \/
   exists p, In (mkEdge 1 p) (parents d) /\ stored (ancestors d') p 2 = true).
Proof.
  cbv zeta. split; [exact small_chain_well_formed|].
  split; [reflexivity|]. split; [now left|].
  exact (rebuild_settles_seed [1] _ _ WhileFalse 1%nat 1 2
           small_chain_well_formed eq_refl (or_introl eq_refl)).
Defined.

(** ** Rebuilding every role *)

Lemma rebuild_row_descendent ids d e :
  ancestors_fk d ->
  In e (ancestors (fst (_simultaneous_ancestry_rebuild ids d))) ->
  is_role d (descendent e).
Proof.
  intros Hfk He. apply rebuild_rows in He.
  destruct He as [He|(_ & r & Hr & Hd & _)].
  - now apply Hfk.
  - apply is_role_spec. now exists r.
Qed.

Lemma full_rebuild_sound ids d :
  ancestors_fk d -> (forall x, is_role d x -> In x ids) ->
  sound (fst (_simultaneous_ancestry_rebuild ids d)).
Proof.
  intros Hfk Hall. destruct ids as [|i ids].
  - intros e He. assert (H : In (ancestor e) []) by (apply Hall; now apply Hfk).
    destruct H.
  - cbn [_simultaneous_ancestry_rebuild cursor_execute].
    apply rebuild_loop_sound. intros e He.
    cbn [ancestors log_statement set_ancestors] in He.
    apply purge_kept_spec in He. destruct He as [He Hn].
    elim Hn. apply Hall. now apply Hfk.
Qed.

Lemma full_rebuild_stored ids d d' how n :
  well_formed d -> ancestors_fk d ->
  (forall x, is_role d x -> In x ids) ->
  _simultaneous_ancestry_rebuild ids d = (d', Returned how n) ->
  forall x a, is_role d x ->
    (stored (ancestors d') x a = true <-> reachable (parents d) x a).
Proof.
  intros Hwf Hfk Hall Hrun x a Hx.
  pose proof (rebuild_frame ids d) as (Hr & Hp).
  rewrite Hrun in Hr, Hp. cbn [fst] in Hr, Hp.
  split.
  - intros Hs. apply stored_spec in Hs. destruct Hs as [e (He & <- & <-)].
    rewrite <- Hp.
    pose proof (full_rebuild_sound ids d Hfk Hall) as Hsound.
    rewrite Hrun in Hsound. now apply Hsound.
  - intros Hreach. induction Hreach as [x|x p a Hin _ IH].
    + apply (rebuild_settles ids d d' how n x Hwf Hrun (Hall x Hx) x eq_refl).
      left. split; [reflexivity|]. unfold is_role. now rewrite Hr.
    + apply (rebuild_settles ids d d' how n x Hwf Hrun (Hall x Hx) a eq_refl).
      right. exists (mkEdge x p). rewrite Hp. repeat split; [exact Hin|].
      apply IH. destruct Hwf as (_ & Hpfk & _). now apply (Hpfk _ Hin).
Qed.

(** X9. Rebuilding with a seed that holds every role repairs the
    closure: on a database that meets the schema constraints, when the
    rebuild returns, a pair [(x, a)] is stored if and only if [x] is a
    role and [a] is reachable from [x] through the parent edges, and it
    is stored once, whatever the closure held before. *)
Theorem full_rebuild_is_exact : forall ids d d' how n,
  well_formed d -> ancestors_fk d ->
  (forall x, is_role d x -> In x ids) ->
  _simultaneous_ancestry_rebuild ids d = (d', Returned how n) ->
  forall x a,
    (stored (ancestors d') x a = true <->
     is_role d x /\ reachable (parents d) x a) /\
    (row_count (ancestors d') x a <= 1)%nat.
Proof.
  intros ids d d' how n Hwf Hfk Hall Hrun x a.
  assert (Hd' : d' = fst (_simultaneous_ancestry_rebuild ids d))
    by now rewrite Hrun.
  assert (Hpurged : forall e, In e (ancestors d) -> In (ancestor e) ids).
  { intros e He. apply Hall. now apply Hfk. }
  split.
  - split.
    + intros Hs.
      assert (Hx : is_role d x).
      { apply stored_spec in Hs. destruct Hs as [e (He & <- & _)].
        rewrite Hd' in He. now apply (rebuild_row_descendent ids d e). }
      split; [exact Hx|].
      now apply (full_rebuild_stored ids d d' how n Hwf Hfk Hall Hrun x a Hx).
    + intros [Hx Hreach].
      now apply (full_rebuild_stored ids d d' how n Hwf Hfk Hall Hrun x a Hx).
  - rewrite Hd'. destruct ids as [|i ids].
    + cbn. assert (H : row_count (ancestors d) x a = 0%nat); [|lia].
      apply row_count_stored. destruct (stored (ancestors d) x a) eqn:Hs; [|easy].
      apply stored_spec in Hs. destruct Hs as [e (He & _)].
      apply Hpurged in He. destruct He.
    + cbn [_simultaneous_ancestry_rebuild cursor_execute].
      apply rebuild_loop_pairs_unique; [apply Hwf|].
      cbn [ancestors log_statement set_ancestors].
      assert (H : row_count (purge_kept d (i :: ids)) x a = 0%nat); [|lia].
      apply row_count_stored.
      destruct (stored (purge_kept d (i :: ids)) x a) eqn:Hs; [|easy].
      apply stored_spec in Hs. destruct Hs as [e (He & _)].
      apply purge_kept_spec in He. destruct He as [He Hn].
      elim Hn. now apply Hpurged.
Qed.

Lemma full_rebuild_is_exact_witness :
  let d := mkDb [mkRole 1 "a" None None; mkRole 2 "b" None None]
                [mkEdge 1 2] [] [mkEntry 1 2 2 "b" 0 0] 2 [] in
  let d' := fst (_simultaneous_ancestry_rebuild [1; 2] d) in
  well_formed d /\ ancestors_fk d /\
  (forall x, is_role d x -> In x [1; 2]) /\
  _simultaneous_ancestry_rebuild [1; 2] d = (d', Returned WhileFalse 2) /\
  (stored (ancestors d') 1 2 = true <->
   is_role d 1 /\ reachable (parents d) 1 2) /\
  (row_count (ancestors d') 1 2 <= 1)%nat.
Proof.
  cbv zeta.
  assert (Hfk : ancestors_fk (mkDb [mkRole 1 "a" None None; mkRole 2 "b" None None]
                                   [mkEdge 1 2] [] [mkEntry 1 2 2 "b" 0 0] 2 [])).
  { intros e [<-|[]]. unfold is_role. cbn. intuition. }
  assert (Hall : forall x,
             is_role (mkDb [mkRole 1 "a" None None; mkRole 2 "b" None None]
                           [mkEdge 1 2] [] [mkEntry 1 2 2 "b" 0 0] 2 []) x ->
             In x [1; 2]).
  { intros x Hx. exact Hx. }
  split; [exact small_chain_well_formed|]. split; [exact Hfk|].
  split; [exact Hall|]. split; [vm_compute; reflexivity|].
  exact (full_rebuild_is_exact [1; 2] _ _ WhileFalse 2%nat
           small_chain_well_formed Hfk Hall eq_refl 1 2).
Defined.

(** ** The seed as a set *)

Lemma id_in_ext ids ids' :
  (forall x, In x ids <-> In x ids') -> forall x, id_in x ids = id_in x ids'.
Proof.
  intros H x. apply eq_true_iff_eq. rewrite !id_in_true. apply H.
Qed.

Lemma new_ancestry_list_ext d d' ids ids' :
  roles d' = roles d -> parents d' = parents d -> ancestors d' = ancestors d ->
  (forall x, id_in x ids = id_in x ids') ->
  new_ancestry_list d ids = new_ancestry_list d' ids'.
Proof.
  intros Hr Hp Ha Hids. unfold new_ancestry_list. rewrite Hr, Hp, Ha.
  f_equal. f_equal.
  - apply flat_map_ext. intros e. now rewrite Hids.
  - f_equal. apply filter_ext. intros e. apply Hids.
Qed.

Lemma layer_ext ids ids' d d' :
  same_tables d d' -> (forall x, id_in x ids = id_in x ids') ->
  same_tables (after_layer ids d) (after_layer ids' d') /\
  idle ids d = idle ids' d' /\
  children_ids d ids = children_ids d' ids'.
Proof.
  intros (Hr & Hp & Hm & Ha & Hn) Hids.
  destruct d as [r p m a n s], d' as [r' p' m' a' n' s'].
  cbn in Hr, Hp, Hm, Ha, Hn. subst r' p' m' a' n'.
  assert (Hpairs : new_ancestry_pairs (mkDb r p m a n s) ids
                   = new_ancestry_pairs (mkDb r p m a n s') ids').
  { unfold new_ancestry_pairs. cbn [parents ancestors roles]. f_equal. f_equal.
    - apply flat_map_ext. intros e. now rewrite Hids.
    - f_equal. apply filter_ext. intros e. apply Hids. }
  assert (Hkept : delete_kept (mkDb r p m a n s) ids
                  = delete_kept (mkDb r p m a n s') ids').
  { unfold delete_kept, matched_ids. rewrite Hpairs. cbn [ancestors].
    apply filter_ext. intros e. now rewrite Hids. }
  assert (Hmiss : insert_missing (after_delete ids (mkDb r p m a n s)) ids
                  = insert_missing (after_delete ids' (mkDb r p m a n s')) ids').
  { unfold insert_missing.
    rewrite (new_ancestry_list_ext (after_delete ids (mkDb r p m a n s))
               (after_delete ids' (mkDb r p m a n s')) ids ids');
      try reflexivity; try assumption.
    - change (ancestors (after_delete ids (mkDb r p m a n s)))
        with (delete_kept (mkDb r p m a n s) ids).
      change (ancestors (after_delete ids' (mkDb r p m a n s')))
        with (delete_kept (mkDb r p m a n s') ids').
      now rewrite Hkept.
    - change (ancestors (after_delete ids (mkDb r p m a n s)))
        with (delete_kept (mkDb r p m a n s) ids).
      change (ancestors (after_delete ids' (mkDb r p m a n s')))
        with (delete_kept (mkDb r p m a n s') ids').
      now rewrite Hkept. }
  split; [|split].
  - destruct (after_layer_eq ids (mkDb r p m a n s)) as (E1 & E2 & E3 & E4).
    destruct (after_layer_eq ids' (mkDb r p m a n s')) as (F1 & F2 & F3 & F4).
    unfold same_tables. rewrite E1, E2, E3, E4, F1, F2, F3, F4.
    rewrite Hkept, Hmiss. repeat split.
  - unfold idle. now rewrite Hkept, Hmiss.
  - unfold children_ids. cbn [roles parents]. f_equal.
    apply flat_map_ext. intros e. now rewrite Hids.
Qed.

Lemma id_in_nil_ext x ids ids' :
  (forall y, id_in y (x :: ids) = id_in y ids') -> ids' <> [].
Proof.
  intros H ->. specialize (H x). cbn in H. now rewrite Z.eqb_refl in H.
Qed.

Lemma rebuild_loop_ext fuel : forall loop_ct d d' ids ids',
  same_tables d d' -> (forall x, id_in x ids = id_in x ids') ->
  same_tables (fst (rebuild_loop fuel loop_ct d ids))
              (fst (rebuild_loop fuel loop_ct d' ids')) /\
  snd (rebuild_loop fuel loop_ct d ids) = snd (rebuild_loop fuel loop_ct d' ids').
Proof.
  induction fuel as [|f IH]; intros loop_ct d d' ids ids' Hst Hids.
  - destruct ids as [|i ids], ids' as [|i' ids'].
    + now rewrite !rebuild_loop_nil.
    + exfalso. apply (id_in_nil_ext i' ids' []); [|reflexivity].
      intros y. now rewrite Hids.
    + exfalso. now apply (id_in_nil_ext i ids []).
    + cbn [rebuild_loop]. destruct (1000 <? loop_ct)%nat; now split.
  - destruct ids as [|i ids], ids' as [|i' ids'].
    + now rewrite !rebuild_loop_nil.
    + exfalso. apply (id_in_nil_ext i' ids' []); [|reflexivity].
      intros y. now rewrite Hids.
    + exfalso. now apply (id_in_nil_ext i ids []).
    + destruct (Nat.le_gt_cases loop_ct 1000) as [Hle|Hgt].
      2:{ rewrite !rebuild_loop_raise by assumption. now split. }
      rewrite !rebuild_loop_layer by assumption.
      destruct (layer_ext (i :: ids) (i' :: ids') d d' Hst Hids) as (Hl & Hi & Hc).
      rewrite Hi. destruct (idle (i' :: ids') d'); [now split|].
      apply IH.
      * exact Hl.
      * intros x. now rewrite Hc.
Qed.

(** X10. Only the set of ids of the seed matters: two seeds with the
    same members, in any order and with any repetition, leave the same
    tables and end the rebuild in the same way. *)
Theorem rebuild_seed_is_a_set : forall ids ids' d,
  (forall x, In x ids <-> In x ids') ->
  same_tables (fst (_simultaneous_ancestry_rebuild ids d))
              (fst (_simultaneous_ancestry_rebuild ids' d)) /\
  snd (_simultaneous_ancestry_rebuild ids d)
  = snd (_simultaneous_ancestry_rebuild ids' d).
Proof.
  intros ids ids' d H. pose proof (id_in_ext ids ids' H) as Hids.
  destruct ids as [|i ids], ids' as [|i' ids'].
  - split; [repeat split | reflexivity].
  - exfalso. apply (H i'). now left.
  - exfalso. apply (H i). now left.
  - cbn [_simultaneous_ancestry_rebuild cursor_execute].
    apply rebuild_loop_ext; [|exact Hids].
    unfold same_tables. cbn [roles parents members ancestors next_id
                               log_statement set_ancestors].
    repeat split. unfold purge_kept. apply filter_ext. intros e.
    now rewrite Hids.
Qed.

Lemma rebuild_seed_is_a_set_witness :
  let d := mkDb [mkRole 1 "a" None None; mkRole 2 "b" None None]
                [mkEdge 1 2] [] [mkEntry 1 2 2 "b" 0 0] 2 [] in
  (forall x, In x [1; 2] <-> In x [2; 1; 2]) /\
  same_tables (fst (_simultaneous_ancestry_rebuild [1; 2] d))
              (fst (_simultaneous_ancestry_rebuild [2; 1; 2] d)) /\
  snd (_simultaneous_ancestry_rebuild [1; 2] d)
  = snd (_simultaneous_ancestry_rebuild [2; 1; 2] d).
Proof.
  cbv zeta.
  assert (H : forall x, In x [1; 2] <-> In x [2; 1; 2]).
  { intros x. cbn. intuition. }
  split; [exact H|]. exact (rebuild_seed_is_a_set [1; 2] [2; 1; 2] _ H).
Defined.

(** * Further properties of the batching context *)

Lemma set_add_nodup x s : NoDup s -> NoDup (set_add x s).
Proof.
  intros H. unfold set_add. destruct (id_in x s) eqn:E; [exact H|].
  apply id_in_false in E. apply NoDup_app; [exact H | repeat constructor; intros [] |].
  intros y Hy [<-|[]]. contradiction.
Qed.

Lemma entry_point_collects self_id w s :
  batch_role_rebuilding (tls w) = Some true ->
  roles_needing_rebuilding (tls w) = Some s ->
  let '(w', r) := rebuild_role_ancestor_list self_id w in
  forall s', roles_needing_rebuilding (tls w') = Some s' ->
    (NoDup s -> NoDup s') /\ (r = Done -> forall x, In x [self_id] -> In x s').
Proof.
  intros Hb Hs.
  pose proof (rebuild_role_ancestor_list_batching self_id w Hb) as H.
  destruct (rebuild_role_ancestor_list self_id w) as [w' r].
  destruct H as (_ & _ & Hset). destruct (Hset s Hs) as [Hs' _].
  intros s' E. rewrite Hs' in E. injection E as <-. split.
  - apply set_add_nodup.
  - intros _ x [<-|[]]. apply set_add_spec. now left.
Qed.

Lemma run_body_collects body :
  Forall collects body ->
  forall w s,
    batch_role_rebuilding (tls w) = Some true ->
    roles_needing_rebuilding (tls w) = Some s ->
    let '(w', r) := run_body body w in
    forall s', roles_needing_rebuilding (tls w') = Some s' ->
      (NoDup s -> NoDup s') /\
      (r = Done -> forall x, In x (flat_map mutated body) -> In x s').
Proof.
  induction 1 as [|c cs Hc _ IH]; intros w s Hb Hs.
  - cbn. intros s' E. rewrite Hs in E. injection E as <-. split; [auto|].
    intros _ x [].
  - cbn [run_body flat_map]. specialize (Hc w s Hb Hs).
    pose proof (all_commands_deferred c w Hb) as Hstep.
    destruct (run_command c w) as [w1 r1].
    destruct Hstep as (_ & Hb1 & Hset1).
    destruct (Hset1 s Hs) as (s1 & Hs1 & _).
    destruct (Hc s1 Hs1) as [Hn1 Hm1].
    destruct r1 as [|e].
    + specialize (IH w1 s1 Hb1 Hs1).
      pose proof (run_body_batch_step cs w1 Hb1) as Hstep2.
      destruct (run_body cs w1) as [w2 r2].
      destruct Hstep2 as (_ & _ & Hset2).
      destruct (Hset2 s1 Hs1) as (s2 & Hs2 & Hincl & _).
      intros s' E. destruct (IH s' E) as [Hn2 Hm2].
      rewrite Hs2 in E. injection E as <-. split; [auto|].
      intros Hr x Hx. apply in_app_iff in Hx. destruct Hx as [Hx|Hx].
      * apply Hincl. now apply Hm1.
      * now apply Hm2.
    + intros s' E. rewrite Hs1 in E. injection E as <-. split; [auto|].
      discriminate.
Qed.

Lemma all_commands_collect : forall c, collects c.
Proof.
  induction c as [r|x y|x y| |a body IH] using Command_ind';
    unfold collects; intros w s Hb Hs.
  - cbn [run_command mutated]. unfold save.
    now apply (entry_point_collects (id r)).
  - cbn [run_command mutated]. unfold parents_add.
    now apply (entry_point_collects x).
  - cbn [run_command mutated]. unfold parents_remove.
    now apply (entry_point_collects x).
  - cbn. intros s' E. rewrite Hs in E. injection E as <-. split; [auto|].
    discriminate.
  - rewrite run_command_with_batch, (batch_enter_nested a w Hb).
    pose proof (run_body_collects body IH w s Hb Hs) as H.
    pose proof (run_body_batch_step body w Hb) as Hstep.
    destruct (run_body body w) as [w2 r2].
    assert (Hb2 : batch_role_rebuilding (tls w2) = Some true) by apply Hstep.
    rewrite (batch_exit_nested w2 Hb2). cbn [finally]. exact H.
Qed.

(** X11. When the body of an outermost batch completes, the set handed
    to the rebuild at exit holds exactly the roles that the body
    mutated, nested blocks included, each once. *)
Theorem batch_collects_mutated_roles : forall allow_nesting body w,
  batching (tls w) = false ->
  let '(w2, r) := run_body body (fst (batch_enter allow_nesting w)) in
  r = Done ->
  exists s, roles_needing_rebuilding (tls w2) = Some s /\ NoDup s /\
            forall x, In x s <-> In x (flat_map mutated body).
Proof.
  intros a body w Hb. rewrite (batch_enter_outermost _ _ Hb). cbn [fst].
  pose proof (run_body_batch_step body
                (mkWorld (db w) (mkTls (Some true) (Some []))) eq_refl) as Hstep.
  pose proof (run_body_collects body
                (proj2 (Forall_forall _ _) (fun c _ => all_commands_collect c))
                (mkWorld (db w) (mkTls (Some true) (Some []))) []
                eq_refl eq_refl) as Hcol.
  destruct (run_body body _) as [w2 r2].
  destruct Hstep as (_ & _ & Hset).
  destruct (Hset [] eq_refl) as (s & Hs & _ & Hsub & _).
  destruct (Hcol s Hs) as [Hn Hm].
  intros Hr. exists s. split; [exact Hs|]. split; [apply Hn; constructor|].
  intros x. split.
  - intros Hx. destruct (Hsub x Hx) as [[]|H]. exact H.
  - now apply Hm.
Qed.

Lemma batch_collects_mutated_roles_witness :
  let body := [Save (mkRole 1 "a" None None); AddParent 1 2;
               WithBatch true [Save (mkRole 2 "b" None None)]] in
  batching (tls fresh_world) = false /\
  let '(w2, r) := run_body body (fst (batch_enter false fresh_world)) in
  r = Done ->
  exists s, roles_needing_rebuilding (tls w2) = Some s /\ NoDup s /\
            forall x, In x s <-> In x (flat_map mutated body).
Proof.
  split; [reflexivity|].
  exact (batch_collects_mutated_roles false
           [Save (mkRole 1 "a" None None); AddParent 1 2;
            WithBatch true [Save (mkRole 2 "b" None None)]]
           fresh_world eq_refl).
Defined.



(** * Properties of the queries *)

Lemma role_ancestors_spec d self_id r :
  In r (role_ancestors d self_id) <->
  In r (roles d) /\ stored (ancestors d) self_id (id r) = true.
Proof.
  unfold role_ancestors. rewrite in_flat_map, stored_spec. split.
  - intros [r' [Hr Hin]]. apply in_map_iff in Hin. destruct Hin as [e [<- He]].
    apply filter_In in He. destruct He as [He Hm].
    apply andb_true_iff in Hm. destruct Hm as [H1 H2]. apply Z.eqb_eq in H1, H2.
    split; [assumption|]. now exists e.
  - intros [Hr [e (He & Hd & Ha)]]. exists r. split; [assumption|].
    apply in_map_iff. exists e. split; [reflexivity|].
    apply filter_In. split; [assumption|]. rewrite Hd, Ha.
    now rewrite !Z.eqb_refl.
Qed.

Lemma queryset_exists_spec {A} (rows : list A) :
  queryset_exists rows = true <-> exists x, In x rows.
Proof.
  destruct rows as [|x rows]; cbn.
  - split; [discriminate | intros [x []]].
  - split; [intros _; exists x; now left | reflexivity].
Qed.

Lemma Role_contains_answer d self accessor b :
  Role_contains d self accessor = Answer b ->
  (b = true <->
   exists x, is_role d x /\ stored (ancestors d) (id self) x = true /\
             contains_holds d accessor x).
Proof.
  destruct accessor as [t|[u|a|ct pk]];
    cbn [Role_contains contains_holds holds_role]; intros [= <-];
    rewrite queryset_exists_spec.
  - split.
    + intros [r Hr]. apply filter_In in Hr. destruct Hr as [Hr Hid].
      apply Z.eqb_eq in Hid. apply role_ancestors_spec in Hr. destruct Hr as [Hr Hs].
      exists (id r). repeat split; try assumption.
      apply is_role_spec. now exists r.
    + intros [x (Hx & Hs & ->)]. apply is_role_spec in Hx. destruct Hx as [r [Hr <-]].
      exists r. apply filter_In. split; [|apply Z.eqb_refl].
      apply role_ancestors_spec. auto.
  - split.
    + intros [m Hm]. apply in_flat_map in Hm. destruct Hm as [r [Hr Hm]].
      apply filter_In in Hm. destruct Hm as [Hm Hc].
      apply andb_true_iff in Hc. destruct Hc as [H1 H2]. apply Z.eqb_eq in H1, H2.
      apply role_ancestors_spec in Hr. destruct Hr as [Hr Hs].
      exists (id r). split; [apply is_role_spec; now exists r|].
      split; [assumption|]. exists r. repeat split; try assumption.
      destruct m as [mr mu]. cbn in *. now subst.
    + intros [x (_ & Hs & r & Hr & <- & Hm)].
      exists (mkMember (id r) u). apply in_flat_map. exists r. split.
      * apply role_ancestors_spec. auto.
      * apply filter_In. split; [assumption|]. cbn. now rewrite !Z.eqb_refl.
  - split.
    + intros [r Hr]. apply filter_In in Hr. destruct Hr as [Hr Hid].
      apply id_in_true in Hid.
      apply (accessor_roles_spec d (AObject ct pk)) in Hid.
      apply role_ancestors_spec in Hr. destruct Hr as [Hr Hs].
      exists (id r). repeat split; try assumption.
      apply is_role_spec. now exists r.
    + intros [x (Hx & Hs & Hh)]. apply is_role_spec in Hx.
      destruct Hx as [r [Hr <-]].
      exists r. apply filter_In. split.
      * apply role_ancestors_spec. auto.
      * apply id_in_true. apply (accessor_roles_spec d (AObject ct pk)). exact Hh.
Qed.

(** X13. [accessor in role] raises TypeError when the accessor is a
    Role, whatever the closure holds.  For a user, a team or any other
    object it answers, and the answer is True exactly when the closure
    stores, for the role as descendent, an ancestor that is a role and
    that counts for the accessor: a role the user is a member of, the
    member role of the team, or a role bound to the object by content
    type and object id. *)
Theorem contains_spec : forall d self accessor,
  match accessor with
  | COther (ARole _) => Role_contains d self accessor = TypeError
  | _ =>
      exists b, Role_contains d self accessor = Answer b /\
        (b = true <->
         exists x, is_role d x /\ stored (ancestors d) (id self) x = true /\
                   contains_holds d accessor x)
  end.
Proof.
  intros d self [t|[u|a|ct pk]]; try reflexivity;
    eexists; (split; [reflexivity|]); now apply Role_contains_answer.
Qed.

Lemma get_roles_on_resource_key d resource accessor e :
  In e (ancestors d) ->
  holds_role d accessor (ancestor e) ->
  content_type_id e = resource_type_id resource ->
  entry_object_id e = resource_id resource ->
  In (entry_role_field e, true) (get_roles_on_resource d resource accessor).
Proof.
  intros He Hh Hc Ho.
  set (hit := fun e => id_in (ancestor e) (accessor_roles d accessor)
                       && (content_type_id e =? resource_type_id resource)
                       && (entry_object_id e =? resource_id resource)).
  destruct (dict_fill (map entry_role_field (filter hit (ancestors d))) []
                      (NoDup_nil _) (fun p H => match H with end))
    as (_ & Hv & Hk).
  fold (get_roles_on_resource d resource accessor) in Hv, Hk.
  assert (Hkey : In (entry_role_field e)
                    (map fst (get_roles_on_resource d resource accessor))).
  { apply Hk. left. apply in_map. apply filter_In. split; [assumption|].
    unfold hit. rewrite !andb_true_iff, !Z.eqb_eq, id_in_true, accessor_roles_spec.
    auto. }
  apply in_map_iff in Hkey. destruct Hkey as [[k v] [Hk' Hin]].
  cbn in Hk'. subst k. now rewrite <- (Hv _ Hin).
Qed.

(** X14. Containment shows in the listing: when [accessor in role]
    answers True (the accessor is then a user or an object, not a Role)
    for a role that is bound to a resource, and the closure rows of that
    role carry its fields, then the role_field of the role is a key of
    [get_roles_on_resource] for that resource and accessor. *)
Theorem contained_role_is_listed : forall d r accessor t pk,
  Role_contains d r (COther accessor) = Answer true ->
  denormalized d r ->
  content_type r = Some t -> object_id r = Some pk ->
  In (role_field r, true) (get_roles_on_resource d (mkResource t pk) accessor).
Proof.
  intros d r accessor t pk Hc Hden Ht Hpk.
  apply Role_contains_answer in Hc. destruct Hc as [Hc _].
  destruct (Hc eq_refl) as [x (_ & Hs & Hh)].
  apply stored_spec in Hs. destruct Hs as [e (He & Hd & Ha)].
  pose proof (Hden e He Hd) as Hcan.
  unfold row_of, canonical in Hcan. injection Hcan as _ Hf Hct Ho.
  rewrite <- Hf.
  apply get_roles_on_resource_key; try assumption.
  - cbn in Hh. now rewrite Ha.
  - cbn. now rewrite Hct, Ht.
  - cbn. now rewrite Ho, Hpk.
Qed.

Lemma contained_role_is_listed_witness :
  let r := mkRole 1 "admin" (Some 7) (Some 42) in
  let d := mkDb [r; mkRole 2 "member" None None] [mkEdge 1 2] [mkMember 2 9]
                [mkEntry 1 1 1 "admin" 7 42; mkEntry 2 2 2 "member" 0 0;
                 mkEntry 3 1 2 "admin" 7 42] 4 [] in
  Role_contains d r (COther (AUser 9)) = Answer true /\
  denormalized d r /\
  In (role_field r, true) (get_roles_on_resource d (mkResource 7 42) (AUser 9)).
Proof.
  cbv zeta.
  assert (Hden : denormalized
                   (mkDb [mkRole 1 "admin" (Some 7) (Some 42);
                          mkRole 2 "member" None None] [mkEdge 1 2] [mkMember 2 9]
                         [mkEntry 1 1 1 "admin" 7 42; mkEntry 2 2 2 "member" 0 0;
                          mkEntry 3 1 2 "admin" 7 42] 4 [])
                   (mkRole 1 "admin" (Some 7) (Some 42))).
  { intros e [<-|[<-|[<-|[]]]] Hd; try reflexivity. discriminate. }
  split; [reflexivity|]. split; [exact Hden|].
  apply (contained_role_is_listed _ _ (AUser 9) 7 42);
    [reflexivity | exact Hden | reflexivity | reflexivity].
Defined.

(** X15. Once every role has its self row, every role is its own
    ancestor for [is_ancestor_of]. *)
Theorem role_is_its_own_ancestor : forall d r,
  In r (roles d) -> self_invariant d ->
  is_ancestor_of d r r = true.
Proof.
  intros d r Hr Hinv.
  assert (Hs : stored (ancestors d) (id r) (id r) = true).
  { rewrite stored_row_count, Hinv; [reflexivity|].
    apply is_role_spec. now exists r. }
  apply queryset_exists_spec. exists r. apply filter_In. split; [|apply Z.eqb_refl].
  apply role_ancestors_spec. auto.
Qed.

Lemma role_is_its_own_ancestor_witness :
  let r := mkRole 1 "admin" None None in
  let d := db (fst (run_command (Save r) fresh_world)) in
  In r (roles d) /\ self_invariant d /\ is_ancestor_of d r r = true.
Proof.
  cbv zeta.
  assert (Hinv : self_invariant
                   (db (fst (run_command (Save (mkRole 1 "admin" None None))
                                         fresh_world)))).
  { intros x [<-|[]]. reflexivity. }
  split; [now left|]. split; [exact Hinv|].
  apply (role_is_its_own_ancestor _ (mkRole 1 "admin" None None));
    [now left | exact Hinv].
Defined.

(** X16. After a returned rebuild of every role, [is_ancestor_of] is
    reachability: for roles [a] and [x] of the database,
    [a.is_ancestor_of(x)] holds exactly when [a] is reachable from [x]
    through the parent edges. *)
Theorem is_ancestor_of_after_full_rebuild : forall ids d d' how n a x,
  well_formed d -> ancestors_fk d ->
  (forall y, is_role d y -> In y ids) ->
  _simultaneous_ancestry_rebuild ids d = (d', Returned how n) ->
  In a (roles d) -> In x (roles d) ->
  (is_ancestor_of d' a x = true <-> reachable (parents d) (id x) (id a)).
Proof.
  intros ids d d' how n a x Hwf Hfk Hall Hrun Ha Hx.
  pose proof (rebuild_frame ids d) as (Hr & _).
  rewrite Hrun in Hr. cbn [fst] in Hr.
  unfold is_ancestor_of. rewrite queryset_exists_spec.
  rewrite <- (full_rebuild_stored ids d d' how n Hwf Hfk Hall Hrun (id x) (id a));
    [|apply is_role_spec; now exists x].
  split.
  - intros [r Hin]. apply filter_In in Hin. destruct Hin as [Hin Hid].
    apply Z.eqb_eq in Hid. apply role_ancestors_spec in Hin. now rewrite <- Hid.
  - intros Hs. exists a. apply filter_In. split; [|apply Z.eqb_refl].
    apply role_ancestors_spec. rewrite Hr. auto.
Qed.

Lemma is_ancestor_of_after_full_rebuild_witness :
  let a := mkRole 2 "b" None None in
  let x := mkRole 1 "a" None None in
  let d := mkDb [x; a] [mkEdge 1 2] [] [mkEntry 1 2 2 "b" 0 0] 2 [] in
  let d' := fst (_simultaneous_ancestry_rebuild [1; 2] d) in
  well_formed d /\ ancestors_fk d /\
  (forall y, is_role d y -> In y [1; 2]) /\
  _simultaneous_ancestry_rebuild [1; 2] d = (d', Returned WhileFalse 2) /\
  In a (roles d) /\ In x (roles d) /\
  (is_ancestor_of d' a x = true <-> reachable (parents d) (id x) (id a)).
Proof.
  cbv zeta.
  assert (Hfk : ancestors_fk (mkDb [mkRole 1 "a" None None; mkRole 2 "b" None None]
                                   [mkEdge 1 2] [] [mkEntry 1 2 2 "b" 0 0] 2 [])).
  { intros e [<-|[]]. unfold is_role. cbn. intuition. }
  assert (Hall : forall y,
             is_role (mkDb [mkRole 1 "a" None None; mkRole 2 "b" None None]
                           [mkEdge 1 2] [] [mkEntry 1 2 2 "b" 0 0] 2 []) y ->
             In y [1; 2]).
  { intros y Hy. exact Hy. }
  assert (Hrun : _simultaneous_ancestry_rebuild [1; 2]
                   (mkDb [mkRole 1 "a" None None; mkRole 2 "b" None None]
                         [mkEdge 1 2] [] [mkEntry 1 2 2 "b" 0 0] 2 [])
                 = (fst (_simultaneous_ancestry_rebuild [1; 2]
                           (mkDb [mkRole 1 "a" None None; mkRole 2 "b" None None]
                                 [mkEdge 1 2] [] [mkEntry 1 2 2 "b" 0 0] 2 [])),
                    Returned WhileFalse 2)).
  { vm_compute. reflexivity. }
  split; [exact small_chain_well_formed|]. split; [exact Hfk|].
  split; [exact Hall|]. split; [exact Hrun|].
  split; [right; now left|]. split; [now left|].
  apply (is_ancestor_of_after_full_rebuild [1; 2] _ _ WhileFalse 2%nat
           (mkRole 2 "b" None None) (mkRole 1 "a" None None)
           small_chain_well_formed Hfk Hall Hrun);
    [right; now left | now left].
Defined.

Lemma left_join_some {A} (on : A -> bool) rows e :
  In (Some e) (left_join on rows) <-> In e rows /\ on e = true.
Proof.
  unfold left_join. rewrite <- filter_In.
  destruct (filter on rows) as [|m ms] eqn:E.
  - split; [intros [H|[]]; discriminate | intros []].
  - rewrite in_map_iff. split.
    + intros [x [Hx Hin]]. now injection Hx as <-.
    + intros H. now exists e.
Qed.

Lemma left_join_inhabited {A} (on : A -> bool) rows :
  exists t, In t (left_join on rows).
Proof.
  unfold left_join. destruct (filter on rows) as [|m ms].
  - exists None. now left.
  - exists (Some m). now left.
Qed.

Lemma visible_roles_spec d user r :
  In r (visible_roles d user) <->
  In r (roles d) /\
  exists h, In h (accessor_roles d (AUser user)) /\
            (stored (ancestors d) h (id r) = true \/
             stored (ancestors d) (id r) h = true).
Proof.
  unfold visible_roles. rewrite in_flat_map. split.
  - intros [r' [Hr Hin]]. apply in_flat_map in Hin. destruct Hin as [t1 [H1 Hin]].
    apply in_flat_map in Hin. destruct Hin as [t2 [H2 Hin]].
    destruct (_ || _) eqn:Hc in Hin; [|destruct Hin].
    destruct Hin as [<-|[]]. split; [assumption|].
    apply orb_true_iff in Hc. destruct Hc as [Hc|Hc].
    + destruct t1 as [e|]; [|discriminate].
      apply left_join_some in H1. destruct H1 as [He Ha]. apply Z.eqb_eq in Ha.
      exists (descendent e). split; [now apply id_in_true|]. left.
      apply stored_spec. exists e. auto.
    + destruct t2 as [e|]; [|discriminate].
      apply left_join_some in H2. destruct H2 as [He Hd]. apply Z.eqb_eq in Hd.
      exists (ancestor e). split; [now apply id_in_true|]. right.
      apply stored_spec. exists e. auto.
  - intros [Hr [h [Hh [Hs|Hs]]]]; exists r; (split; [assumption|]);
      apply stored_spec in Hs; destruct Hs as [e (He & Hd & Ha)].
    + destruct (left_join_inhabited (fun e0 => id r =? descendent e0) (ancestors d))
        as [t2 H2].
      apply in_flat_map. exists (Some e). split.
      * apply left_join_some. split; [assumption|]. now apply Z.eqb_eq.
      * apply in_flat_map. exists t2. split; [assumption|].
        assert (Hin : id_in (descendent e) (accessor_roles d (AUser user)) = true).
        { apply id_in_true. now rewrite Hd. }
        rewrite Hin. now left.
    + destruct (left_join_inhabited (fun e0 => id r =? ancestor e0) (ancestors d))
        as [t1 H1].
      apply in_flat_map. exists t1. split; [assumption|].
      apply in_flat_map. exists (Some e). split.
      * apply left_join_some. split; [assumption|]. now apply Z.eqb_eq.
      * assert (Hin : id_in (ancestor e) (accessor_roles d (AUser user)) = true).
        { apply id_in_true. now rewrite Ha. }
        rewrite Hin, orb_true_r. now left.
Qed.

(** X17. [visible_roles] returns the roles of the database that have a
    role of the user among their stored descendents or among their
    stored ancestors, and nothing else; once every role has its self
    row, every role the user is a member of is visible. *)
Theorem visible_roles_correct : forall d user,
  (forall r, In r (visible_roles d user) <->
             In r (roles d) /\
             exists h, holds_role d (AUser user) h /\
                       (stored (ancestors d) h (id r) = true \/
                        stored (ancestors d) (id r) h = true)) /\
  (self_invariant d ->
   forall r, In r (roles d) -> In (mkMember (id r) user) (members d) ->
             In r (visible_roles d user)).
Proof.
  intros d user. split.
  - intros r. rewrite visible_roles_spec. split;
      intros [Hr [h [Hh Hs]]]; (split; [assumption|]); exists h;
      (split; [|assumption]); now apply accessor_roles_spec.
  - intros Hinv r Hr Hm. apply visible_roles_spec. split; [assumption|].
    exists (id r). split.
    + apply accessor_roles_spec. cbn. now exists r.
    + left. rewrite stored_row_count, Hinv; [reflexivity|].
      apply is_role_spec. now exists r.
Qed.

Lemma visible_roles_correct_witness :
  let r := mkRole 1 "admin" None None in
  let d := mkDb [r; mkRole 2 "read" None None] [mkEdge 2 1] [mkMember 1 9]
                [mkEntry 1 1 1 "admin" 0 0; mkEntry 2 2 2 "read" 0 0;
                 mkEntry 3 2 1 "read" 0 0] 4 [] in
  self_invariant d /\ In r (roles d) /\ In (mkMember (id r) 9) (members d) /\
  In r (visible_roles d 9) /\
  map id (visible_roles d 9) = [1; 1; 2].
Proof.
  cbv zeta.
  assert (Hinv : self_invariant
                   (mkDb [mkRole 1 "admin" None None; mkRole 2 "read" None None]
                         [mkEdge 2 1] [mkMember 1 9]
                         [mkEntry 1 1 1 "admin" 0 0; mkEntry 2 2 2 "read" 0 0;
                          mkEntry 3 2 1 "read" 0 0] 4 [])).
  { intros x [<-|[<-|[]]]; reflexivity. }
  split; [exact Hinv|]. split; [now left|]. split; [now left|].
  split; [|reflexivity].
  apply (proj2 (visible_roles_correct _ 9) Hinv); now left.
Defined.

(** * Graphs that are not too deep *)

Lemma rebuild_loop_on_returns accepts d0 k : forall fuel loop_ct d q d1 ids,
  roles d = roles d0 -> parents d = parents d0 ->
  fetch accepts q d = (d1, Some ids) ->
  (forall x, In x ids -> ~ chain d0 k x) ->
  (forall j, (1 <= j <= k)%nat -> accepts (query_depth q + j)%nat = true) ->
  (loop_ct + k <= 1001)%nat -> (1001 <= fuel + loop_ct)%nat ->
  exists how n,
    snd (rebuild_loop_on accepts fuel loop_ct d q) = Completed (Returned how n).
Proof.
  induction k as [|k IH];
    intros fuel loop_ct d q d1 ids Hr Hp Hfetch Hno Hacc Hk Hfuel;
    rewrite rebuild_loop_on_step, Hfetch.
  - destruct ids as [|i ids].
    + now exists WhileFalse, loop_ct.
    + exfalso. apply (Hno i); [now left | constructor].
  - destruct ids as [|i ids].
    { now exists WhileFalse, loop_ct. }
    destruct fuel as [|f]; [lia|].
    replace (1000 <? loop_ct)%nat with false
      by (symmetry; apply Nat.ltb_ge; lia).
    destruct (layer (i :: ids) d1) as [[d2 dct] ict] eqn:Hl.
    destruct ((ict =? 0) && (dct =? 0)).
    + now exists Break, (S loop_ct).
    + destruct (fetch_rows _ _ _ _ _ Hfetch) as (_ & Hr1 & Hp1).
      assert (Hfr : roles d2 = roles d1 /\ parents d2 = parents d1).
      { pose proof (layer_frame (i :: ids) d1) as H. cbv zeta in H.
        rewrite Hl in H. cbn [fst] in H. tauto. }
      destruct Hfr as [Hr2 Hp2].
      pose proof (fetch_next accepts q d d1 (i :: ids) d2 Hfetch Hr2 Hp2) as Hnext.
      assert (Ha1 : accepts (S (query_depth q)) = true).
      { rewrite <- Nat.add_1_r. apply Hacc. lia. }
      rewrite Ha1 in Hnext.
      apply (IH f (S loop_ct) d2 (ChildrenOf q)
                (fst (select_children (i :: ids) d2))
                (snd (select_children (i :: ids) d2)));
        try congruence; try lia.
      * intros y Hy Hchain. cbn [select_children snd] in Hy.
        apply children_ids_spec in Hy.
        destruct Hy as [r [p (Hin & Hid & Hpin & Ht & Hf)]].
        apply (Hno (id r)); [now apply id_in_true|].
        apply (chain_step d0 k (id r) y); [| |exact Hchain].
        -- replace (parents d0) with (parents d2) by congruence.
           rewrite <- Ht, <- Hf, edge_eta. exact Hpin.
        -- apply is_role_spec. exists r.
           replace (roles d0) with (roles d2) by congruence. auto.
      * intros j Hj.
        replace (query_depth (ChildrenOf q) + j)%nat
          with (query_depth q + S j)%nat by (cbn [query_depth]; lia).
        apply Hacc. lia.
Qed.

(** X18. On a graph that is not too deep the rebuild returns: when no
    chain of [k] parent edges, [k] at most 1001, leads down from a role
    of the seed, and the store runs the children queries of up to [k]
    nested SELECTs, then neither exception reaches the caller, whatever
    the closure holds. *)
Theorem shallow_rebuild_returns : forall accepts k ids d,
  (k <= 1001)%nat ->
  (forall x, In x ids -> ~ chain d k x) ->
  (forall j, (1 <= j <= k)%nat -> accepts j = true) ->
  exists how n,
    snd (_simultaneous_ancestry_rebuild_on accepts ids d)
    = Completed (Returned how n).
Proof.
  intros accepts k [|i ids] d Hk Hno Hacc; [now exists EmptySeed, 0%nat|].
  cbn [_simultaneous_ancestry_rebuild_on cursor_execute].
  eapply (rebuild_loop_on_returns accepts d k);
    [reflexivity | reflexivity | reflexivity | exact Hno | exact Hacc | lia | lia].
Qed.

Lemma no_chain_of_two x :
  ~ chain (mkDb [mkRole 1 "a" None None; mkRole 2 "b" None None]
                [mkEdge 1 2] [] [mkEntry 1 2 2 "b" 0 0] 2 []) 2 x.
Proof.
  intros H. inversion H as [|k y c Hin _ Hc]; subst.
  destruct Hin as [E|[]]. injection E as <- <-.
  inversion Hc as [|k' y' c' Hin' _ _]; subst.
  destruct Hin' as [E|[]]. discriminate.
Defined.

Lemma shallow_rebuild_returns_witness :
  let accepts := fun n => (n <=? 10)%nat in
  let d := mkDb [mkRole 1 "a" None None; mkRole 2 "b" None None]
                [mkEdge 1 2] [] [mkEntry 1 2 2 "b" 0 0] 2 [] in
  (2 <= 1001)%nat /\
  (forall x, In x [2] -> ~ chain d 2 x) /\
  (forall j, (1 <= j <= 2)%nat -> accepts j = true) /\
  exists how n,
    snd (_simultaneous_ancestry_rebuild_on accepts [2] d)
    = Completed (Returned how n).
Proof.
  cbv zeta.
  assert (Hacc : forall j, (1 <= j <= 2)%nat -> (j <=? 10)%nat = true).
  { intros j Hj. apply Nat.leb_le. lia. }
  split; [lia|]. split; [intros x _; apply no_chain_of_two|].
  split; [exact Hacc|].
  apply (shallow_rebuild_returns (fun n => (n <=? 10)%nat) 2 [2]);
    [lia | intros x _; apply no_chain_of_two | exact Hacc].
Defined.
